(** * ledger-thorchain-js: the APDU protocol engine

    A shallow embedding of the host-side driver of the THORChain Ledger
    application ([src/index.ts], [src/helper.ts]), the properties its
    specification states about it (C1 to C10), and further properties of the
    code (X1 and on). The third helper file of the sources repeats
    [serializePath] and [signSendChunk] of [src/helper.ts] word for word (its
    [publicKey] is [getPublicKey] under another name) and is not embedded a
    second time. [getBech32FromPK] and the constructor are left out: they
    only call libraries that are not among the sources.

    - Node's [Buffer] is a list of bytes; the few [Buffer] methods the driver
      calls are modelled with the range checks Node performs.
    - JavaScript numbers are integers plus [NaN]; a missing array element is
      [None]. A derivation path is a list of integers: what the code does
      with entries that are not integers is not modelled.
    - An [async] function is a tree of [await transport.send(...)] nodes
      ([Async]); a run feeds it the transport's answers one by one and
      records the commands that were sent.
    - The constants of [src/common.ts] (status words, opcodes, the status
      translator) are fields of the class [Env]. *)

From Stdlib Require Import ZArith Strings.String Strings.Ascii Strings.Byte Lia Bool.
From Stdlib Require Import HexadecimalString.
From Equations Require Import Equations.
From stdpp Require Import base option list.

Local Open Scope string_scope.
Local Open Scope list_scope.
Local Open Scope Z_scope.

(** ** JavaScript values *)

(** A JavaScript [number] that holds an integer, or [NaN]. *)
Inductive number : Type :=
| Num (z : Z)
| NaN.

Definition number_add (a b : number) : number :=
  match a, b with
  | Num x, Num y => Num (x + y)
  | _, _ => NaN
  end.

Definition number_mul (a b : number) : number :=
  match a, b with
  | Num x, Num y => Num (x * y)
  | _, _ => NaN
  end.

(** [a === z] for a number [a] and an integer constant [z]; [NaN] equals
    nothing. *)
Definition number_eqb (a : number) (z : Z) : bool :=
  match a with
  | Num x => x =? z
  | NaN => false
  end.

(** What the driver and its libraries throw. *)
Inductive exception : Type :=
| LedgerError (errorType : number) (message : option string)
| Error (message : string)
| RangeError
| TransportStatusError (statusCode : Z)
| TransportError (message : string).

(** The result of a synchronous call: a value or a thrown exception. *)
Inductive outcome (A : Type) : Type :=
| Ok (a : A)
| Thrown (e : exception).
Arguments Ok {A} a.
Arguments Thrown {A} e.

Definition outcome_bind {A B : Type} (o : outcome A) (f : A -> outcome B) : outcome B :=
  match o with
  | Ok a => f a
  | Thrown e => Thrown e
  end.

Declare Scope outcome_scope.
Delimit Scope outcome_scope with outcome.
Notation "'let!' x ':=' c 'in' k" := (outcome_bind c (fun x => k))
  (at level 10, x name, c at level 100, k at level 200) : outcome_scope.

(** ** Bytes *)

Definition byte_to_Z (b : byte) : Z := Z.of_N (Byte.to_N b).

Definition Z_to_byte (z : Z) : byte :=
  default x00 (Byte.of_N (Z.to_N (z mod 256))).

(** ToNumber of an array element that may be missing. *)
Definition to_number (o : option byte) : number :=
  match o with
  | Some b => Num (byte_to_Z b)
  | None => NaN
  end.

(** ToInt32, the conversion the bitwise operators apply to their operands. *)
Definition ToInt32 (z : Z) : Z := (z + 2147483648) mod 4294967296 - 2147483648.

(** [a << n] *)
Definition shl (a n : Z) : Z := ToInt32 (Z.shiftl (ToInt32 a) (Z.land n 31)).

(** [a & b] *)
Definition band (a b : Z) : Z := Z.land (ToInt32 a) (ToInt32 b).

(** ** Node's Buffer *)

Module Buffer.

(** A buffer is the list of its bytes. *)
Abbreviation t := (list byte).

(** [Buffer.alloc(size)]: [size] zero bytes. *)
Definition alloc (size : Z) : t := replicate (Z.to_nat size) x00.

Definition length (buf : t) : Z := Z.of_nat (List.length buf).

(** [buf[i]] *)
Definition get (buf : t) (i : Z) : option byte :=
  if i <? 0 then None else buf !! Z.to_nat i.

(** [buf[i]] for an index that may be [NaN]. *)
Definition get_number (buf : t) (i : number) : option byte :=
  match i with
  | Num z => get buf z
  | NaN => None
  end.

(** The clamping [slice] applies to each of its offsets. *)
Definition adjustOffset (offset : number) (length : Z) : Z :=
  match offset with
  | NaN => 0
  | Num o =>
      if o <? 0 then Z.max (o + length) 0
      else if o <? length then o
      else length
  end.

(** [buf.slice(start, end)] *)
Definition slice (buf : t) (start end_ : number) : t :=
  let s := adjustOffset start (length buf) in
  let e := adjustOffset end_ (length buf) in
  take (Z.to_nat (e - s)) (drop (Z.to_nat s) buf).

(** [buf.slice(start)] *)
Definition slice_from (buf : t) (start : number) : t :=
  slice buf start (Num (length buf)).

(** [Buffer.concat(list)] *)
Definition concat (bufs : list t) : t := List.concat bufs.

(** [buf.writeUInt8(value, offset)]: Node throws a RangeError when the
    value is not in 0..255 or the offset is outside the buffer. *)
Definition writeUInt8 (buf : t) (value offset : Z) : outcome t :=
  if (value <? 0) || (255 <? value) then Thrown RangeError
  else if (offset <? 0) || (length buf <? offset + 1) then Thrown RangeError
  else Ok (<[Z.to_nat offset := Z_to_byte value]> buf).

(** The four bytes of a 32-bit value, least significant first. *)
Definition bytes_LE32 (value : Z) : list byte :=
  [Z_to_byte value; Z_to_byte (Z.shiftr value 8);
   Z_to_byte (Z.shiftr value 16); Z_to_byte (Z.shiftr value 24)].

(** [buf.writeUInt32LE(value, offset)]: Node throws a RangeError when the
    value is not in 0..2^32-1 or the four bytes do not fit. *)
Definition writeUInt32LE (buf : t) (value offset : Z) : outcome t :=
  if (value <? 0) || (4294967295 <? value) then Thrown RangeError
  else if (offset <? 0) || (length buf <? offset + 4) then Thrown RangeError
  else Ok (list_inserts (Z.to_nat offset) (bytes_LE32 value) buf).

(** [buf.readUInt32LE(offset)], the decoder of a little-endian word. *)
Definition readUInt32LE (buf : t) (offset : Z) : option Z :=
  match get buf offset, get buf (offset + 1), get buf (offset + 2), get buf (offset + 3) with
  | Some b0, Some b1, Some b2, Some b3 =>
      Some (byte_to_Z b0 + 256 * byte_to_Z b1 + 65536 * byte_to_Z b2 + 16777216 * byte_to_Z b3)
  | _, _, _, _ => None
  end.

End Buffer.

(** ** Text conversions *)

Definition ascii_to_Z (c : ascii) : Z := Z.of_N (N_of_ascii c).

Definition Z_to_ascii (z : Z) : ascii := ascii_of_N (Z.to_N z).

Fixpoint string_of_list (l : list ascii) : string :=
  match l with
  | [] => EmptyString
  | c :: l' => String c (string_of_list l')
  end.

(** [n.toString(16)] for an integer [n]. *)
Definition Number_toString16 (z : Z) : string :=
  NilZero.string_of_int (Z.to_hex_int z).

Definition hex_digit (z : Z) : ascii :=
  if z <? 10 then Z_to_ascii (48 + z) else Z_to_ascii (87 + z).

Module BufferText.

(** [buf.toString("hex")]: two lower-case digits per byte. *)
Definition toString_hex (buf : Buffer.t) : string :=
  string_of_list
    (flat_map (fun b => [hex_digit (byte_to_Z b / 16); hex_digit (byte_to_Z b mod 16)]) buf).

(** [buf.toString("ascii")]: Node clears the top bit of every byte. *)
Definition toString_ascii (buf : Buffer.t) : string :=
  string_of_list (List.map (fun b => Z_to_ascii (Z.land (byte_to_Z b) 127)) buf).

(** The UTF-8 bytes of one character (code units up to 255 here). *)
Definition utf8_char (c : ascii) : list byte :=
  let n := ascii_to_Z c in
  if n <? 128 then [Z_to_byte n]
  else [Z_to_byte (Z.lor 192 (Z.shiftr n 6)); Z_to_byte (Z.lor 128 (Z.land n 63))].

(** The bytes [buf.write] stores when [room] bytes are left: whole
    characters only, it stops at the first one that does not fit. *)
Fixpoint utf8Write (s : string) (room : nat) : list byte :=
  match s with
  | EmptyString => []
  | String c s' =>
      let bs := utf8_char c in
      if (List.length bs <=? room)%nat
      then bs ++ utf8Write s' (room - List.length bs)
      else []
  end.

(** [buf.write(string, offset)] with the default encoding, UTF-8. *)
Definition write (buf : Buffer.t) (s : string) (offset : Z) : outcome Buffer.t :=
  if (offset <? 0) || (Buffer.length buf <? offset) then Thrown RangeError
  else Ok (list_inserts (Z.to_nat offset)
             (utf8Write s (List.length buf - Z.to_nat offset)) buf).

End BufferText.

(** ** src/common.ts and the transport *)

Inductive PAYLOAD_TYPE : Type := INIT | ADD | LAST.

Inductive P1_VALUES : Type := ONLY_RETRIEVE | SHOW_ADDRESS_IN_DEVICE.

Inductive INS : Type := GET_VERSION | SIGN_SECP256K1 | GET_ADDR_SECP256K1.

Inductive LedgerErrorType : Type :=
| NoErrors
| DataIsInvalid
| BadKeyHandle
| SignVerifyError
| AppDoesNotSeemToBeOpen
| HPRInvalid
| PKInvalidBytes
| ExecutionError
| DeviceIsBusy.

(** What the sources leave out: the numeric constants and the two helpers of
    [src/common.ts], and Node's UTF-8 decoder ([buf.toString()]). Every
    definition below takes them as they are; no theorem fixes their values. *)
Class Env : Type := {
  CLA : Z;
  INS_value : INS -> Z;
  PAYLOAD_TYPE_value : PAYLOAD_TYPE -> Z;
  P1_VALUES_value : P1_VALUES -> Z;
  LedgerErrorType_value : LedgerErrorType -> Z;
  errorCodeToString : number -> string;
  ledgerErrorFromResponse : exception -> exception;
  toString_utf8 : Buffer.t -> string
}.

(** Modelled from the spec: [CHUNK_SIZE] is a constant of [src/common.ts],
    which is not among the sources; the spec fixes the chunk size at 150
    bytes. *)
Definition CHUNK_SIZE : Z := 150.

(** One call of [transport.send(cla, ins, p1, p2, data, statusList)]. *)
Record APDU : Type := {
  cla : Z;
  ins : Z;
  p1 : Z;
  p2 : Z;
  data : option Buffer.t;
  statusList : option (list Z)
}.

(** ** Asynchronous functions

    An [async] function either returns, throws, or awaits the transport and
    goes on with what the transport answered (response bytes, or an
    exception). *)
Inductive Async (A : Type) : Type :=
| Return (a : A)
| Throw (e : exception)
| Await (c : APDU) (k : outcome Buffer.t -> Async A).
Arguments Return {A} a.
Arguments Throw {A} e.
Arguments Await {A} c k.

Fixpoint bind {A B : Type} (p : Async A) (f : A -> Async B) : Async B :=
  match p with
  | Return a => f a
  | Throw e => Throw e
  | Await c k => Await c (fun r => bind (k r) f)
  end.

(** [try { p } catch (error) { h error }] *)
Fixpoint try_catch {A : Type} (p : Async A) (h : exception -> Async A) : Async A :=
  match p with
  | Return a => Return a
  | Throw e => h e
  | Await c k => Await c (fun r => try_catch (k r) h)
  end.

(** [await transport.send(...)] *)
Definition send (c : APDU) : Async Buffer.t :=
  Await c (fun r => match r with Ok response => Return response | Thrown e => Throw e end).

(** A synchronous call inside an [async] function. *)
Definition lift {A : Type} (o : outcome A) : Async A :=
  match o with
  | Ok a => Return a
  | Thrown e => Throw e
  end.

Declare Scope async_scope.
Delimit Scope async_scope with async.
Notation "'let*' x ':=' c 'in' k" := (bind c (fun x => k))
  (at level 10, x name, c at level 100, k at level 200) : async_scope.

(** Running an [async] function against the answers of the transport, in the
    order they arrive: the commands that were sent, and the outcome, [None]
    when the function is still waiting for an answer. *)
Fixpoint run {A : Type} (p : Async A) (answers : list (outcome Buffer.t))
  : list APDU * option (outcome A) :=
  match p with
  | Return a => ([], Some (Ok a))
  | Throw e => ([], Some (Thrown e))
  | Await c k =>
      match answers with
      | [] => ([c], None)
      | r :: answers' =>
          let '(sent, o) := run (k r) answers' in (c :: sent, o)
      end
  end.

(** The first command an [async] function sends, if it sends any. *)
Definition first_command {A : Type} (p : Async A) : option APDU :=
  match p with
  | Await c _ => Some c
  | _ => None
  end.

(** ** src/types.ts *)

Record BaseResponse : Type := {
  returnCode : number;
  errorMessage : string
}.

Record VersionResponse : Type := {
  VersionResponse_base :> BaseResponse;
  testMode : bool;
  major : option Z;
  minor : option Z;
  patch : option Z;
  deviceLocked : bool;
  targetId : string
}.

Record SignResponse : Type := {
  SignResponse_base :> BaseResponse;
  signature : option Buffer.t
}.

Record AppInfoResponse : Type := {
  AppInfoResponse_base :> BaseResponse;
  appName : string;
  appVersion : string;
  flagLen : option Z;
  flagsValue : option Z;
  flagRecovery : bool;
  flagSignedMcuCode : bool;
  flagOnboarded : bool;
  flagPINValidated : bool
}.

(** ** Shared fragments *)

(** [path[i]] on a [number[]]; the serializers read it only after the length
    check, so the element is there. *)
Definition path_get (path : list Z) (i : nat) : Z := default 0 (path !! i).

(** [errorCodeData[0] * 256 + errorCodeData[1]] with
    [errorCodeData = response.slice(-2)]. *)
Definition returnCode_of (response : Buffer.t) : number :=
  let errorCodeData := Buffer.slice_from response (Num (-2)) in
  number_add (number_mul (to_number (Buffer.get errorCodeData 0)) (Num 256))
             (to_number (Buffer.get errorCodeData 1)).

(** The three assignments that open [signSendChunkv2] and [signSendChunk]. *)
Definition payloadType_of (chunkIdx chunkNum : Z) : PAYLOAD_TYPE :=
  let payloadType := ADD in
  let payloadType := if chunkIdx =? 1 then INIT else payloadType in
  let payloadType := if chunkIdx =? chunkNum then LAST else payloadType in
  payloadType.

(** [x === z] for an array element [x] and an integer constant [z]. *)
Definition element_eqb (o : option byte) (z : Z) : bool :=
  match o with
  | Some b => byte_to_Z b =? z
  | None => false
  end.

(** An operand of [<<]: ToInt32 turns a missing element into 0. *)
Definition int_of_element (o : option byte) : Z :=
  match o with
  | Some b => byte_to_Z b
  | None => 0
  end.

(** ** src/helper.ts *)

Module helper.

Import Buffer BufferText.
Local Open Scope outcome_scope.
Local Open Scope async_scope.

Definition serializeHRP `{Env} (hrp : option string) : outcome Buffer.t :=
  match hrp with
  | None => Thrown (LedgerError (Num (LedgerErrorType_value HPRInvalid)) None)
  | Some hrp =>
      let len := Z.of_nat (String.length hrp) in
      (* !hrp || hrp.length < 3 || hrp.length > 83 *)
      if String.eqb hrp "" || (len <? 3) || (83 <? len)
      then Thrown (LedgerError (Num (LedgerErrorType_value HPRInvalid)) None)
      else
        let buf := Buffer.alloc (1 + len) in
        let! buf := writeUInt8 buf len 0 in
        let! buf := write buf hrp 1 in
        Ok buf
  end.

Definition serializePath (path : list Z) : outcome Buffer.t :=
  if negb (Z.of_nat (List.length path) =? 5) then Thrown (Error "Invalid path.")
  else
    let buf := Buffer.alloc 20 in
    let! buf := writeUInt32LE buf (0x80000000 + path_get path 0) 0 in
    let! buf := writeUInt32LE buf (0x80000000 + path_get path 1) 4 in
    let! buf := writeUInt32LE buf (0x80000000 + path_get path 2) 8 in
    let! buf := writeUInt32LE buf (path_get path 3) 12 in
    let! buf := writeUInt32LE buf (path_get path 4) 16 in
    Ok buf.

Definition signSendChunk `{Env} (chunkIdx chunkNum : Z) (chunk : Buffer.t)
  : Async SignResponse :=
  let payloadType := payloadType_of chunkIdx chunkNum in
  let* response :=
    send {| cla := CLA; ins := INS_value SIGN_SECP256K1;
            p1 := PAYLOAD_TYPE_value payloadType; p2 := 0;
            data := Some chunk;
            statusList := Some [LedgerErrorType_value NoErrors;
                                LedgerErrorType_value DataIsInvalid;
                                LedgerErrorType_value BadKeyHandle;
                                LedgerErrorType_value SignVerifyError] |} in
  let returnCode := returnCode_of response in
  let errorMessage := errorCodeToString returnCode in
  if number_eqb returnCode (LedgerErrorType_value BadKeyHandle)
     || number_eqb returnCode (LedgerErrorType_value DataIsInvalid)
     || number_eqb returnCode (LedgerErrorType_value SignVerifyError)
  then
    let errorMessage :=
      (errorMessage ++ " : "
       ++ toString_ascii (slice response (Num 0) (Num (length response - 2))))%string in
    Throw (LedgerError returnCode (Some errorMessage))
  else if number_eqb returnCode (LedgerErrorType_value NoErrors) && (2 <? length response)
  then
    Return {| SignResponse_base := {| returnCode := returnCode; errorMessage := errorMessage |};
              signature := Some (slice response (Num 0) (Num (length response - 2))) |}
  else
    Return {| SignResponse_base := {| returnCode := returnCode; errorMessage := errorMessage |};
              signature := None |}.

Definition getVersion `{Env} : Async VersionResponse :=
  try_catch
    (let* response :=
       send {| cla := CLA; ins := INS_value GET_VERSION; p1 := 0; p2 := 0;
               data := None; statusList := None |} in
     let returnCode := returnCode_of response in
     let targetId := 0 in
     let targetId :=
       if 9 <=? length response
       then shl (int_of_element (get response 5)) 24
            + shl (int_of_element (get response 6)) 16
            + shl (int_of_element (get response 7)) 8
            + shl (int_of_element (get response 8)) 0
       else targetId in
     Return {| VersionResponse_base :=
                 {| returnCode := returnCode; errorMessage := errorCodeToString returnCode |};
               testMode := negb (element_eqb (get response 0) 0);
               major := byte_to_Z <$> get response 1;
               minor := byte_to_Z <$> get response 2;
               patch := byte_to_Z <$> get response 3;
               deviceLocked := element_eqb (get response 4) 1;
               targetId := Number_toString16 targetId |})
    (fun error => Throw (ledgerErrorFromResponse error)).

(** The object [getPublicKey] returns. *)
Record PubKeyResponse : Type := {
  compressedPk : Buffer.t;
  PubKeyResponse_base :> BaseResponse
}.

Definition getPublicKey `{Env} (data : Buffer.t) : Async PubKeyResponse :=
  try_catch
    (let* response :=
       send {| cla := CLA; ins := INS_value GET_ADDR_SECP256K1; p1 := 0; p2 := 0;
               data := Some data;
               statusList := Some [LedgerErrorType_value NoErrors] |} in
     let returnCode := returnCode_of response in
     let compressedPk := slice response (Num 0) (Num 33) in
     Return {| compressedPk := compressedPk;
               PubKeyResponse_base :=
                 {| returnCode := returnCode;
                    errorMessage := errorCodeToString returnCode |} |})
    (fun error => Throw (ledgerErrorFromResponse error)).

End helper.

(** ** The [./helper] that src/index.ts imports (last part of the file) *)

Module helper_v2.

Import Buffer BufferText.
Local Open Scope outcome_scope.
Local Open Scope async_scope.

Record PublicKeyResponse : Type := {
  pk : string;
  compressed_pk : Buffer.t;
  return_code : number;
  error_message : string
}.

Definition serializePathv2 (path : list Z) : outcome Buffer.t :=
  if negb (Z.of_nat (List.length path) =? 5) then Thrown (Error "Invalid path.")
  else
    let buf := Buffer.alloc 20 in
    let! buf := writeUInt32LE buf (0x80000000 + path_get path 0) 0 in
    let! buf := writeUInt32LE buf (0x80000000 + path_get path 1) 4 in
    let! buf := writeUInt32LE buf (0x80000000 + path_get path 2) 8 in
    let! buf := writeUInt32LE buf (path_get path 3) 12 in
    let! buf := writeUInt32LE buf (path_get path 4) 16 in
    Ok buf.

Definition signSendChunkv1 `{Env} (chunkIdx chunkNum : Z) (chunk : Buffer.t)
  : Async SignResponse :=
  try_catch
    (let* response :=
       send {| cla := CLA; ins := INS_value SIGN_SECP256K1;
               p1 := chunkIdx; p2 := chunkNum;
               data := Some chunk;
               statusList := Some [LedgerErrorType_value NoErrors;
                                   LedgerErrorType_value DataIsInvalid;
                                   LedgerErrorType_value BadKeyHandle] |} in
     let returnCode := returnCode_of response in
     let errorMessage := errorCodeToString returnCode in
     let errorMessage :=
       if number_eqb returnCode (LedgerErrorType_value BadKeyHandle)
          || number_eqb returnCode (LedgerErrorType_value DataIsInvalid)
       then (errorMessage ++ " : "
             ++ toString_ascii (slice response (Num 0) (Num (length response - 2))))%string
       else errorMessage in
     if 2 <? length response
     then
       Return {| SignResponse_base :=
                   {| returnCode := returnCode; errorMessage := errorMessage |};
                 signature := Some (slice response (Num 0) (Num (length response - 2))) |}
     else Throw (LedgerError returnCode (Some errorMessage)))
    (fun error => Throw (ledgerErrorFromResponse error)).

Definition signSendChunkv2 `{Env} (chunkIdx chunkNum : Z) (chunk : Buffer.t)
  : Async SignResponse :=
  let payloadType := payloadType_of chunkIdx chunkNum in
  signSendChunkv1 (PAYLOAD_TYPE_value payloadType) 0 chunk.

Definition publicKeyv2 `{Env} (data : Buffer.t) : Async PublicKeyResponse :=
  try_catch
    (let* response :=
       send {| cla := CLA; ins := INS_value GET_ADDR_SECP256K1; p1 := 0; p2 := 0;
               data := Some data;
               statusList := Some [LedgerErrorType_value NoErrors] |} in
     let returnCode := returnCode_of response in
     let compressedPk := slice response (Num 0) (Num 33) in
     Return {| pk := "OBSOLETE PROPERTY";
               compressed_pk := compressedPk;
               return_code := returnCode;
               error_message := errorCodeToString returnCode |})
    (fun error => Throw (ledgerErrorFromResponse error)).

End helper_v2.

(** ** src/index.ts: class THORChainApp

    [index.ts] imports [getVersion] from [./common], which is not among the
    sources; the function of that name in [src/helper.ts] stands for it. *)

Module THORChainApp.

Import Buffer BufferText helper_v2.
Local Open Scope outcome_scope.
Local Open Scope async_scope.

(** The object [getAddressAndPubKey] and [showAddressAndPubKey] return. *)
Record AddressResponse : Type := {
  bech32_address : string;
  compressed_pk : Buffer.t;
  AddressResponse_base :> BaseResponse
}.

(** The fields [deviceInfo] adds when the command is available. *)
Record DeviceFields : Type := {
  targetId : string;
  seVersion : string;
  flag : string;
  mcuVersion : string
}.

(** The object [deviceInfo] returns. *)
Record DeviceInfoResponse : Type := {
  return_code : number;
  error_message : string;
  device : option DeviceFields
}.

Definition serializeHRP `{Env} (hrp : option string) : outcome Buffer.t :=
  match hrp with
  | None => Thrown (LedgerError (Num (LedgerErrorType_value HPRInvalid)) None)
  | Some hrp =>
      let len := Z.of_nat (String.length hrp) in
      (* hrp == null || hrp.length < 3 || hrp.length > 83 *)
      if (len <? 3) || (83 <? len)
      then Thrown (LedgerError (Num (LedgerErrorType_value HPRInvalid)) None)
      else
        let buf := Buffer.alloc (1 + len) in
        let! buf := writeUInt8 buf len 0 in
        let! buf := write buf hrp 1 in
        Ok buf
  end.

Definition getVersion `{Env} : Async VersionResponse := helper.getVersion.

Definition serializePath `{Env} (path : list Z) : Async Buffer.t :=
  let* version := getVersion in
  if negb (number_eqb (returnCode version) (LedgerErrorType_value NoErrors))
  then Throw (LedgerError (returnCode version) (Some (errorMessage version)))
  else
    match major version with
    | Some 2 => lift (serializePathv2 path)
    | _ => Throw (LedgerError (Num (LedgerErrorType_value ExecutionError))
                    (Some "App Version is not supported"))
    end.

(** The [for] loop of [signGetChunks]; [i] advances by [CHUNK_SIZE] until it
    reaches the length of the buffer. *)
Equations signGetChunks_loop (buffer : Buffer.t) (i : Z) (chunks : list Buffer.t)
  : list Buffer.t by wf (Z.to_nat (Buffer.length buffer - i)) lt :=
  signGetChunks_loop buffer i chunks with Z_lt_dec i (Buffer.length buffer) := {
    | left _ =>
        signGetChunks_loop buffer (i + CHUNK_SIZE)
          (chunks ++
           [let end_ := i + CHUNK_SIZE in
            let end_ := if Buffer.length buffer <? i then Buffer.length buffer else end_ in
            slice buffer (Num i) (Num end_)])
    | right _ => chunks }.
Next Obligation. unfold CHUNK_SIZE. lia. Qed.

Definition signGetChunks `{Env} (path : list Z) (message : Buffer.t)
  : Async (list Buffer.t) :=
  let* serializedPath := serializePath path in
  let chunks := [] in
  let chunks := chunks ++ [serializedPath] in
  let buffer := message in
  Return (signGetChunks_loop buffer 0 chunks).

Definition getAppInfo `{Env} : Async AppInfoResponse :=
  try_catch
    (let* response :=
       send {| cla := 0xb0; ins := 0x01; p1 := 0; p2 := 0;
               data := None; statusList := None |} in
     let returnCode := returnCode_of response in
     let appName := "err" in
     let appVersion := "err" in
     let flagLen : option byte := Some x00 in
     let flagsValue : option byte := Some x00 in
     let* parsed :=
       if negb (element_eqb (get response 0) 1)
       then Throw (LedgerError (Num (LedgerErrorType_value DeviceIsBusy))
                     (Some "response format ID not recognized"))
       else
         let appNameLen := to_number (get response 1) in
         let appName :=
           toString_ascii (slice response (Num 2) (number_add (Num 2) appNameLen)) in
         let idx := number_add (Num 2) appNameLen in
         let appVersionLen := to_number (get_number response idx) in
         let idx := number_add idx (Num 1) in
         let appVersion :=
           toString_ascii (slice response idx (number_add idx appVersionLen)) in
         let idx := number_add idx appVersionLen in
         let appFlagsLen := get_number response idx in
         let idx := number_add idx (Num 1) in
         let flagLen := appFlagsLen in
         let flagsValue := get_number response idx in
         Return (appName, appVersion, flagLen, flagsValue) in
     let '(appName, appVersion, flagLen, flagsValue) := parsed in
     Return {| AppInfoResponse_base :=
                 {| returnCode := returnCode; errorMessage := errorCodeToString returnCode |};
               appName := appName;
               appVersion := appVersion;
               flagLen := byte_to_Z <$> flagLen;
               flagsValue := byte_to_Z <$> flagsValue;
               flagRecovery := negb (band (int_of_element flagsValue) 1 =? 0);
               flagSignedMcuCode := negb (band (int_of_element flagsValue) 2 =? 0);
               flagOnboarded := negb (band (int_of_element flagsValue) 4 =? 0);
               flagPINValidated := negb (band (int_of_element flagsValue) 128 =? 0) |})
    (fun error => Throw (ledgerErrorFromResponse error)).

Definition deviceInfo `{Env} : Async DeviceInfoResponse :=
  try_catch
    (let* response :=
       send {| cla := 0xe0; ins := 0x01; p1 := 0; p2 := 0;
               data := Some [];
               statusList := Some [LedgerErrorType_value NoErrors;
                                   LedgerErrorType_value AppDoesNotSeemToBeOpen] |} in
     let returnCode := returnCode_of response in
     if number_eqb returnCode 0x6e00
     then
       Return {| return_code := returnCode;
                 error_message := "This command is only available in the Dashboard";
                 device := None |}
     else
       let targetId := toString_hex (slice response (Num 0) (Num 4)) in
       let pos := Num 4 in
       let secureElementVersionLen := to_number (get_number response pos) in
       let pos := number_add pos (Num 1) in
       let seVersion :=
         toString_utf8 (slice response pos (number_add pos secureElementVersionLen)) in
       let pos := number_add pos secureElementVersionLen in
       let flagsLen := to_number (get_number response pos) in
       let pos := number_add pos (Num 1) in
       let flag := toString_hex (slice response pos (number_add pos flagsLen)) in
       let pos := number_add pos flagsLen in
       let mcuVersionLen := to_number (get_number response pos) in
       let pos := number_add pos (Num 1) in
       let tmp := slice response pos (number_add pos mcuVersionLen) in
       let tmp :=
         if element_eqb (get_number tmp (number_add mcuVersionLen (Num (-1)))) 0
         then slice response pos (number_add (number_add pos mcuVersionLen) (Num (-1)))
         else tmp in
       let mcuVersion := toString_utf8 tmp in
       Return {| return_code := returnCode;
                 error_message := errorCodeToString returnCode;
                 device := Some {| targetId := targetId; seVersion := seVersion;
                                   flag := flag; mcuVersion := mcuVersion |} |})
    (fun error => Throw (ledgerErrorFromResponse error)).

(** [return publicKeyv2(...)] hands the pending call out of the [try] block:
    what [publicKeyv2] throws is not caught here. *)
Definition publicKey `{Env} (path : list Z) : Async PublicKeyResponse :=
  let* pending :=
    try_catch
      (let* serializedPath := serializePath path in
       let* version := getVersion in
       match major version with
       | Some 2 =>
           let* hrp := lift (serializeHRP (Some "thor")) in
           let data := Buffer.concat [hrp; serializedPath] in
           Return (publicKeyv2 data)
       | _ => Throw (LedgerError (Num (LedgerErrorType_value ExecutionError))
                       (Some "App Version is not supported"))
       end)
      (fun e => Throw (ledgerErrorFromResponse e)) in
  pending.

Definition getAddressAndPubKey `{Env} (path : list Z) (hrp : option string)
  : Async AddressResponse :=
  let* serializedPath := serializePath path in
  let* serializedHRP := lift (serializeHRP hrp) in
  let data := Buffer.concat [serializedHRP; serializedPath] in
  let* response :=
    send {| cla := CLA; ins := INS_value GET_ADDR_SECP256K1;
            p1 := P1_VALUES_value ONLY_RETRIEVE; p2 := 0;
            data := Some data;
            statusList := Some [LedgerErrorType_value NoErrors] |} in
  let returnCode := returnCode_of response in
  let compressedPk := slice response (Num 0) (Num 33) in
  let bech32Address := toString_utf8 (slice response (Num 33) (Num (-2))) in
  Return {| bech32_address := bech32Address;
            compressed_pk := compressedPk;
            AddressResponse_base :=
              {| returnCode := returnCode; errorMessage := errorCodeToString returnCode |} |}.

Definition showAddressAndPubKey `{Env} (path : list Z) (hrp : option string)
  : Async AddressResponse :=
  let* serializedPath := serializePath path in
  let* serializedHRP := lift (serializeHRP hrp) in
  let data := Buffer.concat [serializedHRP; serializedPath] in
  let* response :=
    send {| cla := CLA; ins := INS_value GET_ADDR_SECP256K1;
            p1 := P1_VALUES_value SHOW_ADDRESS_IN_DEVICE; p2 := 0;
            data := Some data;
            statusList := Some [LedgerErrorType_value NoErrors] |} in
  let returnCode := returnCode_of response in
  let compressedPk := slice response (Num 0) (Num 33) in
  let bech32Address := toString_utf8 (slice response (Num 33) (Num (-2))) in
  Return {| bech32_address := bech32Address;
            compressed_pk := compressedPk;
            AddressResponse_base :=
              {| returnCode := returnCode; errorMessage := errorCodeToString returnCode |} |}.

Definition signSendChunk `{Env} (chunkIdx chunkNum : Z) (chunk : Buffer.t)
  : Async SignResponse :=
  let* version := getVersion in
  match major version with
  | Some 2 => signSendChunkv2 chunkIdx chunkNum chunk
  | _ => Throw (LedgerError (Num (LedgerErrorType_value ExecutionError))
                  (Some "App Version is not supported"))
  end.

(** The [for] loop of [sign]: [rest] holds [chunks[i]], [chunks[i+1]], ...
    up to the last chunk. *)
Fixpoint sign_loop `{Env} (chunkNum i : Z) (rest : list Buffer.t) (result : SignResponse)
  : Async SignResponse :=
  match rest with
  | [] => Return result
  | chunk :: rest' =>
      let* result := signSendChunk (1 + i) chunkNum chunk in
      if negb (number_eqb (returnCode result) (LedgerErrorType_value NoErrors))
      then Return result
      else sign_loop chunkNum (i + 1) rest' result
  end.

Definition sign `{Env} (path : list Z) (message : Buffer.t) : Async SignResponse :=
  let* chunks := signGetChunks path message in
  let* response :=
    signSendChunk 1 (Z.of_nat (List.length chunks)) (default [] (chunks !! 0%nat)) in
  let result :=
    {| SignResponse_base :=
         {| returnCode := returnCode response; errorMessage := errorMessage response |};
       signature := None |} in
  let* result := sign_loop (Z.of_nat (List.length chunks)) 1 (drop 1 chunks) result in
  Return {| SignResponse_base :=
              {| returnCode := returnCode result; errorMessage := errorMessage result |};
            signature := signature result |}.

End THORChainApp.

(** ** A reference environment

    An environment to run the driver on concrete inputs. [NoErrors] is
    0x9000, as the specification says; the other status words are Ledger's,
    the remaining numbers are samples. The text decoder is the ASCII one,
    enough for the inputs used here. No universally quantified statement
    below depends on these values. *)

Definition reference_LedgerErrorType_value (e : LedgerErrorType) : Z :=
  match e with
  | NoErrors => 0x9000
  | DataIsInvalid => 0x6984
  | BadKeyHandle => 0x6a80
  | SignVerifyError => 0x6f01
  | AppDoesNotSeemToBeOpen => 0x6e00
  | HPRInvalid => 6
  | PKInvalidBytes => 7
  | ExecutionError => 0x6400
  | DeviceIsBusy => 0x9001
  end.

Definition reference_errorCodeToString (code : number) : string :=
  match code with
  | Num 0x9000 => "No errors"
  | Num 0x6984 => "Data is invalid"
  | Num 0x6a80 => "Bad key handle"
  | Num 0x6f01 => "Sign/verify error"
  | Num 0x6e00 => "App does not seem to be open"
  | _ => "Unknown error code"
  end.

Definition reference_ledgerErrorFromResponse (e : exception) : exception :=
  match e with
  | TransportStatusError sw => LedgerError (Num sw) (Some (reference_errorCodeToString (Num sw)))
  | TransportError m => LedgerError (Num 0x6f00) (Some m)
  | e => e
  end.

Definition reference_env : Env := {|
  CLA := 0x55;
  INS_value := fun i =>
    match i with GET_VERSION => 0 | SIGN_SECP256K1 => 2 | GET_ADDR_SECP256K1 => 4 end;
  PAYLOAD_TYPE_value := fun t => match t with INIT => 0 | ADD => 1 | LAST => 2 end;
  P1_VALUES_value := fun v => match v with ONLY_RETRIEVE => 0 | SHOW_ADDRESS_IN_DEVICE => 1 end;
  LedgerErrorType_value := reference_LedgerErrorType_value;
  errorCodeToString := reference_errorCodeToString;
  ledgerErrorFromResponse := reference_ledgerErrorFromResponse;
  toString_utf8 := BufferText.toString_ascii
|}.

(** ** Notions used in the statements *)

(** The value of four bytes read as a big-endian 32-bit word. *)
Definition be32 (b0 b1 b2 b3 : byte) : Z :=
  byte_to_Z b0 * 16777216 + byte_to_Z b1 * 65536 + byte_to_Z b2 * 256 + byte_to_Z b3.

(** ceil(a / b) *)
Definition ceil_div (a b : Z) : Z := (a + b - 1) / b.

(** The bytes of a string of 7-bit characters. *)
Definition bytes_of_string (s : string) : list byte :=
  List.map (fun c => Z_to_byte (ascii_to_Z c)) (list_ascii_of_string s).

Definition is_ascii (s : string) : Prop :=
  Forall (fun c => ascii_to_Z c < 128) (list_ascii_of_string s).

(** Two commands that differ at most in their P1 byte. *)
Definition same_but_p1 (a b : APDU) : Prop :=
  cla a = cla b /\ ins a = ins b /\ p2 a = p2 b /\ data a = data b
  /\ statusList a = statusList b.

(** The command [getVersion] sends. *)
Definition GET_VERSION_command `{Env} : APDU :=
  {| cla := CLA; ins := INS_value GET_VERSION; p1 := 0; p2 := 0;
     data := None; statusList := None |}.

(** The command [deviceInfo] sends. *)
Definition deviceInfo_command `{Env} : APDU :=
  {| cla := 0xe0; ins := 0x01; p1 := 0; p2 := 0; data := Some [];
     statusList := Some [LedgerErrorType_value NoErrors;
                         LedgerErrorType_value AppDoesNotSeemToBeOpen] |}.

(** A field without its last byte when that byte is 0. *)
Definition trim_trailing_zero (field : Buffer.t) : Buffer.t :=
  if element_eqb (last field) 0 then take (List.length field - 1) field else field.

(** The command the chunk sender of [src/index.ts] sends for chunk [chunkIdx]
    of [chunkNum]. *)
Definition sign_command `{Env} (chunkIdx chunkNum : Z) (chunk : Buffer.t) : APDU :=
  {| cla := CLA; ins := INS_value SIGN_SECP256K1;
     p1 := PAYLOAD_TYPE_value (payloadType_of chunkIdx chunkNum); p2 := 0;
     data := Some chunk;
     statusList := Some [LedgerErrorType_value NoErrors;
                         LedgerErrorType_value DataIsInvalid;
                         LedgerErrorType_value BadKeyHandle] |}.

(** The commands of a sign operation that runs to its end over the chunks
    [rest], the first of which has index [1 + i]: the version is read again
    before every chunk. *)
Fixpoint sign_schedule `{Env} (chunkNum i : Z) (rest : list Buffer.t) : list APDU :=
  match rest with
  | [] => []
  | chunk :: rest' =>
      GET_VERSION_command :: sign_command (1 + i) chunkNum chunk
        :: sign_schedule chunkNum (i + 1) rest'
  end.

(** The contract of the transport: a response comes back from [send] only
    when its status word is in the status list of the command ([NoErrors] alone
    when the command gives no list). *)
Definition transport_accepts `{Env} (c : APDU) (r : outcome Buffer.t) : bool :=
  match r with
  | Thrown _ => true
  | Ok response =>
      existsb (number_eqb (returnCode_of response))
              (default [LedgerErrorType_value NoErrors] (statusList c))
  end.

(** Every answer of a run respects the contract for the command it answers. *)
Definition run_accepted `{Env} (sent : list APDU) (answers : list (outcome Buffer.t)) : bool :=
  forallb (fun ca => transport_accepts (fst ca) (snd ca)) (zip sent answers).

(** The error every dispatch site throws for a major version other than 2. *)
Definition unsupported_version `{Env} : exception :=
  LedgerError (Num (LedgerErrorType_value ExecutionError)) (Some "App Version is not supported").

(** The bytes of a response before its two status bytes:
    [response.slice(0, response.length - 2)]. *)
Definition payload_of (response : Buffer.t) : Buffer.t :=
  Buffer.slice response (Num 0) (Num (Buffer.length response - 2)).

(** The command [getAppInfo] sends. *)
Definition getAppInfo_command : APDU :=
  {| cla := 0xb0; ins := 0x01; p1 := 0; p2 := 0; data := None; statusList := None |}.

(** The query [publicKeyv2] and [getPublicKey] send. *)
Definition publicKey_command `{Env} (data : Buffer.t) : APDU :=
  {| cla := CLA; ins := INS_value GET_ADDR_SECP256K1; p1 := 0; p2 := 0;
     data := Some data; statusList := Some [LedgerErrorType_value NoErrors] |}.

(** The query [getAddressAndPubKey] and [showAddressAndPubKey] send. *)
Definition address_command `{Env} (p : P1_VALUES) (data : Buffer.t) : APDU :=
  {| cla := CLA; ins := INS_value GET_ADDR_SECP256K1; p1 := P1_VALUES_value p; p2 := 0;
     data := Some data; statusList := Some [LedgerErrorType_value NoErrors] |}.

(** The answers of a device to a sign operation: every version query is
    answered with [version], the chunks, in order, with [responses]. *)
Definition sign_answers (version : Buffer.t) (responses : list Buffer.t)
  : list (outcome Buffer.t) :=
  flat_map (fun r => [Ok version; Ok r]) responses.

(** Answers after which [sign] goes on with the next chunk: each carries a
    payload before its status bytes, and each but the first has status
    NoErrors (the first answers the path chunk, whose status [sign] does not
    test). *)
Definition keeps_going `{Env} (responses : list Buffer.t) : Prop :=
  Forall (fun r => 2 < Buffer.length r) responses
  /\ Forall (fun r => returnCode_of r = Num (LedgerErrorType_value NoErrors))
            (drop 1 responses).

(** The integer entries of a five-element path that every [writeUInt32LE] of
    [serializePath] takes: 0x80000000 + path[i] is a 32-bit word for the first
    three entries, path[i] itself for the last two. *)
Definition path_accepted (p0 p1 p2 p3 p4 : Z) : Prop :=
  -2147483648 <= p0 < 2147483648 /\ -2147483648 <= p1 < 2147483648
  /\ -2147483648 <= p2 < 2147483648
  /\ 0 <= p3 <= 4294967295 /\ 0 <= p4 <= 4294967295.

(** * Properties *)

(** Side conditions about the place of a field in a response that is
    written as a concatenation. *)
Ltac layout response :=
  subst response; rewrite ?length_app; cbn [List.length];
  first [lia | now rewrite <- ?app_assoc].

(** ** Bytes and buffers *)

Lemma byte_to_Z_range (b : byte) : 0 <= byte_to_Z b < 256.
Proof.
  unfold byte_to_Z. pose proof (Byte.to_N_bounded b). lia.
Qed.

Lemma byte_to_Z_to_byte (z : Z) : byte_to_Z (Z_to_byte z) = z mod 256.
Proof.
  unfold byte_to_Z, Z_to_byte.
  assert (Hr : 0 <= z mod 256 < 256) by (apply Z.mod_pos_bound; lia).
  destruct (Byte.of_N (Z.to_N (z mod 256))) as [b|] eqn:E.
  - simpl. apply Byte.to_of_N in E. rewrite E. lia.
  - apply Byte.of_N_None_iff in E. lia.
Qed.

Lemma Z_to_byte_to_Z (b : byte) : Z_to_byte (byte_to_Z b) = b.
Proof.
  unfold Z_to_byte, byte_to_Z.
  pose proof (Byte.to_N_bounded b) as Hb.
  rewrite Z.mod_small by lia.
  rewrite N2Z.id, Byte.of_to_N. reflexivity.
Qed.

Lemma byte_to_Z_inj (a b : byte) : byte_to_Z a = byte_to_Z b -> a = b.
Proof.
  intros E. rewrite <- (Z_to_byte_to_Z a), <- (Z_to_byte_to_Z b). now rewrite E.
Qed.

Lemma Buffer_length_nonneg (buf : Buffer.t) : 0 <= Buffer.length buf.
Proof. unfold Buffer.length. lia. Qed.

Lemma Buffer_length_app (a b : Buffer.t) :
  Buffer.length (a ++ b) = Buffer.length a + Buffer.length b.
Proof. unfold Buffer.length. rewrite length_app. lia. Qed.

Lemma Buffer_get_lookup (buf : Buffer.t) (i : nat) :
  Buffer.get buf (Z.of_nat i) = buf !! i.
Proof.
  unfold Buffer.get. destruct (Z.ltb_spec (Z.of_nat i) 0); [lia|].
  now rewrite Nat2Z.id.
Qed.

(** A slice between two in-range offsets is the plain sub-list. *)
Lemma Buffer_slice_range (buf : Buffer.t) (s e : Z) :
  0 <= s <= e -> e <= Buffer.length buf ->
  Buffer.slice buf (Num s) (Num e) = take (Z.to_nat (e - s)) (drop (Z.to_nat s) buf).
Proof.
  intros Hs He. unfold Buffer.slice, Buffer.adjustOffset.
  destruct (Z.ltb_spec s 0); [lia|].
  destruct (Z.ltb_spec e 0); [lia|].
  destruct (Z.ltb_spec s (Buffer.length buf)), (Z.ltb_spec e (Buffer.length buf));
    try reflexivity; try lia;
    repeat (f_equal; try lia).
Qed.

(** A slice that starts in range and ends past the buffer is the rest of the
    buffer. *)
Lemma Buffer_slice_clamped (buf : Buffer.t) (s e : Z) :
  0 <= s <= Buffer.length buf -> Buffer.length buf <= e ->
  Buffer.slice buf (Num s) (Num e) = drop (Z.to_nat s) buf.
Proof.
  intros Hs He. unfold Buffer.slice, Buffer.adjustOffset.
  destruct (Z.ltb_spec s 0); [lia|].
  destruct (Z.ltb_spec e 0); [lia|].
  destruct (Z.ltb_spec e (Buffer.length buf)); [lia|].
  unfold Buffer.length in *.
  destruct (Z.ltb_spec s (Z.of_nat (List.length buf))).
  - apply take_ge. rewrite length_drop. lia.
  - replace s with (Z.of_nat (List.length buf)) by lia.
    apply take_ge. rewrite length_drop. lia.
Qed.

(** ** Chunk markers *)

Lemma payloadType_of_spec (chunkIdx chunkNum : Z) :
  payloadType_of chunkIdx chunkNum =
  if chunkIdx =? chunkNum then LAST else if chunkIdx =? 1 then INIT else ADD.
Proof.
  unfold payloadType_of.
  destruct (chunkIdx =? chunkNum), (chunkIdx =? 1); reflexivity.
Qed.

(** C1, as stated, fails: a set with a single chunk (index 1 of 1) is sent as
    LAST, not INIT, because the LAST assignment comes after the INIT one. *)
Lemma single_chunk_is_sent_as_LAST :
  payloadType_of 1 1 = LAST
  /\ payloadType_of 1 1 <> INIT
  /\ p1 <$> first_command (helper_v2.signSendChunkv2 (H := reference_env) 1 1 [x41])
     = Some (PAYLOAD_TYPE_value (Env := reference_env) LAST)
  /\ p1 <$> first_command (helper.signSendChunk (H := reference_env) 1 1 [x41])
     = Some (PAYLOAD_TYPE_value (Env := reference_env) LAST).
Proof.
  repeat split; try reflexivity. discriminate.
Qed.

(** C1 (amended): the marker both chunk senders put in P1 is LAST when
    index = totalCount (so also for a single chunk, index 1 of 1), INIT when
    index = 1 and index <> totalCount, and ADD otherwise. *)
Theorem chunk_marker_selection `{Env} (chunkIdx chunkNum : Z) (chunk : Buffer.t) :
  let marker := payloadType_of chunkIdx chunkNum in
  p1 <$> first_command (helper_v2.signSendChunkv2 chunkIdx chunkNum chunk)
    = Some (PAYLOAD_TYPE_value marker)
  /\ p1 <$> first_command (helper.signSendChunk chunkIdx chunkNum chunk)
    = Some (PAYLOAD_TYPE_value marker)
  /\ (chunkIdx = chunkNum -> marker = LAST)
  /\ (chunkIdx <> chunkNum -> chunkIdx = 1 -> marker = INIT)
  /\ (chunkIdx <> chunkNum -> chunkIdx <> 1 -> marker = ADD).
Proof.
  intros marker. subst marker. rewrite payloadType_of_spec.
  split; [reflexivity|]. split; [reflexivity|].
  destruct (Z.eqb_spec chunkIdx chunkNum), (Z.eqb_spec chunkIdx 1);
    repeat split; intros; congruence.
Qed.

Lemma chunk_marker_selection_witness :
  payloadType_of 5 5 = LAST /\ payloadType_of 1 5 = INIT /\ payloadType_of 3 5 = ADD.
Proof.
  pose proof (chunk_marker_selection (H := reference_env) 5 5 []) as (_ & _ & H5 & _).
  pose proof (chunk_marker_selection (H := reference_env) 1 5 []) as (_ & _ & _ & H1 & _).
  pose proof (chunk_marker_selection (H := reference_env) 3 5 []) as (_ & _ & _ & _ & H3).
  split; [apply H5; reflexivity|].
  split; [apply H1; [discriminate | reflexivity]|].
  apply H3; discriminate.
Defined.

(** ** Path serialization *)

Lemma serializePath_same (path : list Z) :
  helper.serializePath path = helper_v2.serializePathv2 path.
Proof. reflexivity. Qed.

Lemma writeUInt32LE_in_range (buf : Buffer.t) (value offset : Z) :
  0 <= value <= 4294967295 -> 0 <= offset -> offset + 4 <= Buffer.length buf ->
  Buffer.writeUInt32LE buf value offset
  = Ok (list_inserts (Z.to_nat offset) (Buffer.bytes_LE32 value) buf).
Proof.
  intros Hv Ho Hl. unfold Buffer.writeUInt32LE.
  destruct (Z.ltb_spec value 0); [lia|].
  destruct (Z.ltb_spec 4294967295 value); [lia|].
  destruct (Z.ltb_spec offset 0); [lia|].
  destruct (Z.ltb_spec (Buffer.length buf) (offset + 4)); [lia|].
  reflexivity.
Qed.

Lemma writeUInt32LE_out_of_range (buf : Buffer.t) (value offset : Z) :
  value < 0 \/ 4294967295 < value -> Buffer.writeUInt32LE buf value offset = Thrown RangeError.
Proof.
  intros Hv. unfold Buffer.writeUInt32LE.
  destruct (Z.ltb_spec value 0); [reflexivity|].
  destruct (Z.ltb_spec 4294967295 value); [reflexivity|lia].
Qed.

(** The four bytes [writeUInt32LE] stores decode to the value written. *)
Lemma LE32_decode (v : Z) :
  0 <= v <= 4294967295 ->
  byte_to_Z (Z_to_byte v) + 256 * byte_to_Z (Z_to_byte (Z.shiftr v 8))
  + 65536 * byte_to_Z (Z_to_byte (Z.shiftr v 16))
  + 16777216 * byte_to_Z (Z_to_byte (Z.shiftr v 24)) = v.
Proof.
  intros Hv. rewrite !byte_to_Z_to_byte, !Z.shiftr_div_pow2 by lia.
  change (2 ^ 8) with 256. change (2 ^ 16) with 65536. change (2 ^ 24) with 16777216.
  Z.div_mod_to_equations. lia.
Qed.

Lemma hardened_bit (p : Z) :
  0 <= p < 2147483648 ->
  Z.testbit (0x80000000 + p) 31 = true /\ (0x80000000 + p) mod 2147483648 = p.
Proof.
  intros Hp. split.
  - apply Z.testbit_true; [lia|]. change (2 ^ 31) with 2147483648.
    Z.div_mod_to_equations. lia.
  - Z.div_mod_to_equations. lia.
Qed.

Lemma Buffer_length_inserts (i : nat) (k buf : Buffer.t) :
  Buffer.length (list_inserts i k buf) = Buffer.length buf.
Proof. unfold Buffer.length. now rewrite length_inserts. Qed.

Lemma Buffer_length_alloc (n : Z) : 0 <= n -> Buffer.length (Buffer.alloc n) = n.
Proof.
  intros Hn. unfold Buffer.length, Buffer.alloc. rewrite length_replicate. lia.
Qed.

(** The outcome of [serializePath] on a five-element path whose entries fit. *)
Lemma serializePath_five (p0 p1 p2 p3 p4 : Z) :
  0 <= p0 < 2147483648 -> 0 <= p1 < 2147483648 -> 0 <= p2 < 2147483648 ->
  0 <= p3 <= 4294967295 -> 0 <= p4 <= 4294967295 ->
  helper.serializePath [p0; p1; p2; p3; p4]
  = Ok (Buffer.bytes_LE32 (0x80000000 + p0) ++ Buffer.bytes_LE32 (0x80000000 + p1)
        ++ Buffer.bytes_LE32 (0x80000000 + p2) ++ Buffer.bytes_LE32 p3
        ++ Buffer.bytes_LE32 p4).
Proof.
  intros H0 H1 H2 H3 H4. unfold helper.serializePath, path_get.
  change (negb (Z.of_nat (List.length [p0; p1; p2; p3; p4]) =? 5)) with false.
  cbn [lookup list_lookup default from_option id]. cbv iota.
  repeat (rewrite writeUInt32LE_in_range
            by (rewrite ?Buffer_length_inserts, ?Buffer_length_alloc; lia);
          cbn [outcome_bind]).
  reflexivity.
Qed.

Lemma lookup_word (pre post : Buffer.t) (w : list byte) (i : nat) :
  (pre ++ w ++ post) !! (List.length pre + i)%nat = (w ++ post) !! i.
Proof.
  rewrite lookup_app_r by lia. f_equal. lia.
Qed.

Lemma readUInt32LE_word (pre post : Buffer.t) (v : Z) :
  0 <= v <= 4294967295 ->
  Buffer.readUInt32LE (pre ++ Buffer.bytes_LE32 v ++ post) (Z.of_nat (List.length pre)) = Some v.
Proof.
  intros Hv. unfold Buffer.readUInt32LE.
  replace (Z.of_nat (List.length pre)) with (Z.of_nat (List.length pre + 0)) at 1 by lia.
  replace (Z.of_nat (List.length pre) + 1) with (Z.of_nat (List.length pre + 1)) by lia.
  replace (Z.of_nat (List.length pre) + 2) with (Z.of_nat (List.length pre + 2)) by lia.
  replace (Z.of_nat (List.length pre) + 3) with (Z.of_nat (List.length pre + 3)) by lia.
  rewrite !Buffer_get_lookup.
  pose proof (lookup_word pre post (Buffer.bytes_LE32 v)) as L.
  rewrite (L 0%nat). change ((Buffer.bytes_LE32 v ++ post) !! 0%nat) with (Some (Z_to_byte v)).
  cbv beta iota.
  rewrite (L 1%nat).
  change ((Buffer.bytes_LE32 v ++ post) !! 1%nat) with (Some (Z_to_byte (Z.shiftr v 8))).
  cbv beta iota.
  rewrite (L 2%nat).
  change ((Buffer.bytes_LE32 v ++ post) !! 2%nat) with (Some (Z_to_byte (Z.shiftr v 16))).
  cbv beta iota.
  rewrite (L 3%nat).
  change ((Buffer.bytes_LE32 v ++ post) !! 3%nat) with (Some (Z_to_byte (Z.shiftr v 24))).
  cbv beta iota.
  f_equal. apply LE32_decode, Hv.
Qed.

(** C5, as stated, fails: a five-element path whose first entry has bit 31
    set already is rejected by [writeUInt32LE], which does not wrap. *)
Lemma serializePath_rejects_high_index :
  helper_v2.serializePathv2 [2147483648; 0; 0; 0; 0] = Thrown RangeError
  /\ helper.serializePath [2147483648; 0; 0; 0; 0] = Thrown RangeError
  /\ ~ (exists buf, helper_v2.serializePathv2 [2147483648; 0; 0; 0; 0] = Ok buf
                    /\ List.length buf = 20%nat).
Proof.
  split; [reflexivity|]. split; [reflexivity|].
  intros (buf & E & _). vm_compute in E. discriminate.
Qed.

(** C5 (amended): [serializePath] throws "Invalid path." when the path does
    not have five elements; for a five-element path whose first three entries
    are in 0..2^31-1 and whose last two are in 0..2^32-1 it returns 20 bytes,
    five little-endian 32-bit words: words 0-2 are 0x80000000 + path[i] (the
    entry with bit 31 set), words 3-4 are path[3] and path[4]. *)
Theorem serializePath_layout :
  (forall path : list Z,
      List.length path <> 5%nat ->
      helper_v2.serializePathv2 path = Thrown (Error "Invalid path.")
      /\ helper.serializePath path = Thrown (Error "Invalid path."))
  /\ (forall p0 p1 p2 p3 p4 : Z,
         0 <= p0 < 2147483648 -> 0 <= p1 < 2147483648 -> 0 <= p2 < 2147483648 ->
         0 <= p3 <= 4294967295 -> 0 <= p4 <= 4294967295 ->
         exists buf : Buffer.t,
           helper_v2.serializePathv2 [p0; p1; p2; p3; p4] = Ok buf
           /\ helper.serializePath [p0; p1; p2; p3; p4] = Ok buf
           /\ List.length buf = 20%nat
           /\ Buffer.readUInt32LE buf 0 = Some (0x80000000 + p0)
           /\ Buffer.readUInt32LE buf 4 = Some (0x80000000 + p1)
           /\ Buffer.readUInt32LE buf 8 = Some (0x80000000 + p2)
           /\ Buffer.readUInt32LE buf 12 = Some p3
           /\ Buffer.readUInt32LE buf 16 = Some p4
           /\ Forall (fun p => Z.testbit (0x80000000 + p) 31 = true
                               /\ (0x80000000 + p) mod 2147483648 = p) [p0; p1; p2]).
Proof.
  split.
  - intros path Hlen. rewrite <- serializePath_same. unfold helper.serializePath.
    destruct (Z.eqb_spec (Z.of_nat (List.length path)) 5) as [E|E]; [lia|].
    split; reflexivity.
  - intros p0 p1 p2 p3 p4 H0 H1 H2 H3 H4.
    eexists. rewrite <- serializePath_same.
    rewrite (serializePath_five p0 p1 p2 p3 p4) by assumption.
    split; [reflexivity|]. split; [reflexivity|]. split; [reflexivity|].
    split; [apply (readUInt32LE_word []); lia|].
    split.
    { apply (readUInt32LE_word (Buffer.bytes_LE32 _)); lia. }
    split.
    { rewrite !app_assoc.
      rewrite <- (app_assoc _ (Buffer.bytes_LE32 p3)), <- (app_assoc _ (Buffer.bytes_LE32 (_ + p2))).
      apply (readUInt32LE_word (Buffer.bytes_LE32 _ ++ Buffer.bytes_LE32 _)); lia. }
    split.
    { rewrite !app_assoc. rewrite <- (app_assoc _ (Buffer.bytes_LE32 p3)).
      rewrite <- !(app_assoc (Buffer.bytes_LE32 (_ + p0))).
      apply (readUInt32LE_word
               (Buffer.bytes_LE32 _ ++ Buffer.bytes_LE32 _ ++ Buffer.bytes_LE32 _));
        lia. }
    split.
    { rewrite <- (app_nil_r (Buffer.bytes_LE32 p4)), !app_assoc, <- app_assoc.
      apply (readUInt32LE_word
               (((Buffer.bytes_LE32 _ ++ Buffer.bytes_LE32 _) ++ Buffer.bytes_LE32 _)
                ++ Buffer.bytes_LE32 _));
        lia. }
    repeat constructor; apply hardened_bit; assumption.
Qed.

Lemma serializePath_layout_witness :
  (helper.serializePath [44; 931; 0] = Thrown (Error "Invalid path."))
  /\ exists buf : Buffer.t,
       helper.serializePath [44; 931; 0; 0; 0] = Ok buf
       /\ Buffer.readUInt32LE buf 4 = Some (0x80000000 + 931).
Proof.
  destruct serializePath_layout as [Hbad Hgood]. split.
  - apply (Hbad [44; 931; 0]). simpl. lia.
  - destruct (Hgood 44 931 0 0 0) as (buf & _ & E & _ & _ & W & _); try lia.
    exists buf. split; assumption.
Defined.

(** ** HRP serialization *)

Lemma writeUInt8_in_range (buf : Buffer.t) (value offset : Z) :
  0 <= value <= 255 -> 0 <= offset -> offset + 1 <= Buffer.length buf ->
  Buffer.writeUInt8 buf value offset = Ok (<[Z.to_nat offset := Z_to_byte value]> buf).
Proof.
  intros Hv Ho Hl. unfold Buffer.writeUInt8.
  destruct (Z.ltb_spec value 0); [lia|].
  destruct (Z.ltb_spec 255 value); [lia|].
  destruct (Z.ltb_spec offset 0); [lia|].
  destruct (Z.ltb_spec (Buffer.length buf) (offset + 1)); [lia|].
  reflexivity.
Qed.

Lemma write_in_range (buf : Buffer.t) (s : string) (offset : Z) :
  0 <= offset <= Buffer.length buf ->
  BufferText.write buf s offset
  = Ok (list_inserts (Z.to_nat offset)
          (BufferText.utf8Write s (List.length buf - Z.to_nat offset)) buf).
Proof.
  intros Ho. unfold BufferText.write.
  destruct (Z.ltb_spec offset 0); [lia|].
  destruct (Z.ltb_spec (Buffer.length buf) offset); [lia|].
  reflexivity.
Qed.

Lemma String_length_list (s : string) :
  List.length (list_ascii_of_string s) = String.length s.
Proof. induction s; simpl; congruence. Qed.

(** With room for every character, a 7-bit string is written byte for byte. *)
Lemma utf8Write_ascii (s : string) (room : nat) :
  is_ascii s -> (String.length s <= room)%nat ->
  BufferText.utf8Write s room = bytes_of_string s.
Proof.
  unfold is_ascii, bytes_of_string. revert room.
  induction s as [|c s IH]; intros room Ha Hr; [reflexivity|].
  simpl in Ha, Hr. inversion Ha as [|? ? Hc Hs]; subst.
  cbn [BufferText.utf8Write]. unfold BufferText.utf8_char.
  destruct (Z.ltb_spec (ascii_to_Z c) 128); [|lia].
  cbn [List.length app].
  destruct (Nat.leb_spec 1 room); [|lia].
  cbn [list_ascii_of_string List.map]. f_equal. apply IH; [assumption|lia].
Qed.

Lemma String_eqb_empty (s : string) : (0 < String.length s)%nat -> String.eqb s "" = false.
Proof. destruct s; simpl; [lia|reflexivity]. Qed.

(** The bytes [serializeHRP] produces when the length is accepted. *)
Lemma serializeHRP_accepts `{Env} (s : string) :
  (3 <= String.length s <= 83)%nat ->
  THORChainApp.serializeHRP (Some s)
  = Ok (list_inserts 1
          (BufferText.utf8Write s (String.length s))
          (Z_to_byte (Z.of_nat (String.length s)) :: replicate (String.length s) x00))
  /\ helper.serializeHRP (Some s) = THORChainApp.serializeHRP (Some s).
Proof.
  intros Hl.
  assert (Hsame : helper.serializeHRP (Some s) = THORChainApp.serializeHRP (Some s)).
  { unfold helper.serializeHRP, THORChainApp.serializeHRP.
    rewrite String_eqb_empty by lia. reflexivity. }
  split; [|exact Hsame].
  unfold THORChainApp.serializeHRP.
  destruct (Z.ltb_spec (Z.of_nat (String.length s)) 3); [lia|].
  destruct (Z.ltb_spec 83 (Z.of_nat (String.length s))); [lia|].
  cbn [orb].
  rewrite writeUInt8_in_range by (rewrite ?Buffer_length_alloc; lia).
  cbn [outcome_bind].
  rewrite write_in_range
    by (unfold Buffer.length; rewrite length_insert; fold (Buffer.length (Buffer.alloc (1 + Z.of_nat (String.length s))));
        rewrite Buffer_length_alloc; lia).
  cbn [outcome_bind]. f_equal.
  rewrite length_insert. unfold Buffer.alloc.
  replace (Z.to_nat (1 + Z.of_nat (String.length s))) with (S (String.length s)) by lia.
  rewrite length_replicate. cbn [replicate].
  change (Z.to_nat 0) with 0%nat. change (Z.to_nat 1) with 1%nat.
  cbn [insert list_insert]. repeat f_equal. lia.
Qed.

(** C6: for an HRP of length 3..83, [serializeHRP] returns 1 + len bytes,
    byte 0 is len, and the bytes of the prefix follow (for a prefix of 7-bit
    characters, one byte per character); a null or undefined HRP, or one whose
    length is outside 3..83, raises the HRP-invalid [LedgerError]. Both copies
    of the function (index.ts, helper.ts) agree. *)
Theorem serializeHRP_layout `{Env} :
  (forall hrp : option string,
      hrp = None
      \/ (exists s, hrp = Some s /\ (String.length s < 3 \/ 83 < String.length s)%nat) ->
      THORChainApp.serializeHRP hrp
        = Thrown (LedgerError (Num (LedgerErrorType_value HPRInvalid)) None)
      /\ helper.serializeHRP hrp
        = Thrown (LedgerError (Num (LedgerErrorType_value HPRInvalid)) None))
  /\ (forall s : string,
         (3 <= String.length s <= 83)%nat ->
         exists buf : Buffer.t,
           THORChainApp.serializeHRP (Some s) = Ok buf
           /\ helper.serializeHRP (Some s) = Ok buf
           /\ List.length buf = (1 + String.length s)%nat
           /\ byte_to_Z <$> buf !! 0%nat = Some (Z.of_nat (String.length s))
           /\ (is_ascii s -> drop 1 buf = bytes_of_string s)).
Proof.
  split.
  - intros hrp [->|(s & -> & Hs)]; [split; reflexivity|].
    unfold THORChainApp.serializeHRP, helper.serializeHRP.
    destruct (Z.ltb_spec (Z.of_nat (String.length s)) 3),
             (Z.ltb_spec 83 (Z.of_nat (String.length s)));
      try lia; rewrite ?orb_true_r; split; reflexivity.
  - intros s Hl. destruct (serializeHRP_accepts s Hl) as [E Esame].
    eexists. split; [exact E|]. split; [rewrite Esame; exact E|].
    split; [|split].
    + rewrite length_inserts. cbn [List.length]. now rewrite length_replicate.
    + rewrite list_lookup_inserts_lt by lia. cbn [lookup list_lookup fmap option_fmap option_map].
      rewrite byte_to_Z_to_byte. f_equal. apply Z.mod_small. lia.
    + intros Ha. rewrite list_inserts_cons. cbn [drop].
      rewrite utf8Write_ascii by (auto; lia).
      rewrite <- (app_nil_r (replicate _ _)).
      rewrite list_inserts_0_r, app_nil_r; [reflexivity|].
      unfold bytes_of_string.
      rewrite length_map, String_length_list, length_replicate. reflexivity.
Qed.

Lemma serializeHRP_layout_witness :
  (helper.serializeHRP (H := reference_env) (Some "th")
     = Thrown (LedgerError (Num 6) None))
  /\ exists buf : Buffer.t,
       THORChainApp.serializeHRP (H := reference_env) (Some "thor") = Ok buf
       /\ drop 1 buf = bytes_of_string "thor".
Proof.
  destruct (serializeHRP_layout (H := reference_env)) as [Hbad Hgood]. split.
  - apply (Hbad (Some "th")). right. exists "th". split; [reflexivity|]. left. simpl. lia.
  - destruct (Hgood "thor") as (buf & E & _ & _ & _ & D); [simpl; lia|].
    exists buf. split; [exact E|]. apply D. repeat constructor.
Defined.

(** A prefix with a character above 0x7F: [buf.write] stores whole UTF-8
    characters only, the two-byte character that does not fit is left out. *)
Example serializeHRP_latin1 :
  helper.serializeHRP (H := reference_env) (Some (String "a" (String "b" (String (ascii_of_nat 233) ""))))
  = Ok [x03; x61; x62; x00].
Proof. reflexivity. Qed.

(** ** Running asynchronous functions *)

Lemma run_bind {A B : Type} (p : Async A) (f : A -> Async B) (answers : list (outcome Buffer.t)) :
  run (bind p f) answers =
  match run p answers with
  | (sent, Some (Ok a)) =>
      let '(sent', o) := run (f a) (drop (List.length sent) answers) in (sent ++ sent', o)
  | (sent, Some (Thrown e)) => (sent, Some (Thrown e))
  | (sent, None) => (sent, None)
  end.
Proof.
  revert answers. induction p as [a|e|c k IH]; intros answers.
  - simpl. rewrite drop_0. destruct (run (f a) answers). reflexivity.
  - reflexivity.
  - destruct answers as [|r answers]; [reflexivity|].
    cbn [bind run]. rewrite IH.
    destruct (run (k r) answers) as [sent [[a|e]|]]; simpl.
    + destruct (run (f a) (drop (List.length sent) answers)). reflexivity.
    + reflexivity.
    + reflexivity.
Qed.

Lemma run_try_catch {A : Type} (p : Async A) (h : exception -> Async A)
      (answers : list (outcome Buffer.t)) :
  run (try_catch p h) answers =
  match run p answers with
  | (sent, Some (Thrown e)) =>
      let '(sent', o) := run (h e) (drop (List.length sent) answers) in (sent ++ sent', o)
  | other => other
  end.
Proof.
  revert answers. induction p as [a|e|c k IH]; intros answers.
  - reflexivity.
  - simpl. rewrite drop_0. destruct (run (h e) answers). reflexivity.
  - destruct answers as [|r answers]; [reflexivity|].
    cbn [try_catch run]. rewrite IH.
    destruct (run (k r) answers) as [sent [[a|e]|]]; simpl.
    + reflexivity.
    + destruct (run (h e) (drop (List.length sent) answers)). reflexivity.
    + reflexivity.
Qed.

Lemma run_lift {A : Type} (o : outcome A) (answers : list (outcome Buffer.t)) :
  run (lift o) answers = ([], Some o).
Proof. destruct o; reflexivity. Qed.

(** ** The version decoder *)

Lemma ToInt32_small (z : Z) : -2147483648 <= z < 2147483648 -> ToInt32 z = z.
Proof.
  intros Hz. unfold ToInt32. rewrite Z.mod_small by lia. lia.
Qed.

Lemma ToInt32_mod (z : Z) : ToInt32 z mod 4294967296 = z mod 4294967296.
Proof.
  unfold ToInt32. Z.div_mod_to_equations. lia.
Qed.

Lemma shl_byte (b : byte) (n : Z) :
  0 <= n <= 16 -> shl (byte_to_Z b) n = byte_to_Z b * 2 ^ n.
Proof.
  intros Hn. pose proof (byte_to_Z_range b) as Hb. unfold shl.
  rewrite (ToInt32_small (byte_to_Z b)) by lia.
  assert (En : Z.land n 31 = n).
  { change 31 with (Z.ones 5). rewrite Z.land_ones by lia.
    apply Z.mod_small. change (2 ^ 5) with 32. lia. }
  rewrite En, Z.shiftl_mul_pow2 by lia.
  apply ToInt32_small.
  assert (0 < 2 ^ n <= 2 ^ 16) by (split; [apply Z.pow_pos_nonneg; lia | apply Z.pow_le_mono_r; lia]).
  change (2 ^ 16) with 65536 in *. nia.
Qed.

Lemma shl_byte_24 (b : byte) : shl (byte_to_Z b) 24 = ToInt32 (byte_to_Z b * 16777216).
Proof.
  pose proof (byte_to_Z_range b) as Hb. unfold shl.
  rewrite (ToInt32_small (byte_to_Z b)) by lia.
  change (Z.land 24 31) with 24. rewrite Z.shiftl_mul_pow2 by lia. reflexivity.
Qed.

(** The sum of shifts [getVersion] computes is the signed reading of the
    big-endian word. *)
Lemma targetId_shifts (b5 b6 b7 b8 : byte) :
  shl (byte_to_Z b5) 24 + shl (byte_to_Z b6) 16 + shl (byte_to_Z b7) 8 + shl (byte_to_Z b8) 0
  = ToInt32 (be32 b5 b6 b7 b8).
Proof.
  rewrite shl_byte_24, !shl_byte by lia.
  change (2 ^ 16) with 65536. change (2 ^ 8) with 256. change (2 ^ 0) with 1.
  pose proof (byte_to_Z_range b5). pose proof (byte_to_Z_range b6).
  pose proof (byte_to_Z_range b7). pose proof (byte_to_Z_range b8).
  unfold be32, ToInt32.
  destruct (Z_lt_dec (byte_to_Z b5) 128).
  - rewrite !Z.mod_small by lia. lia.
  - replace (byte_to_Z b5 * 16777216 + 2147483648)
      with ((byte_to_Z b5 * 16777216 - 2147483648) + 1 * 4294967296) by lia.
    replace (byte_to_Z b5 * 16777216 + byte_to_Z b6 * 65536 + byte_to_Z b7 * 256
             + byte_to_Z b8 + 2147483648)
      with ((byte_to_Z b5 * 16777216 + byte_to_Z b6 * 65536 + byte_to_Z b7 * 256
             + byte_to_Z b8 - 2147483648) + 1 * 4294967296) by lia.
    rewrite !Z.mod_add by lia. rewrite !Z.mod_small by lia. lia.
Qed.

Lemma be32_range (b5 b6 b7 b8 : byte) : 0 <= be32 b5 b6 b7 b8 < 4294967296.
Proof.
  pose proof (byte_to_Z_range b5). pose proof (byte_to_Z_range b6).
  pose proof (byte_to_Z_range b7). pose proof (byte_to_Z_range b8).
  unfold be32. lia.
Qed.

(** The version decoder, field by field, for every response: testMode is
    read from byte 0 (any value but 0), major, minor and patch from bytes 1-3,
    deviceLocked from byte 4 (value 1); a response shorter than 9 bytes gives
    targetId 0; for a longer one targetId is the hexadecimal text of the
    signed reading of the word that bytes 5-8 spell in big-endian order, which
    is the word itself when byte 5 is below 0x80. *)
Theorem getVersion_decoder `{Env} (response : Buffer.t) (answers : list (outcome Buffer.t)) :
  exists v : VersionResponse,
    run helper.getVersion (Ok response :: answers) = ([GET_VERSION_command], Some (Ok v))
    /\ testMode v = negb (element_eqb (response !! 0%nat) 0)
    /\ major v = (byte_to_Z <$> response !! 1%nat)
    /\ minor v = (byte_to_Z <$> response !! 2%nat)
    /\ patch v = (byte_to_Z <$> response !! 3%nat)
    /\ deviceLocked v = element_eqb (response !! 4%nat) 1
    /\ (forall b5 b6 b7 b8 : byte,
           (9 <= List.length response)%nat ->
           response !! 5%nat = Some b5 -> response !! 6%nat = Some b6 ->
           response !! 7%nat = Some b7 -> response !! 8%nat = Some b8 ->
           targetId v = Number_toString16 (ToInt32 (be32 b5 b6 b7 b8))
           /\ ToInt32 (be32 b5 b6 b7 b8) mod 4294967296 = be32 b5 b6 b7 b8
           /\ (byte_to_Z b5 < 128 -> ToInt32 (be32 b5 b6 b7 b8) = be32 b5 b6 b7 b8))
    /\ ((List.length response < 9)%nat -> targetId v = "0").
Proof.
  eexists. split; [reflexivity|].
  cbn [testMode major minor patch deviceLocked targetId].
  repeat (split; [reflexivity|]).
  split.
  - intros b5 b6 b7 b8 Hlen E5 E6 E7 E8.
    destruct (Z.leb_spec 9 (Buffer.length response)) as [_|Hc];
      [|unfold Buffer.length in Hc; lia].
    change (Buffer.get response 5) with (response !! 5%nat).
    change (Buffer.get response 6) with (response !! 6%nat).
    change (Buffer.get response 7) with (response !! 7%nat).
    change (Buffer.get response 8) with (response !! 8%nat).
    rewrite E5, E6, E7, E8. cbn [int_of_element].
    rewrite targetId_shifts. split; [reflexivity|]. split.
    + rewrite ToInt32_mod. apply Z.mod_small, be32_range.
    + intros Hb. apply ToInt32_small.
      pose proof (byte_to_Z_range b5). pose proof (byte_to_Z_range b6).
      pose proof (byte_to_Z_range b7). pose proof (byte_to_Z_range b8).
      unfold be32. lia.
  - intros Hlen.
    destruct (Z.leb_spec 9 (Buffer.length response)) as [Hc|_];
      [unfold Buffer.length in Hc; lia|].
    reflexivity.
Qed.

Lemma getVersion_decoder_witness :
  exists v : VersionResponse,
    run (helper.getVersion (H := reference_env))
        [Ok [x00; x02; x01; x03; x01; x31; x10; x00; x04; x90; x00]]
    = ([GET_VERSION_command (H := reference_env)], Some (Ok v))
    /\ major v = Some 2
    /\ targetId v = "31100004".
Proof.
  destruct (getVersion_decoder (H := reference_env)
              [x00; x02; x01; x03; x01; x31; x10; x00; x04; x90; x00] [])
    as (v & E & _ & Ema & _ & _ & _ & Ht & _).
  exists v. split; [exact E|]. split; [exact Ema|].
  destruct (Ht x31 x10 x00 x04) as [Et _]; try reflexivity; [simpl; lia|].
  exact Et.
Defined.

(** Byte 5 at or above 0x80: the shifts give the signed reading of the word. *)
Example getVersion_high_targetId :
  (targetId <$>
     match snd (run (helper.getVersion (H := reference_env))
                    [Ok [x00; x02; x00; x00; x00; x80; x10; x00; x04; x90; x00]]) with
     | Some (Ok v) => Some v
     | _ => None
     end) = Some "-7feffffc".
Proof. reflexivity. Qed.

Example getVersion_short_response :
  (targetId <$>
     match snd (run (helper.getVersion (H := reference_env)) [Ok [x00; x02; x00; x00; x00; x90; x00]]) with
     | Some (Ok v) => Some v
     | _ => None
     end) = Some "0".
Proof. reflexivity. Qed.

(** The signed reading of a word whose top bit is set. *)
Lemma ToInt32_high (b5 b6 b7 b8 : byte) :
  128 <= byte_to_Z b5 ->
  ToInt32 (be32 b5 b6 b7 b8) = be32 b5 b6 b7 b8 - 4294967296
  /\ be32 b5 b6 b7 b8 - 4294967296 < 0.
Proof.
  intros Hb. pose proof (be32_range b5 b6 b7 b8) as Hr.
  pose proof (byte_to_Z_range b6). pose proof (byte_to_Z_range b7).
  pose proof (byte_to_Z_range b8).
  assert (Hhigh : 2147483648 <= be32 b5 b6 b7 b8) by (unfold be32; lia).
  split; [|lia]. unfold ToInt32.
  replace (be32 b5 b6 b7 b8 + 2147483648)
    with ((be32 b5 b6 b7 b8 - 2147483648) + 1 * 4294967296) by lia.
  rewrite Z.mod_add by lia. rewrite Z.mod_small by lia. lia.
Qed.

(** The text of a negative number starts with a minus sign, the text of any
    other number does not. *)
Lemma Number_toString16_sign (z : Z) :
  (z < 0 -> exists digits : string, Number_toString16 z = String "-" digits)
  /\ (0 <= z -> forall digits : string, Number_toString16 z <> String "-" digits).
Proof.
  unfold Number_toString16. split.
  - intros Hz. destruct z as [|p|p]; try lia. eexists. reflexivity.
  - intros Hz digits. destruct z as [|p|p]; try lia.
    + discriminate.
    + cbn [Z.to_hex_int NilZero.string_of_int NilZero.string_of_uint].
      destruct (Pos.to_hex_uint p); discriminate.
Qed.

(** [buf.toString("hex")] holds no minus sign in front. *)
Lemma toString_hex_no_sign (b : byte) (rest : Buffer.t) (digits : string) :
  BufferText.toString_hex (b :: rest) <> String "-" digits.
Proof.
  unfold BufferText.toString_hex. cbn [flat_map app string_of_list].
  intros E. injection E as E _. revert E. destruct b; vm_compute; discriminate.
Qed.

(** C8 (where the code departs from it): for a response of at least 9 bytes
    whose byte 5 is 0x80 or more, targetId is not the big-endian 32-bit word
    of bytes 5-8. The shift [response[5] << 24] is a signed one, so the sum is
    the negative number word - 2^32 and its text starts with a minus sign;
    it differs from the hexadecimal text of the word, which is what
    [deviceInfo] prints as targetId for the same four bytes. The other fields
    are read as the claim says ([getVersion_decoder]). *)
Theorem getVersion_targetId_signed `{Env} (response : Buffer.t) (b5 b6 b7 b8 : byte)
        (answers : list (outcome Buffer.t)) :
  (9 <= List.length response)%nat ->
  response !! 5%nat = Some b5 -> response !! 6%nat = Some b6 ->
  response !! 7%nat = Some b7 -> response !! 8%nat = Some b8 ->
  128 <= byte_to_Z b5 ->
  (exists v : VersionResponse,
      run helper.getVersion (Ok response :: answers) = ([GET_VERSION_command], Some (Ok v))
      /\ targetId v = Number_toString16 (be32 b5 b6 b7 b8 - 4294967296)
      /\ be32 b5 b6 b7 b8 - 4294967296 < 0
      /\ (exists digits : string, targetId v = String "-" digits)
      /\ targetId v <> Number_toString16 (be32 b5 b6 b7 b8)
      /\ targetId v <> BufferText.toString_hex [b5; b6; b7; b8])
  /\ (exists info : THORChainApp.DeviceInfoResponse,
         run THORChainApp.deviceInfo
             (Ok ([b5; b6; b7; b8] ++ [x00; x00; x00; x90; x00]) :: answers)
         = ([deviceInfo_command], Some (Ok info))
         /\ THORChainApp.targetId <$> THORChainApp.device info
            = Some (BufferText.toString_hex [b5; b6; b7; b8])).
Proof.
  intros Hlen E5 E6 E7 E8 Hb.
  destruct (ToInt32_high b5 b6 b7 b8 Hb) as [Esigned Hneg].
  split.
  - eexists. split; [reflexivity|].
    cbn [targetId].
    destruct (Z.leb_spec 9 (Buffer.length response)) as [_|Hc];
      [|unfold Buffer.length in Hc; lia].
    change (Buffer.get response 5) with (response !! 5%nat).
    change (Buffer.get response 6) with (response !! 6%nat).
    change (Buffer.get response 7) with (response !! 7%nat).
    change (Buffer.get response 8) with (response !! 8%nat).
    rewrite E5, E6, E7, E8. cbn [int_of_element].
    rewrite targetId_shifts, Esigned.
    destruct (proj1 (Number_toString16_sign _) Hneg) as [digits Edigits].
    split; [reflexivity|]. split; [exact Hneg|]. split; [exists digits; exact Edigits|].
    rewrite Edigits. split.
    + intros E. symmetry in E. revert E.
      apply (proj2 (Number_toString16_sign _)). apply be32_range.
    + intros E. symmetry in E. revert E. apply toString_hex_no_sign.
  - eexists. split; reflexivity.
Qed.

Lemma getVersion_targetId_signed_witness :
  exists v : VersionResponse,
    run (helper.getVersion (H := reference_env))
        [Ok [x00; x02; x00; x00; x00; x80; x10; x00; x04; x90; x00]]
    = ([GET_VERSION_command (H := reference_env)], Some (Ok v))
    /\ targetId v = "-7feffffc"
    /\ BufferText.toString_hex [x80; x10; x00; x04] = "80100004".
Proof.
  destruct (getVersion_targetId_signed (H := reference_env)
              [x00; x02; x00; x00; x00; x80; x10; x00; x04; x90; x00]
              x80 x10 x00 x04 [])
    as [(v & E & Et & _) _].
  - cbn [List.length]. lia.
  - reflexivity.
  - reflexivity.
  - reflexivity.
  - reflexivity.
  - vm_compute. discriminate.
  - exists v. split; [exact E|]. split; [rewrite Et; reflexivity|reflexivity].
Defined.

(** ** Version dispatch *)

(** What [getVersion] decodes from a response. *)
Lemma run_getVersion_Ok `{Env} (response : Buffer.t) (answers : list (outcome Buffer.t)) :
  exists v : VersionResponse,
    run THORChainApp.getVersion (Ok response :: answers) = ([GET_VERSION_command], Some (Ok v))
    /\ returnCode v = returnCode_of response
    /\ errorMessage v = errorCodeToString (returnCode_of response)
    /\ major v = (byte_to_Z <$> response !! 1%nat).
Proof. eexists. split; [reflexivity|]. repeat split. Qed.

Lemma run_getVersion_Thrown `{Env} (e : exception) (answers : list (outcome Buffer.t)) :
  run THORChainApp.getVersion (Thrown e :: answers)
  = ([GET_VERSION_command], Some (Thrown (ledgerErrorFromResponse e))).
Proof. reflexivity. Qed.

Lemma switch_major {T : Type} (o : option Z) (a b : T) :
  match o with Some 2 => a | _ => b end
  = if match o with Some z => z =? 2 | None => false end then a else b.
Proof.
  destruct o as [z|]; [|reflexivity].
  destruct z as [|[[]|[]|]|]; reflexivity.
Qed.

Lemma major_is_2 (response : Buffer.t) :
  element_eqb (response !! 1%nat) 2 = true <-> response !! 1%nat = Some x02.
Proof.
  unfold element_eqb. destruct (response !! 1%nat) as [b|]; split; intros E; try discriminate.
  - apply Z.eqb_eq in E. f_equal. apply byte_to_Z_inj. rewrite E. reflexivity.
  - injection E as ->. reflexivity.
Qed.

Lemma major_is_not_2 (response : Buffer.t) :
  element_eqb (response !! 1%nat) 2 = false <-> response !! 1%nat <> Some x02.
Proof.
  rewrite <- major_is_2. destruct (element_eqb (response !! 1%nat) 2); split; congruence.
Qed.

(** [serializePath] against a version response. *)
Lemma run_serializePath `{Env} (path : list Z) (response : Buffer.t)
      (answers : list (outcome Buffer.t)) :
  run (THORChainApp.serializePath path) (Ok response :: answers) =
  ([GET_VERSION_command],
   Some (if negb (number_eqb (returnCode_of response) (LedgerErrorType_value NoErrors))
         then Thrown (LedgerError (returnCode_of response)
                        (Some (errorCodeToString (returnCode_of response))))
         else if element_eqb (response !! 1%nat) 2
              then helper_v2.serializePathv2 path
              else Thrown unsupported_version)).
Proof.
  unfold THORChainApp.serializePath. rewrite run_bind.
  destruct (run_getVersion_Ok response answers) as (v & -> & Erc & Emsg & Emaj).
  rewrite Erc, Emsg, Emaj. cbn [List.length skipn app].
  destruct (negb (number_eqb (returnCode_of response) (LedgerErrorType_value NoErrors)));
    [reflexivity|].
  rewrite switch_major. unfold element_eqb.
  destruct (response !! 1%nat) as [b|]; cbn [fmap option_fmap option_map]; [|reflexivity].
  destruct (byte_to_Z b =? 2); [|reflexivity].
  rewrite run_lift. reflexivity.
Qed.

Lemma run_serializePath_Thrown `{Env} (path : list Z) (e : exception)
      (answers : list (outcome Buffer.t)) :
  run (THORChainApp.serializePath path) (Thrown e :: answers)
  = ([GET_VERSION_command], Some (Thrown (ledgerErrorFromResponse e))).
Proof. reflexivity. Qed.

(** [serializePath] reads one answer, whatever follows it. *)
Lemma run_serializePath_one `{Env} (path : list Z) (version : outcome Buffer.t)
      (answers : list (outcome Buffer.t)) :
  run (THORChainApp.serializePath path) (version :: answers)
  = run (THORChainApp.serializePath path) [version].
Proof.
  destruct version as [response|e].
  - now rewrite !run_serializePath.
  - reflexivity.
Qed.

Lemma run_serializePath_sent `{Env} (path : list Z) (version : outcome Buffer.t) :
  fst (run (THORChainApp.serializePath path) [version]) = [GET_VERSION_command]
  /\ snd (run (THORChainApp.serializePath path) [version]) <> None.
Proof.
  destruct version as [response|e].
  - rewrite run_serializePath. split; [reflexivity|discriminate].
  - split; [reflexivity|discriminate].
Qed.

(** ** Chunking *)

(** One turn of the [for] loop of [signGetChunks]. The test [i > buffer.length]
    never holds inside the loop; [slice] clamps the end of the last chunk. *)
Lemma signGetChunks_loop_step (buffer : Buffer.t) (i : Z) (chunks : list Buffer.t) :
  THORChainApp.signGetChunks_loop buffer i chunks =
  if i <? Buffer.length buffer
  then THORChainApp.signGetChunks_loop buffer (i + CHUNK_SIZE)
         (chunks ++ [Buffer.slice buffer (Num i) (Num (i + CHUNK_SIZE))])
  else chunks.
Proof.
  rewrite THORChainApp.signGetChunks_loop_equation_1.
  destruct (Z_lt_dec i (Buffer.length buffer)) as [Hlt|Hge].
  - simp signGetChunks_loop.
    destruct (Z.ltb_spec i (Buffer.length buffer)); [|lia].
    destruct (Z.ltb_spec (Buffer.length buffer) i); [lia|]. reflexivity.
  - simp signGetChunks_loop.
    destruct (Z.ltb_spec i (Buffer.length buffer)); [lia|]. reflexivity.
Qed.

Lemma slice_chunk (buffer : Buffer.t) (i : Z) :
  0 <= i < Buffer.length buffer ->
  Buffer.slice buffer (Num i) (Num (i + CHUNK_SIZE))
  = take 150 (drop (Z.to_nat i) buffer).
Proof.
  intros Hi. unfold CHUNK_SIZE.
  destruct (Z_le_dec (i + 150) (Buffer.length buffer)).
  - rewrite Buffer_slice_range by lia. f_equal. lia.
  - rewrite Buffer_slice_clamped by lia. symmetry. apply take_ge.
    rewrite length_drop. unfold Buffer.length in *. lia.
Qed.

Lemma ceil_div_step (r : Z) :
  0 < r -> ceil_div r 150 = 1 + ceil_div (Z.max 0 (r - 150)) 150.
Proof.
  intros Hr. unfold ceil_div.
  destruct (Z_le_dec 150 r).
  - rewrite Z.max_r by lia.
    replace (r + 150 - 1) with ((r - 150 + 150 - 1) + 1 * 150) by lia.
    rewrite Z.div_add by lia. lia.
  - rewrite Z.max_l by lia.
    change ((0 + 150 - 1) / 150) with 0.
    assert (E : (r + 150 - 1) / 150 = 1); [|lia].
    symmetry. apply (Z.div_unique_pos _ _ 1 (r - 1)); lia.
Qed.

(** The chunks the loop appends from offset [i] on. *)
Lemma signGetChunks_loop_spec (n : nat) (buffer : Buffer.t) (i : Z) :
  0 <= i -> (Z.to_nat (Buffer.length buffer - i) <= n)%nat ->
  exists cs : list Buffer.t,
    (forall chunks, THORChainApp.signGetChunks_loop buffer i chunks = chunks ++ cs)
    /\ Z.of_nat (List.length cs) = ceil_div (Z.max 0 (Buffer.length buffer - i)) 150
    /\ Forall (fun c => (0 < List.length c <= 150)%nat) cs
    /\ (forall k c, cs !! k = Some c -> (S k < List.length cs)%nat -> List.length c = 150%nat)
    /\ List.concat cs = drop (Z.to_nat i) buffer.
Proof.
  revert i. induction n as [|n IH]; intros i Hi Hn.
  - exists []. split; [|split; [|split; [|split]]].
    + intros chunks. rewrite signGetChunks_loop_step.
      destruct (Z.ltb_spec i (Buffer.length buffer)); [lia|]. now rewrite app_nil_r.
    + rewrite Z.max_l by lia. reflexivity.
    + constructor.
    + intros k c Hk. rewrite lookup_nil in Hk. discriminate.
    + symmetry. apply drop_ge. unfold Buffer.length in *. lia.
  - destruct (Z_lt_dec i (Buffer.length buffer)) as [Hlt|Hge].
    2:{ apply IH; lia. }
    destruct (IH (i + 150)) as (cs & Hloop & Hcount & Hall & Hfull & Hcat); [lia|lia|].
    exists (take 150 (drop (Z.to_nat i) buffer) :: cs).
    assert (Hlen : List.length (take 150 (drop (Z.to_nat i) buffer))
                   = Nat.min 150 (List.length buffer - Z.to_nat i)).
    { now rewrite length_take, length_drop. }
    split; [|split; [|split; [|split]]].
    + intros chunks. rewrite signGetChunks_loop_step.
      destruct (Z.ltb_spec i (Buffer.length buffer)); [|lia].
      rewrite slice_chunk by lia. unfold CHUNK_SIZE. rewrite Hloop, <- app_assoc. reflexivity.
    + cbn [List.length]. rewrite Nat2Z.inj_succ, Hcount.
      rewrite (Z.max_r 0 (Buffer.length buffer - i)) by lia.
      rewrite (ceil_div_step (Buffer.length buffer - i)) by lia.
      replace (Buffer.length buffer - (i + 150)) with (Buffer.length buffer - i - 150) by lia.
      lia.
    + constructor; [|exact Hall]. rewrite Hlen. unfold Buffer.length in *. lia.
    + intros k c Hk Hsk. destruct k as [|k].
      * cbn in Hk. injection Hk as <-. rewrite Hlen.
        cbn [List.length] in Hsk.
        assert (Hpos : 0 < ceil_div (Z.max 0 (Buffer.length buffer - (i + 150))) 150) by lia.
        destruct (Z_le_dec (Buffer.length buffer - (i + 150)) 0) as [Hle|Hgt].
        { rewrite Z.max_l in Hpos by lia. vm_compute in Hpos. discriminate. }
        unfold Buffer.length in *. lia.
      * cbn in Hk. apply (Hfull k c Hk). cbn [List.length] in Hsk. lia.
    + cbn [List.concat]. rewrite Hcat.
      replace (Z.to_nat (i + 150)) with (Z.to_nat i + 150)%nat by lia.
      rewrite <- drop_drop. apply take_drop.
Qed.

(** The payload chunks of a message are what the loop appends to no chunks. *)
Lemma signGetChunks_loop_payload (message : Buffer.t) (chunks : list Buffer.t) :
  THORChainApp.signGetChunks_loop message 0 chunks
  = chunks ++ THORChainApp.signGetChunks_loop message 0 []
  /\ List.concat (THORChainApp.signGetChunks_loop message 0 []) = message
  /\ Z.of_nat (List.length (THORChainApp.signGetChunks_loop message 0 []))
     = ceil_div (Buffer.length message) 150.
Proof.
  destruct (signGetChunks_loop_spec (Z.to_nat (Buffer.length message)) message 0)
    as (payload & Hloop & Hcount & _ & _ & Hcat); [lia|lia|].
  rewrite (Hloop chunks), (Hloop []). cbn [app]. split; [reflexivity|]. split.
  - rewrite Hcat. reflexivity.
  - rewrite Hcount. f_equal. pose proof (Buffer_length_nonneg message). lia.
Qed.

(** [signGetChunks] sends what [serializePath] sends and returns the serialized
    path followed by the payload chunks. *)
Lemma run_signGetChunks `{Env} (path : list Z) (message : Buffer.t)
      (answers : list (outcome Buffer.t)) :
  run (THORChainApp.signGetChunks path message) answers
  = (fst (run (THORChainApp.serializePath path) answers),
     match snd (run (THORChainApp.serializePath path) answers) with
     | Some (Ok serializedPath) =>
         Some (Ok (serializedPath :: THORChainApp.signGetChunks_loop message 0 []))
     | Some (Thrown e) => Some (Thrown e)
     | None => None
     end).
Proof.
  unfold THORChainApp.signGetChunks. rewrite run_bind.
  destruct (run (THORChainApp.serializePath path) answers) as [sent [[sp|e]|]];
    cbn [fst snd]; try reflexivity.
  cbn [run app]. rewrite (proj1 (signGetChunks_loop_payload message [sp])), app_nil_r.
  reflexivity.
Qed.

(** C2: [signGetChunks] returns the serialized path as chunk 0 followed by
    exactly ceil(L/150) payload chunks for a message of L bytes; every payload
    chunk has between 1 and 150 bytes, all but the last have 150, and the
    payload chunks concatenated are the message. It fails only as
    [serializePath] fails, and sends nothing of its own. *)
Theorem signGetChunks_chunks `{Env} (path : list Z) (message : Buffer.t)
        (answers : list (outcome Buffer.t)) :
  exists payload : list Buffer.t,
    run (THORChainApp.signGetChunks path message) answers
    = (fst (run (THORChainApp.serializePath path) answers),
       match snd (run (THORChainApp.serializePath path) answers) with
       | Some (Ok serializedPath) => Some (Ok (serializedPath :: payload))
       | Some (Thrown e) => Some (Thrown e)
       | None => None
       end)
    /\ Z.of_nat (List.length payload) = ceil_div (Buffer.length message) 150
    /\ Forall (fun c => (0 < List.length c <= 150)%nat) payload
    /\ (forall k c, payload !! k = Some c -> (S k < List.length payload)%nat ->
                    List.length c = 150%nat)
    /\ List.concat payload = message.
Proof.
  destruct (signGetChunks_loop_spec (Z.to_nat (Buffer.length message)) message 0)
    as (payload & Hloop & Hcount & Hall & Hfull & Hcat); [lia|lia|].
  exists payload. split; [|split; [|split; [|split]]].
  - unfold THORChainApp.signGetChunks. rewrite run_bind.
    destruct (run (THORChainApp.serializePath path) answers) as [sent [[sp|e]|]];
      cbn [fst snd]; try reflexivity.
    cbn [run]. rewrite Hloop, app_nil_r. reflexivity.
  - rewrite Hcount. f_equal. pose proof (Buffer_length_nonneg message). lia.
  - exact Hall.
  - exact Hfull.
  - rewrite Hcat. reflexivity.
Qed.

Lemma signGetChunks_chunks_witness :
  exists payload : list Buffer.t,
    snd (run (THORChainApp.signGetChunks (H := reference_env) [44; 931; 0; 0; 0]
                (replicate 400 x41))
             [Ok [x00; x02; x00; x00; x00; x90; x00]])
    = Some (Ok ([x2c; x00; x00; x80; xa3; x03; x00; x80; x00; x00; x00; x80;
                 x00; x00; x00; x00; x00; x00; x00; x00] :: payload))
    /\ List.length payload = 3%nat
    /\ List.concat payload = replicate 400 x41.
Proof.
  destruct (signGetChunks_chunks (H := reference_env) [44; 931; 0; 0; 0]
              (replicate 400 x41) [Ok [x00; x02; x00; x00; x00; x90; x00]])
    as (payload & E & Hcount & _ & _ & Hcat).
  exists payload. rewrite E. split; [reflexivity|]. split; [|exact Hcat].
  apply Nat2Z.inj. rewrite Hcount. reflexivity.
Defined.

Lemma number_eqb_false (a : number) (z : Z) : number_eqb a z = false <-> a <> Num z.
Proof.
  destruct a as [x|]; cbn.
  - rewrite Z.eqb_neq. split; congruence.
  - split; [discriminate|reflexivity].
Qed.

Lemma number_eqb_true (a : number) (z : Z) : number_eqb a z = true <-> a = Num z.
Proof.
  destruct a as [x|]; cbn.
  - rewrite Z.eqb_eq. split; congruence.
  - split; discriminate.
Qed.

(** An operation that begins with [serializePath] fails as it fails. *)
Lemma run_after_serializePath_Thrown `{Env} {A : Type} (path : list Z)
      (f : Buffer.t -> Async A) (answers : list (outcome Buffer.t))
      (sent : list APDU) (e : exception) :
  run (THORChainApp.serializePath path) answers = (sent, Some (Thrown e)) ->
  run (bind (THORChainApp.serializePath path) f) answers = (sent, Some (Thrown e)).
Proof. intros E. rewrite run_bind, E. reflexivity. Qed.

(** [signSendChunk] against a version response: only the major version is
    looked at. *)
Lemma run_signSendChunk `{Env} (chunkIdx chunkNum : Z) (chunk response : Buffer.t)
      (answers : list (outcome Buffer.t)) :
  run (THORChainApp.signSendChunk chunkIdx chunkNum chunk) (Ok response :: answers) =
  if element_eqb (response !! 1%nat) 2
  then (GET_VERSION_command
          :: fst (run (helper_v2.signSendChunkv2 chunkIdx chunkNum chunk) answers),
        snd (run (helper_v2.signSendChunkv2 chunkIdx chunkNum chunk) answers))
  else ([GET_VERSION_command], Some (Thrown unsupported_version)).
Proof.
  unfold THORChainApp.signSendChunk. rewrite run_bind.
  destruct (run_getVersion_Ok response answers) as (v & -> & _ & _ & Emaj).
  rewrite Emaj. cbn [List.length skipn app]. rewrite drop_0, switch_major. unfold element_eqb.
  destruct (response !! 1%nat) as [b|]; cbn [fmap option_fmap option_map]; [|reflexivity].
  destruct (byte_to_Z b =? 2); [|reflexivity].
  destruct (run (helper_v2.signSendChunkv2 chunkIdx chunkNum chunk) answers).
  reflexivity.
Qed.



(** ** Address queries *)

Lemma same_but_p1_refl (sent : list APDU) : Forall2 same_but_p1 sent sent.
Proof.
  induction sent; constructor; [|assumption]. unfold same_but_p1. repeat split; reflexivity.
Qed.

(** C10: [getAddressAndPubKey] and [showAddressAndPubKey] have the same
    outcome on the same answers and send the same commands up to the P1 byte of
    the address query (ONLY_RETRIEVE against SHOW_ADDRESS_IN_DEVICE); both
    return the first 33 bytes of the response as the compressed public key,
    the bytes from offset 33 up to the two status bytes as the address text,
    and the status as the return code. *)
Theorem address_queries_agree `{Env} (path : list Z) (hrp : option string) :
  (forall answers : list (outcome Buffer.t),
      snd (run (THORChainApp.showAddressAndPubKey path hrp) answers)
      = snd (run (THORChainApp.getAddressAndPubKey path hrp) answers)
      /\ Forall2 same_but_p1
           (fst (run (THORChainApp.showAddressAndPubKey path hrp) answers))
           (fst (run (THORChainApp.getAddressAndPubKey path hrp) answers)))
  /\ (forall (version : outcome Buffer.t) (response : Buffer.t)
             (answers : list (outcome Buffer.t)) (serializedPath serializedHRP : Buffer.t),
         snd (run (THORChainApp.serializePath path) [version]) = Some (Ok serializedPath) ->
         THORChainApp.serializeHRP hrp = Ok serializedHRP ->
         let decoded :=
           {| THORChainApp.bech32_address :=
                toString_utf8 (Buffer.slice response (Num 33) (Num (-2)));
              THORChainApp.compressed_pk := Buffer.slice response (Num 0) (Num 33);
              THORChainApp.AddressResponse_base :=
                {| returnCode := returnCode_of response;
                   errorMessage := errorCodeToString (returnCode_of response) |} |} in
         let query (p : P1_VALUES) :=
           {| cla := CLA; ins := INS_value GET_ADDR_SECP256K1;
              p1 := P1_VALUES_value p; p2 := 0;
              data := Some (Buffer.concat [serializedHRP; serializedPath]);
              statusList := Some [LedgerErrorType_value NoErrors] |} in
         run (THORChainApp.getAddressAndPubKey path hrp) (version :: Ok response :: answers)
           = ([GET_VERSION_command; query ONLY_RETRIEVE], Some (Ok decoded))
         /\ run (THORChainApp.showAddressAndPubKey path hrp) (version :: Ok response :: answers)
           = ([GET_VERSION_command; query SHOW_ADDRESS_IN_DEVICE], Some (Ok decoded)))
  /\ (forall response : Buffer.t,
         (35 <= List.length response)%nat ->
         Buffer.slice response (Num 0) (Num 33) = take 33 response
         /\ List.length (take 33 response) = 33%nat
         /\ Buffer.slice response (Num 33) (Num (-2))
            = take (List.length response - 35) (drop 33 response)
         /\ response = take 33 response
                       ++ take (List.length response - 35) (drop 33 response)
                       ++ drop (List.length response - 2) response).
Proof.
  split; [|split].
  - intros answers.
    unfold THORChainApp.showAddressAndPubKey, THORChainApp.getAddressAndPubKey.
    rewrite !run_bind.
    destruct (run (THORChainApp.serializePath path) answers) as [sent [[sp|e]|]];
      cbn [fst snd]; try (split; [reflexivity|apply same_but_p1_refl]).
    rewrite !run_bind, !run_lift.
    destruct (THORChainApp.serializeHRP hrp) as [sh|e]; cbn [List.length skipn app].
    2:{ split; [reflexivity|apply same_but_p1_refl]. }
    rewrite !drop_0.
    destruct (drop (List.length sent) answers) as [|[response|e] rest]; cbn;
      (split; [reflexivity|]);
      (apply Forall2_app; [apply same_but_p1_refl|]);
      repeat constructor.
  - intros version response answers sp sh Hsp Hsh decoded query.
    pose proof (run_serializePath_sent path version) as [Hsent _].
    unfold THORChainApp.showAddressAndPubKey, THORChainApp.getAddressAndPubKey.
    rewrite !run_bind, run_serializePath_one.
    destruct (run (THORChainApp.serializePath path) [version]) as [sent o].
    cbn [fst snd] in Hsent, Hsp. subst sent o.
    rewrite !run_bind, !run_lift, Hsh. cbn.
    split; reflexivity.
  - intros response Hlen.
    assert (Hl : Buffer.length response = Z.of_nat (List.length response)) by reflexivity.
    split; [|split; [|split]].
    + rewrite Buffer_slice_range by lia. rewrite drop_0. reflexivity.
    + rewrite length_take. lia.
    + unfold Buffer.slice, Buffer.adjustOffset.
      destruct (Z.ltb_spec 33 0); [lia|].
      destruct (Z.ltb_spec 33 (Buffer.length response)); [|lia].
      destruct (Z.ltb_spec (-2) 0); [|lia].
      rewrite Z.max_l by lia. f_equal. lia.
    + rewrite <- (take_drop 33 response) at 1. f_equal.
      rewrite <- (take_drop (List.length response - 35) (drop 33 response)) at 1. f_equal.
      rewrite drop_drop. f_equal. lia.
Qed.

Lemma address_queries_agree_witness :
  snd (run (THORChainApp.getAddressAndPubKey (H := reference_env) [44; 931; 0; 0; 0] (Some "thor"))
           [Ok [x00; x02; x00; x00; x00; x90; x00];
            Ok (replicate 33 x02 ++ [x74; x68; x6f; x72; x31; x71] ++ [x90; x00])])
  = Some (Ok {| THORChainApp.bech32_address := "thor1q";
                THORChainApp.compressed_pk := replicate 33 x02;
                THORChainApp.AddressResponse_base :=
                  {| returnCode := Num 0x9000; errorMessage := "No errors" |} |}).
Proof.
  destruct (address_queries_agree (H := reference_env) [44; 931; 0; 0; 0] (Some "thor"))
    as (_ & Hdecode & _).
  destruct (Hdecode (Ok [x00; x02; x00; x00; x00; x90; x00])
              (replicate 33 x02 ++ [x74; x68; x6f; x72; x31; x71] ++ [x90; x00]) []
              [x2c; x00; x00; x80; xa3; x03; x00; x80; x00; x00; x00; x80;
               x00; x00; x00; x00; x00; x00; x00; x00]
              [x04; x74; x68; x6f; x72]) as [Eget _]; [reflexivity|reflexivity|].
  rewrite Eget. reflexivity.
Defined.

(** ** The device-info decoder *)

Lemma get_number_at (buf pre post : Buffer.t) (b : byte) (i : Z) :
  buf = pre ++ b :: post -> i = Z.of_nat (List.length pre) ->
  Buffer.get_number buf (Num i) = Some b.
Proof.
  intros -> ->. cbn [Buffer.get_number]. rewrite Buffer_get_lookup.
  now apply list_lookup_middle.
Qed.

Lemma slice_at (buf pre mid post : Buffer.t) (s e : Z) :
  buf = pre ++ mid ++ post -> s = Z.of_nat (List.length pre) ->
  e = s + Z.of_nat (List.length mid) ->
  Buffer.slice buf (Num s) (Num e) = mid.
Proof.
  intros -> -> ->. rewrite Buffer_slice_range.
  - rewrite Nat2Z.id, drop_app_length.
    replace (Z.to_nat _) with (List.length mid) by lia. apply take_app_length.
  - lia.
  - unfold Buffer.length. rewrite !length_app. lia.
Qed.

(** [tmp[tmp.length - 1]] is the last byte of [tmp], if it has one. *)
Lemma get_number_last (field : Buffer.t) :
  Buffer.get_number field (Num (Z.of_nat (List.length field) + -1)) = last field.
Proof.
  cbn [Buffer.get_number]. rewrite last_lookup.
  destruct field as [|b field]; [reflexivity|].
  replace (Z.of_nat (List.length (b :: field)) + -1)
    with (Z.of_nat (pred (List.length (b :: field)))) by (cbn [List.length]; lia).
  apply Buffer_get_lookup.
Qed.

(** C9: with status 0x6E00 [deviceInfo] returns the dashboard-only message as
    a result and parses nothing else; otherwise it reads the 4-byte targetId,
    the length-prefixed secure-element version, flags and MCU version, and
    drops a trailing zero byte of the MCU version field before the field is
    turned into text. *)
Theorem deviceInfo_decoder `{Env} :
  (forall (response : Buffer.t) (answers : list (outcome Buffer.t)),
      returnCode_of response = Num 0x6e00 ->
      run THORChainApp.deviceInfo (Ok response :: answers)
      = ([deviceInfo_command],
         Some (Ok {| THORChainApp.return_code := Num 0x6e00;
                     THORChainApp.error_message :=
                       "This command is only available in the Dashboard";
                     THORChainApp.device := None |})))
  /\ (forall (tid se fl mcu rest : Buffer.t) (answers : list (outcome Buffer.t)),
         List.length tid = 4%nat ->
         (List.length se < 256)%nat -> (List.length fl < 256)%nat ->
         (List.length mcu < 256)%nat ->
         let response :=
           tid ++ [Z_to_byte (Z.of_nat (List.length se))] ++ se
               ++ [Z_to_byte (Z.of_nat (List.length fl))] ++ fl
               ++ [Z_to_byte (Z.of_nat (List.length mcu))] ++ mcu ++ rest in
         returnCode_of response <> Num 0x6e00 ->
         run THORChainApp.deviceInfo (Ok response :: answers)
         = ([deviceInfo_command],
            Some (Ok {| THORChainApp.return_code := returnCode_of response;
                        THORChainApp.error_message :=
                          errorCodeToString (returnCode_of response);
                        THORChainApp.device :=
                          Some {| THORChainApp.targetId := BufferText.toString_hex tid;
                                  THORChainApp.seVersion := toString_utf8 se;
                                  THORChainApp.flag := BufferText.toString_hex fl;
                                  THORChainApp.mcuVersion :=
                                    toString_utf8 (trim_trailing_zero mcu) |} |}))).
Proof.
  split.
  - intros response answers Hrc.
    unfold THORChainApp.deviceInfo. cbn [run try_catch bind send].
    rewrite Hrc. reflexivity.
  - intros tid se fl mcu rest answers Htid Hse Hfl Hmcu response Hrc.
    apply number_eqb_false in Hrc.
    unfold THORChainApp.deviceInfo.
    cbn [run try_catch bind send]. rewrite Hrc.
    cbn [run try_catch bind send app].
    fold deviceInfo_command.
    set (nse := Z.of_nat (List.length se)).
    set (nfl := Z.of_nat (List.length fl)).
    set (nmcu := Z.of_nat (List.length mcu)).
    assert (Bse : byte_to_Z (Z_to_byte nse) = nse)
      by (rewrite byte_to_Z_to_byte; apply Z.mod_small; lia).
    assert (Bfl : byte_to_Z (Z_to_byte nfl) = nfl)
      by (rewrite byte_to_Z_to_byte; apply Z.mod_small; lia).
    assert (Bmcu : byte_to_Z (Z_to_byte nmcu) = nmcu)
      by (rewrite byte_to_Z_to_byte; apply Z.mod_small; lia).
    rewrite (get_number_at response tid _ (Z_to_byte nse) 4 eq_refl) by lia.
    cbn [to_number number_add]. rewrite Bse.
    rewrite (get_number_at response (tid ++ [Z_to_byte nse] ++ se) _ (Z_to_byte nfl)
               (4 + 1 + nse)) by layout response.
    cbn [to_number number_add]. rewrite Bfl.
    rewrite (get_number_at response
               (tid ++ [Z_to_byte nse] ++ se ++ [Z_to_byte nfl] ++ fl) _ (Z_to_byte nmcu)
               (4 + 1 + nse + 1 + nfl)) by layout response.
    cbn [to_number number_add]. rewrite Bmcu.
    rewrite (slice_at response [] tid _ 0 4) by (cbn [List.length]; first [lia | reflexivity]).
    rewrite (slice_at response (tid ++ [Z_to_byte nse]) se _ (4 + 1) (4 + 1 + nse))
      by layout response.
    rewrite (slice_at response (tid ++ [Z_to_byte nse] ++ se ++ [Z_to_byte nfl]) fl _
               (4 + 1 + nse + 1) (4 + 1 + nse + 1 + nfl)) by layout response.
    rewrite (slice_at response
               (tid ++ [Z_to_byte nse] ++ se ++ [Z_to_byte nfl] ++ fl ++ [Z_to_byte nmcu])
               mcu rest
               (4 + 1 + nse + 1 + nfl + 1) (4 + 1 + nse + 1 + nfl + 1 + nmcu))
      by layout response.
    subst nmcu. rewrite get_number_last. unfold trim_trailing_zero.
    destruct (element_eqb (last mcu) 0) eqn:Elast; [|reflexivity].
    assert (Hne : (0 < List.length mcu)%nat).
    { destruct mcu; [discriminate|cbn [List.length]; lia]. }
    rewrite (slice_at response
               (tid ++ [Z_to_byte nse] ++ se ++ [Z_to_byte nfl] ++ fl
                    ++ [Z_to_byte (Z.of_nat (List.length mcu))])
               (take (List.length mcu - 1) mcu)
               (drop (List.length mcu - 1) mcu ++ rest)
               (4 + 1 + nse + 1 + nfl + 1)
               (4 + 1 + nse + 1 + nfl + 1 + Z.of_nat (List.length mcu) + -1)).
    + reflexivity.
    + subst response. rewrite (app_assoc (take _ mcu)), take_drop.
      now rewrite <- ?app_assoc.
    + rewrite ?length_app. cbn [List.length]. lia.
    + rewrite length_take. lia.
Qed.

Lemma deviceInfo_decoder_witness :
  run (THORChainApp.deviceInfo (H := reference_env)) [Ok [x6e; x00]]
  = ([deviceInfo_command (H := reference_env)],
     Some (Ok {| THORChainApp.return_code := Num 0x6e00;
                 THORChainApp.error_message :=
                   "This command is only available in the Dashboard";
                 THORChainApp.device := None |}))
  /\ run (THORChainApp.deviceInfo (H := reference_env))
         [Ok [x31; x10; x00; x04; x03; x31; x2e; x36; x01; xa6; x04; x31; x2e; x31; x00;
              x90; x00]]
     = ([deviceInfo_command (H := reference_env)],
        Some (Ok {| THORChainApp.return_code := Num 0x9000;
                    THORChainApp.error_message := "No errors";
                    THORChainApp.device :=
                      Some {| THORChainApp.targetId := "31100004";
                              THORChainApp.seVersion := "1.6";
                              THORChainApp.flag := "a6";
                              THORChainApp.mcuVersion := "1.1" |} |})).
Proof.
  destruct (deviceInfo_decoder (H := reference_env)) as [Hdash Hparse]. split.
  - apply (Hdash [x6e; x00] []). reflexivity.
  - apply (Hparse [x31; x10; x00; x04] [x31; x2e; x36] [xa6] [x31; x2e; x31; x00]
             [x90; x00] []); try (cbn [List.length]; lia). discriminate.
Defined.

(** ** The sign-chunk decoders *)

(** X17: The decoder of [src/helper.ts] does what the specification says: a
    recognized failure status raises a [LedgerError] whose message ends with
    the payload read as ASCII; a signature is returned only with status
    NoErrors and a response longer than the two status bytes. *)
Lemma helper_signSendChunk_decoder `{Env} (chunkIdx chunkNum : Z) (chunk response : Buffer.t)
      (answers : list (outcome Buffer.t)) :
  let rc := returnCode_of response in
  let payload := Buffer.slice response (Num 0) (Num (Buffer.length response - 2)) in
  (rc = Num (LedgerErrorType_value BadKeyHandle)
   \/ rc = Num (LedgerErrorType_value DataIsInvalid)
   \/ rc = Num (LedgerErrorType_value SignVerifyError) ->
   snd (run (helper.signSendChunk chunkIdx chunkNum chunk) (Ok response :: answers))
   = Some (Thrown (LedgerError rc
                     (Some (errorCodeToString rc ++ " : "
                            ++ BufferText.toString_ascii payload)%string))))
  /\ (forall r : SignResponse,
         snd (run (helper.signSendChunk chunkIdx chunkNum chunk) (Ok response :: answers))
         = Some (Ok r) ->
         signature r <> None ->
         rc = Num (LedgerErrorType_value NoErrors)
         /\ 2 < Buffer.length response
         /\ signature r = Some payload).
Proof.
  intros rc payload. unfold helper.signSendChunk. cbn [run bind send snd].
  fold rc. fold payload. split.
  - intros Hrc.
    assert (E : number_eqb rc (LedgerErrorType_value BadKeyHandle)
                || number_eqb rc (LedgerErrorType_value DataIsInvalid)
                || number_eqb rc (LedgerErrorType_value SignVerifyError) = true).
    { destruct Hrc as [Hrc|[Hrc|Hrc]]; apply number_eqb_true in Hrc; rewrite Hrc;
        rewrite ?orb_true_r; reflexivity. }
    rewrite E. reflexivity.
  - intros r.
    destruct (number_eqb rc (LedgerErrorType_value BadKeyHandle)
              || number_eqb rc (LedgerErrorType_value DataIsInvalid)
              || number_eqb rc (LedgerErrorType_value SignVerifyError));
      [discriminate|].
    destruct (number_eqb rc (LedgerErrorType_value NoErrors)) eqn:Eok;
      destruct (Z.ltb_spec 2 (Buffer.length response));
      cbn [andb run snd]; intros Er Hsig; injection Er as <-;
      cbn [signature] in Hsig |- *; try congruence.
    apply number_eqb_true in Eok. repeat split; assumption.
Qed.

(** The command [signSendChunkv1] sends. *)
Lemma signSendChunkv1_command `{Env} (chunkIdx chunkNum : Z) (chunk : Buffer.t) :
  first_command (helper_v2.signSendChunkv1 chunkIdx chunkNum chunk)
  = Some {| cla := CLA; ins := INS_value SIGN_SECP256K1; p1 := chunkIdx; p2 := chunkNum;
            data := Some chunk;
            statusList := Some [LedgerErrorType_value NoErrors;
                                LedgerErrorType_value DataIsInvalid;
                                LedgerErrorType_value BadKeyHandle] |}.
Proof. reflexivity. Qed.

(** C4 (the decoder [sign] reaches, [signSendChunkv1]): a response with status
    BadKeyHandle or DataIsInvalid and a payload is not raised as an error; it
    is returned as a result whose [signature] is that payload. Any other
    status with a payload, the verify error included, is returned the same
    way with the plain message. A response that is only the two status bytes
    is raised as an error whatever the status, NoErrors included. *)
Theorem signSendChunkv1_decoder `{Env} (chunkIdx chunkNum : Z) (chunk response : Buffer.t)
        (answers : list (outcome Buffer.t)) :
  let rc := returnCode_of response in
  let payload := Buffer.slice response (Num 0) (Num (Buffer.length response - 2)) in
  (rc = Num (LedgerErrorType_value BadKeyHandle)
   \/ rc = Num (LedgerErrorType_value DataIsInvalid) ->
   2 < Buffer.length response ->
   snd (run (helper_v2.signSendChunkv1 chunkIdx chunkNum chunk) (Ok response :: answers))
   = Some (Ok {| SignResponse_base :=
                   {| returnCode := rc;
                      errorMessage := (errorCodeToString rc ++ " : "
                                       ++ BufferText.toString_ascii payload)%string |};
                 signature := Some payload |}))
  /\ (rc <> Num (LedgerErrorType_value BadKeyHandle) ->
      rc <> Num (LedgerErrorType_value DataIsInvalid) ->
      2 < Buffer.length response ->
      snd (run (helper_v2.signSendChunkv1 chunkIdx chunkNum chunk) (Ok response :: answers))
      = Some (Ok {| SignResponse_base :=
                      {| returnCode := rc; errorMessage := errorCodeToString rc |};
                    signature := Some payload |}))
  /\ (Buffer.length response <= 2 ->
      exists message : string,
        snd (run (helper_v2.signSendChunkv1 chunkIdx chunkNum chunk) (Ok response :: answers))
        = Some (Thrown (ledgerErrorFromResponse (LedgerError rc (Some message))))).
Proof.
  intros rc payload. unfold helper_v2.signSendChunkv1. cbn [run try_catch bind send snd].
  fold rc. fold payload. split; [|split].
  - intros Hrc Hlen.
    assert (E : number_eqb rc (LedgerErrorType_value BadKeyHandle)
                || number_eqb rc (LedgerErrorType_value DataIsInvalid) = true).
    { destruct Hrc as [Hrc|Hrc]; apply number_eqb_true in Hrc; rewrite Hrc;
        rewrite ?orb_true_r; reflexivity. }
    rewrite E. destruct (Z.ltb_spec 2 (Buffer.length response)); [reflexivity|lia].
  - intros Hb Hd Hlen.
    apply number_eqb_false in Hb. apply number_eqb_false in Hd. rewrite Hb, Hd.
    destruct (Z.ltb_spec 2 (Buffer.length response)); [reflexivity|lia].
  - intros Hlen. eexists.
    destruct (Z.ltb_spec 2 (Buffer.length response)); [lia|]. reflexivity.
Qed.

Lemma signSendChunkv1_decoder_witness :
  snd (run (helper_v2.signSendChunkv1 (H := reference_env) 1 0 [x41]) [Ok [x42; x6a; x80]])
  = Some (Ok {| SignResponse_base :=
                  {| returnCode := Num 0x6a80; errorMessage := "Bad key handle : B" |};
                signature := Some [x42] |})
  /\ (exists message : string,
         snd (run (helper_v2.signSendChunkv1 (H := reference_env) 1 0 [x41]) [Ok [x90; x00]])
         = Some (Thrown (LedgerError (Num 0x9000) (Some message))))
  /\ option_map (fun c => transport_accepts (H := reference_env) c (Ok [x42; x6a; x80]))
                (first_command (helper_v2.signSendChunkv1 (H := reference_env) 1 0 [x41]))
     = Some true.
Proof.
  split; [|split].
  - apply (proj1 (signSendChunkv1_decoder (H := reference_env) 1 0 [x41] [x42; x6a; x80] [])).
    + left. reflexivity.
    + reflexivity.
  - destruct (proj2 (proj2 (signSendChunkv1_decoder (H := reference_env) 1 0 [x41]
                               [x90; x00] [])))
      as [message E]; [discriminate|].
    exists message. exact E.
  - reflexivity.
Defined.

(** ** The sign loop *)

(** The loop stops at the first chunk whose result carries a status other than
    NoErrors, and hands that result on; after a NoErrors result it goes on
    with the next chunk. *)
Lemma sign_loop_step `{Env} (chunkNum i : Z) (chunk : Buffer.t) (rest : list Buffer.t)
      (result r : SignResponse) (answers : list (outcome Buffer.t)) (sent : list APDU) :
  run (THORChainApp.signSendChunk (1 + i) chunkNum chunk) answers = (sent, Some (Ok r)) ->
  run (THORChainApp.sign_loop chunkNum i (chunk :: rest) result) answers =
  if negb (number_eqb (returnCode r) (LedgerErrorType_value NoErrors))
  then (sent, Some (Ok r))
  else (sent ++ fst (run (THORChainApp.sign_loop chunkNum (i + 1) rest r)
                         (drop (List.length sent) answers)),
        snd (run (THORChainApp.sign_loop chunkNum (i + 1) rest r)
                 (drop (List.length sent) answers))).
Proof.
  intros E. cbn [THORChainApp.sign_loop]. rewrite run_bind, E.
  destruct (negb (number_eqb (returnCode r) (LedgerErrorType_value NoErrors))).
  - cbn [run]. now rewrite app_nil_r.
  - destruct (run (THORChainApp.sign_loop chunkNum (i + 1) rest r)
                  (drop (List.length sent) answers)).
    reflexivity.
Qed.

(** A chunk sender that throws ends the loop with that exception. *)
Lemma sign_loop_throws `{Env} (chunkNum i : Z) (chunk : Buffer.t) (rest : list Buffer.t)
      (result : SignResponse) (e : exception) (answers : list (outcome Buffer.t))
      (sent : list APDU) :
  run (THORChainApp.signSendChunk (1 + i) chunkNum chunk) answers = (sent, Some (Thrown e)) ->
  run (THORChainApp.sign_loop chunkNum i (chunk :: rest) result) answers
  = (sent, Some (Thrown e)).
Proof.
  intros E. cbn [THORChainApp.sign_loop]. rewrite run_bind, E. reflexivity.
Qed.

(** [signSendChunkv2] sends one command and reads one answer. *)
Lemma signSendChunkv2_sent `{Env} (chunkIdx chunkNum : Z) (chunk : Buffer.t)
      (answers : list (outcome Buffer.t)) :
  fst (run (helper_v2.signSendChunkv2 chunkIdx chunkNum chunk) answers)
  = [sign_command chunkIdx chunkNum chunk].
Proof.
  unfold helper_v2.signSendChunkv2, helper_v2.signSendChunkv1, sign_command.
  destruct answers as [|[response|e] answers]; cbn [run try_catch bind send fst];
    try reflexivity.
  destruct (2 <? Buffer.length response); reflexivity.
Qed.

(** What one call of the chunk sender sends: the version query and, for major
    version 2, the chunk. A call that returns has sent both. *)
Lemma signSendChunk_sent `{Env} (chunkIdx chunkNum : Z) (chunk : Buffer.t)
      (answers : list (outcome Buffer.t)) :
  fst (run (THORChainApp.signSendChunk chunkIdx chunkNum chunk) answers)
    `prefix_of` [GET_VERSION_command; sign_command chunkIdx chunkNum chunk]
  /\ (forall r, snd (run (THORChainApp.signSendChunk chunkIdx chunkNum chunk) answers)
                = Some (Ok r) ->
                fst (run (THORChainApp.signSendChunk chunkIdx chunkNum chunk) answers)
                = [GET_VERSION_command; sign_command chunkIdx chunkNum chunk]).
Proof.
  destruct answers as [|[version|e] answers].
  - split; [|discriminate]. exists [sign_command chunkIdx chunkNum chunk]. reflexivity.
  - rewrite run_signSendChunk.
    destruct (element_eqb (version !! 1%nat) 2); cbn [fst snd].
    + rewrite signSendChunkv2_sent. split; [reflexivity|]. intros _ _. reflexivity.
    + split; [|discriminate]. exists [sign_command chunkIdx chunkNum chunk]. reflexivity.
  - split; [|discriminate]. exists [sign_command chunkIdx chunkNum chunk]. reflexivity.
Qed.

Lemma sign_loop_sent `{Env} (chunkNum : Z) (rest : list Buffer.t) :
  forall (i : Z) (result : SignResponse) (answers : list (outcome Buffer.t)),
    fst (run (THORChainApp.sign_loop chunkNum i rest result) answers)
      `prefix_of` sign_schedule chunkNum i rest.
Proof.
  induction rest as [|chunk rest IH]; intros i result answers.
  - reflexivity.
  - cbn [THORChainApp.sign_loop sign_schedule]. rewrite run_bind.
    destruct (signSendChunk_sent (1 + i) chunkNum chunk answers) as [Hpre Hfull].
    destruct (run (THORChainApp.signSendChunk (1 + i) chunkNum chunk) answers)
      as [sent [[r|e]|]]; cbn [fst snd] in *.
    + rewrite (Hfull r eq_refl).
      destruct (negb (number_eqb (returnCode r) (LedgerErrorType_value NoErrors))).
      * cbn [run app fst]. do 2 apply prefix_cons. apply prefix_nil.
      * specialize (IH (i + 1) r (drop (List.length
                   [GET_VERSION_command; sign_command (1 + i) chunkNum chunk]) answers)).
        destruct (run (THORChainApp.sign_loop chunkNum (i + 1) rest r) _) as [sent' o'].
        cbn [fst app] in *. do 2 apply prefix_cons. exact IH.
    + etransitivity; [exact Hpre|]. do 2 apply prefix_cons. apply prefix_nil.
    + etransitivity; [exact Hpre|]. do 2 apply prefix_cons. apply prefix_nil.
Qed.

Lemma run_bind_Return_sent {A B : Type} (p : Async A) (g : A -> B)
      (answers : list (outcome Buffer.t)) :
  fst (run (bind p (fun a => Return (g a))) answers) = fst (run p answers).
Proof.
  rewrite run_bind. destruct (run p answers) as [sent [[a|e]|]]; cbn [run fst]; try reflexivity.
  apply app_nil_r.
Qed.

Lemma serializePath_returned `{Env} (path : list Z) (answers : list (outcome Buffer.t))
      (serializedPath : Buffer.t) :
  snd (run (THORChainApp.serializePath path) answers) = Some (Ok serializedPath) ->
  fst (run (THORChainApp.serializePath path) answers) = [GET_VERSION_command].
Proof.
  destruct answers as [|version answers]; [discriminate|]. intros _.
  rewrite run_serializePath_one. apply run_serializePath_sent.
Qed.

(** X11: Whatever the transport answers, once the path is serialized [sign]
    sends the chunks in order, the path chunk first, each after a version
    query: the commands sent are an initial part of the full schedule. *)
Lemma sign_sends_chunks_in_order `{Env} (path : list Z) (message : Buffer.t)
      (answers : list (outcome Buffer.t)) (serializedPath : Buffer.t) :
  snd (run (THORChainApp.serializePath path) answers) = Some (Ok serializedPath) ->
  exists payload : list Buffer.t,
    List.concat payload = message
    /\ fst (run (THORChainApp.sign path message) answers)
         `prefix_of`
         (GET_VERSION_command
            :: sign_schedule (Z.of_nat (S (List.length payload))) 0 (serializedPath :: payload)).
Proof.
  intros Hsp.
  pose proof (run_signGetChunks path message answers) as Echunks.
  destruct (signGetChunks_loop_payload message []) as (_ & Hcat & _).
  set (payload := THORChainApp.signGetChunks_loop message 0 []) in *.
  rewrite Hsp, (serializePath_returned path answers serializedPath Hsp) in Echunks.
  exists payload. split; [exact Hcat|].
  unfold THORChainApp.sign. rewrite run_bind, Echunks.
  cbn [List.length lookup list_lookup default from_option id skipn].
  set (rest := drop 1 answers).
  set (n := Z.of_nat (S (List.length payload))).
  rewrite run_bind.
  destruct (signSendChunk_sent 1 n serializedPath rest) as [Hpre Hfull].
  destruct (run (THORChainApp.signSendChunk 1 n serializedPath) rest)
    as [sent [[r|e]|]]; cbn [fst snd] in *.
  - rewrite (Hfull r eq_refl).
    match goal with
    | |- context [run (bind ?p ?f) ?a] =>
        pose proof (run_bind_Return_sent p
                      (fun result : SignResponse =>
                         {| SignResponse_base :=
                              {| returnCode := returnCode result;
                                 errorMessage := errorMessage result |};
                            signature := signature result |}) a) as Hsent;
        pose proof (sign_loop_sent n payload 1
                      {| SignResponse_base :=
                           {| returnCode := returnCode r; errorMessage := errorMessage r |};
                         signature := None |} a) as Hloop
    end.
    cbn [List.length skipn] in *.
    destruct (run (bind _ _) _) as [sent' o']. cbn [fst] in Hsent. subst sent'.
    cbn [fst app sign_schedule]. change (1 + 0) with 1. change (0 + 1) with 1.
    do 3 apply prefix_cons. exact Hloop.
  - cbn [fst app sign_schedule]. apply prefix_cons.
    etransitivity; [exact Hpre|]. change (1 + 0) with 1. do 2 apply prefix_cons. apply prefix_nil.
  - cbn [fst app sign_schedule]. apply prefix_cons.
    etransitivity; [exact Hpre|]. change (1 + 0) with 1. do 2 apply prefix_cons. apply prefix_nil.
Qed.

(** C3 (as the code runs it, through [signSendChunkv1]): a message of 151
    bytes is sent as the path chunk and two payload chunks. When the first
    payload chunk is answered with status BadKeyHandle and a one-byte payload,
    the loop stops (the last chunk is not sent) and [sign] returns that
    result, with the payload as its [signature]. When the path chunk is
    answered with the bare status NoErrors, [sign] raises an error and sends
    no payload chunk. In both runs every response carries a status the
    command it answers lists as acceptable. *)
Theorem sign_aborted_result_carries_payload :
  let version := Ok [x00; x02; x00; x00; x00; x90; x00] in
  let message := replicate 151 x41 in
  let aborted :=
    [version; version; Ok [x41; x90; x00]; version; Ok [x42; x6a; x80];
     version; Ok [x43; x90; x00]] in
  let bare := [version; version; Ok [x90; x00]; version; Ok [x90; x00]] in
  let sign := THORChainApp.sign (H := reference_env) [44; 931; 0; 0; 0] message in
  (List.map ins (fst (run sign aborted)) = [0; 0; 2; 0; 2]
   /\ run_accepted (H := reference_env) (fst (run sign aborted)) aborted = true
   /\ snd (run sign aborted)
      = Some (Ok {| SignResponse_base :=
                      {| returnCode := Num 0x6a80; errorMessage := "Bad key handle : B" |};
                    signature := Some [x42] |}))
  /\ (List.map ins (fst (run sign bare)) = [0; 0; 2]
      /\ run_accepted (H := reference_env) (fst (run sign bare)) bare = true
      /\ snd (run sign bare) = Some (Thrown (LedgerError (Num 0x9000) (Some "No errors")))).
Proof.
  cbv zeta. repeat split; vm_compute; reflexivity.
Qed.

(** * Further properties *)

(** ** Status words *)

(** [response.slice(-2)]: the last two bytes, or the whole of a shorter
    response. *)
Lemma slice_from_last_two (response : Buffer.t) :
  Buffer.slice_from response (Num (-2)) = drop (List.length response - 2) response.
Proof.
  unfold Buffer.slice_from, Buffer.slice, Buffer.adjustOffset.
  change (-2 <? 0) with true. cbv iota.
  assert (Hl : Buffer.length response = Z.of_nat (List.length response)) by reflexivity.
  destruct (Z.ltb_spec (Buffer.length response) 0); [lia|].
  destruct (Z.ltb_spec (Buffer.length response) (Buffer.length response)); [lia|].
  replace (Z.to_nat (Z.max (-2 + Buffer.length response) 0))
    with (List.length response - 2)%nat by lia.
  apply take_ge. rewrite length_drop. lia.
Qed.

Lemma returnCode_of_status (payload : Buffer.t) (hi lo : byte) :
  returnCode_of (payload ++ [hi; lo]) = Num (byte_to_Z hi * 256 + byte_to_Z lo).
Proof.
  unfold returnCode_of. rewrite slice_from_last_two.
  rewrite length_app. cbn [List.length].
  replace (List.length payload + 2 - 2)%nat with (List.length payload) by lia.
  rewrite drop_app_length. reflexivity.
Qed.

Lemma returnCode_of_short (response : Buffer.t) :
  (List.length response < 2)%nat -> returnCode_of response = NaN.
Proof.
  intros Hl. unfold returnCode_of. rewrite slice_from_last_two.
  destruct response as [|b [|c response]]; [reflexivity|reflexivity|].
  cbn [List.length] in Hl. lia.
Qed.

(** X4: The status of a response is the value its last two bytes spell, high
    byte first, a number from 0 to 65535. A response of fewer than two bytes
    has no status (NaN): it equals no status constant, so every operation that
    checks the version raises an error for it. *)
Theorem status_word `{Env} (response : Buffer.t) :
  (forall (payload : Buffer.t) (hi lo : byte),
      response = payload ++ [hi; lo] ->
      returnCode_of response = Num (byte_to_Z hi * 256 + byte_to_Z lo)
      /\ 0 <= byte_to_Z hi * 256 + byte_to_Z lo <= 65535)
  /\ ((List.length response < 2)%nat ->
      returnCode_of response = NaN
      /\ forall (path : list Z) (answers : list (outcome Buffer.t)),
           run (THORChainApp.serializePath path) (Ok response :: answers)
           = ([GET_VERSION_command],
              Some (Thrown (LedgerError NaN (Some (errorCodeToString NaN)))))).
Proof.
  split.
  - intros payload hi lo ->. split; [apply returnCode_of_status|].
    pose proof (byte_to_Z_range hi). pose proof (byte_to_Z_range lo). lia.
  - intros Hl. pose proof (returnCode_of_short response Hl) as E.
    split; [exact E|]. intros path answers.
    rewrite run_serializePath, E. reflexivity.
Qed.

Lemma status_word_witness :
  returnCode_of [x30; x44; x90; x00] = Num 0x9000
  /\ returnCode_of [x90] = NaN.
Proof.
  split.
  - apply (proj1 (status_word (H := reference_env) [x30; x44; x90; x00]) [x30; x44] x90 x00).
    reflexivity.
  - apply (proj2 (status_word (H := reference_env) [x90])). cbn [List.length]. lia.
Defined.

(** ** Path serialization: what is accepted *)

(** [writeUInt32LE] at an offset inside the buffer: it stores the word or
    throws on its value. *)
Lemma writeUInt32LE_cases (buf : Buffer.t) (value offset : Z) :
  0 <= offset -> offset + 4 <= Buffer.length buf ->
  (0 <= value <= 4294967295
   /\ Buffer.writeUInt32LE buf value offset
      = Ok (list_inserts (Z.to_nat offset) (Buffer.bytes_LE32 value) buf))
  \/ (~ 0 <= value <= 4294967295
      /\ Buffer.writeUInt32LE buf value offset = Thrown RangeError).
Proof.
  intros Ho Hl.
  destruct (Z_le_dec 0 value) as [H0|H0]; [destruct (Z_le_dec value 4294967295) as [H1|H1]|].
  - left. split; [lia|]. apply writeUInt32LE_in_range; lia.
  - right. split; [lia|]. apply writeUInt32LE_out_of_range. lia.
  - right. split; [lia|]. apply writeUInt32LE_out_of_range. lia.
Qed.

(** The five writes of [serializePath] on a five-element path: the words in
    order when every write takes its value, a RangeError otherwise. *)
Lemma serializePath_writes (p0 p1 p2 p3 p4 : Z) :
  (path_accepted p0 p1 p2 p3 p4
   /\ helper.serializePath [p0; p1; p2; p3; p4]
      = Ok (Buffer.bytes_LE32 (0x80000000 + p0) ++ Buffer.bytes_LE32 (0x80000000 + p1)
            ++ Buffer.bytes_LE32 (0x80000000 + p2) ++ Buffer.bytes_LE32 p3
            ++ Buffer.bytes_LE32 p4))
  \/ (~ path_accepted p0 p1 p2 p3 p4
      /\ helper.serializePath [p0; p1; p2; p3; p4] = Thrown RangeError).
Proof.
  unfold helper.serializePath, path_get, path_accepted.
  change (negb (Z.of_nat (List.length [p0; p1; p2; p3; p4]) =? 5)) with false.
  cbn [lookup list_lookup default from_option id]. cbv iota.
  repeat
    match goal with
    | |- context [Buffer.writeUInt32LE ?b ?v ?o] =>
        let Hc := fresh "Hc" in
        assert (Hc : 0 <= o /\ o + 4 <= Buffer.length b)
          by (rewrite ?Buffer_length_inserts, ?Buffer_length_alloc by lia; lia);
        destruct (writeUInt32LE_cases b v o (proj1 Hc) (proj2 Hc)) as [[? ->]|[? ->]];
        clear Hc; cbn [outcome_bind];
        [|right; split; [lia|reflexivity]]
    end.
  left. split; [lia|reflexivity].
Qed.

Lemma serializePath_Ok_five (path : list Z) (buf : Buffer.t) :
  helper.serializePath path = Ok buf ->
  exists p0 p1 p2 p3 p4 : Z, path = [p0; p1; p2; p3; p4].
Proof.
  intros E. unfold helper.serializePath in E.
  destruct (Z.eqb_spec (Z.of_nat (List.length path)) 5) as [Hlen|]; [|discriminate].
  destruct path as [|p0 [|p1 [|p2 [|p3 [|p4 [|? ?]]]]]]; try (cbn in Hlen; lia).
  now exists p0, p1, p2, p3, p4.
Qed.

(** What [serializePath] returns has 20 bytes. *)
Lemma serializePath_Ok_length (path : list Z) (buf : Buffer.t) :
  helper.serializePath path = Ok buf -> List.length buf = 20%nat.
Proof.
  intros E. destruct (serializePath_Ok_five path buf E) as (p0 & p1 & p2 & p3 & p4 & ->).
  destruct (serializePath_writes p0 p1 p2 p3 p4) as [[_ E']|[_ E']];
    rewrite E' in E; [|discriminate].
  assert (E3 : forall a b : Buffer.t, Ok a = Ok b -> a = b) by (intros a b Eab; congruence).
  apply E3 in E. subst buf. reflexivity.
Qed.

(** The word of an accepted entry has bit 31 set exactly when the entry is not
    negative. *)
Lemma hardening_bit_iff (p : Z) :
  -2147483648 <= p < 2147483648 ->
  (Z.testbit (0x80000000 + p) 31 = true <-> 0 <= p).
Proof.
  intros Hp. rewrite Z.testbit_true by lia. change (2 ^ 31) with 2147483648.
  split; intros Hb.
  - destruct (Z_le_dec 0 p); [assumption|exfalso].
    rewrite Z.div_small in Hb by lia. discriminate.
  - replace (2147483648 + p) with (p + 1 * 2147483648) by lia.
    rewrite Z.div_add by lia. rewrite Z.div_small by lia. reflexivity.
Qed.

(** X5: for paths whose entries are integers, [serializePath] returns bytes
    for the five-element paths whose entries its writes take, and for no
    other: the first three entries may be any integer from -2^31 to 2^31-1
    (0x80000000 is added before the write), the last two any integer from 0
    to 2^32-1. For such a path the result is the five words in order; the
    word of a negative entry does not have the hardening bit. A five-element
    path of integers with an entry outside these ranges throws a RangeError.
    Numbers that are not integers (NaN, fractions), which [writeUInt32LE]
    does not refuse, are outside the model and outside this statement. *)
Theorem serializePath_accepts_exactly :
  (forall (path : list Z) (buf : Buffer.t),
      helper.serializePath path = Ok buf ->
      List.length buf = 20%nat
      /\ exists p0 p1 p2 p3 p4 : Z,
           path = [p0; p1; p2; p3; p4] /\ path_accepted p0 p1 p2 p3 p4)
  /\ (forall p0 p1 p2 p3 p4 : Z,
         path_accepted p0 p1 p2 p3 p4 ->
         helper.serializePath [p0; p1; p2; p3; p4]
         = Ok (Buffer.bytes_LE32 (0x80000000 + p0) ++ Buffer.bytes_LE32 (0x80000000 + p1)
               ++ Buffer.bytes_LE32 (0x80000000 + p2) ++ Buffer.bytes_LE32 p3
               ++ Buffer.bytes_LE32 p4)
         /\ Forall (fun p => Z.testbit (0x80000000 + p) 31 = true <-> 0 <= p) [p0; p1; p2])
  /\ (forall p0 p1 p2 p3 p4 : Z,
         ~ path_accepted p0 p1 p2 p3 p4 ->
         helper.serializePath [p0; p1; p2; p3; p4] = Thrown RangeError)
  /\ (forall path : list Z, helper_v2.serializePathv2 path = helper.serializePath path).
Proof.
  split; [|split; [|split]].
  - intros path buf E. split; [apply (serializePath_Ok_length path), E|].
    destruct (serializePath_Ok_five path buf E) as (p0 & p1 & p2 & p3 & p4 & ->).
    destruct (serializePath_writes p0 p1 p2 p3 p4) as [[Hacc _]|[_ E']];
      [|rewrite E' in E; discriminate].
    exists p0, p1, p2, p3, p4. split; [reflexivity|exact Hacc].
  - intros p0 p1 p2 p3 p4 Hacc.
    destruct (serializePath_writes p0 p1 p2 p3 p4) as [[_ E]|[Hn _]]; [|contradiction].
    split; [exact E|].
    destruct Hacc as (H0 & H1 & H2 & _).
    repeat constructor; apply hardening_bit_iff; assumption.
  - intros p0 p1 p2 p3 p4 Hn.
    destruct (serializePath_writes p0 p1 p2 p3 p4) as [[Hacc _]|[_ E]];
      [contradiction|exact E].
  - intros path. symmetry. apply serializePath_same.
Qed.

Lemma serializePath_accepts_exactly_witness :
  helper.serializePath [44; 931; -1; 0; 4294967295]
  = Ok [x2c; x00; x00; x80; xa3; x03; x00; x80; xff; xff; xff; x7f;
        x00; x00; x00; x00; xff; xff; xff; xff]
  /\ helper.serializePath [44; 931; 0; -1; 0] = Thrown RangeError.
Proof.
  destruct serializePath_accepts_exactly as (_ & Hacc & Hnot & _). split.
  - destruct (Hacc 44 931 (-1) 0 4294967295) as [E _]; [unfold path_accepted; lia|].
    rewrite E. reflexivity.
  - apply Hnot. unfold path_accepted. lia.
Defined.

(** The four bytes of a word determine it. *)
Lemma bytes_LE32_inj (v w : Z) :
  0 <= v <= 4294967295 -> 0 <= w <= 4294967295 ->
  Buffer.bytes_LE32 v = Buffer.bytes_LE32 w -> v = w.
Proof.
  intros Hv Hw E. unfold Buffer.bytes_LE32 in E.
  injection E as E0 E1 E2 E3.
  rewrite <- (LE32_decode v Hv), <- (LE32_decode w Hw), E0, E1, E2, E3. reflexivity.
Qed.

Lemma word_app_inj (a b : Z) (l m : list byte) :
  Buffer.bytes_LE32 a ++ l = Buffer.bytes_LE32 b ++ m ->
  Buffer.bytes_LE32 a = Buffer.bytes_LE32 b /\ l = m.
Proof. intros E. apply app_inj_1 in E; [exact E|reflexivity]. Qed.

(** X6: two paths of integers that [serializePath] turns into the same bytes
    are the same path: the 20 bytes determine the five integer entries.
    (Fractional entries, which [writeUInt32LE] truncates, are outside the
    model and outside this statement.) *)
Theorem serializePath_injective (path1 path2 : list Z) (buf : Buffer.t) :
  helper.serializePath path1 = Ok buf ->
  helper.serializePath path2 = Ok buf ->
  path1 = path2.
Proof.
  intros E1 E2.
  destruct (serializePath_Ok_five path1 buf E1) as (p0 & p1 & p2 & p3 & p4 & ->).
  destruct (serializePath_Ok_five path2 buf E2) as (q0 & q1 & q2 & q3 & q4 & ->).
  destruct (serializePath_writes p0 p1 p2 p3 p4) as [[(H0 & H1 & H2 & H3 & H4) E]|[_ E]];
    rewrite E in E1; [|discriminate].
  destruct (serializePath_writes q0 q1 q2 q3 q4) as [[(G0 & G1 & G2 & G3 & G4) E']|[_ E']];
    rewrite E' in E2; [|discriminate].
  rewrite <- E2 in E1.
  assert (E3 : forall a b : Buffer.t, Ok a = Ok b -> a = b) by (intros a b Eab; congruence).
  apply E3 in E1. clear E3.
  rewrite <- (app_nil_r (Buffer.bytes_LE32 p4)), <- (app_nil_r (Buffer.bytes_LE32 q4)) in E1.
  apply word_app_inj in E1 as [W0 E1]. apply word_app_inj in E1 as [W1 E1].
  apply word_app_inj in E1 as [W2 E1]. apply word_app_inj in E1 as [W3 E1].
  apply word_app_inj in E1 as [W4 _].
  apply bytes_LE32_inj in W0; [|lia|lia]. apply bytes_LE32_inj in W1; [|lia|lia].
  apply bytes_LE32_inj in W2; [|lia|lia]. apply bytes_LE32_inj in W3; [|lia|lia].
  apply bytes_LE32_inj in W4; [|lia|lia].
  repeat f_equal; lia.
Qed.

Lemma serializePath_injective_witness :
  helper.serializePath [44; 931; 0; 0; 7]
  = Ok [x2c; x00; x00; x80; xa3; x03; x00; x80; x00; x00; x00; x80;
        x00; x00; x00; x00; x07; x00; x00; x00]
  /\ [44; 931; 0; 0; 7] = [44; 931; 0; 0; 7].
Proof.
  split; [reflexivity|].
  apply (serializePath_injective [44; 931; 0; 0; 7] [44; 931; 0; 0; 7]
           [x2c; x00; x00; x80; xa3; x03; x00; x80; x00; x00; x00; x80;
            x00; x00; x00; x00; x07; x00; x00; x00]); reflexivity.
Defined.

(** ** The application-info decoder *)

(** [(x & 2^k) !== 0] on an array element is bit [k] of the element. *)
Lemma band_bit (o : option byte) (k : Z) :
  0 <= k < 8 ->
  negb (band (int_of_element o) (2 ^ k) =? 0) = Z.testbit (int_of_element o) k.
Proof.
  intros Hk. unfold band.
  assert (Hx : 0 <= int_of_element o < 256).
  { destruct o as [b|]; cbn [int_of_element]; [apply byte_to_Z_range|lia]. }
  assert (Hp : 0 < 2 ^ k <= 128).
  { split; [apply Z.pow_pos_nonneg; lia|].
    change 128 with (2 ^ 7). apply Z.pow_le_mono_r; lia. }
  rewrite !ToInt32_small by lia.
  rewrite Z.land_comm.
  destruct (Z.testbit (int_of_element o) k) eqn:Eb.
  - assert (E : Z.land (2 ^ k) (int_of_element o) = 2 ^ k).
    { apply Z.bits_inj'. intros n Hn. rewrite Z.land_spec.
      destruct (Z.eq_dec n k) as [->|Hne].
      - rewrite Eb. apply andb_true_r.
      - rewrite Z.pow2_bits_false by lia. reflexivity. }
    rewrite E. destruct (Z.eqb_spec (2 ^ k) 0); [lia|reflexivity].
  - assert (E : Z.land (2 ^ k) (int_of_element o) = 0).
    { apply Z.bits_inj'. intros n Hn. rewrite Z.land_spec, Z.bits_0.
      destruct (Z.eq_dec n k) as [->|Hne].
      - rewrite Eb. apply andb_false_r.
      - rewrite Z.pow2_bits_false by lia. reflexivity. }
    rewrite E. reflexivity.
Qed.

(** X1: [getAppInfo] on a response in the format it expects (format ID 1, then
    the length-prefixed name, version and flags): the name and the version are
    read as ASCII, [flagLen] is the flags' length byte, [flagsValue] is the
    byte after it whether or not the flags hold a byte, and the four flags are
    bits 0, 1, 2 and 7 of that byte. *)
Theorem getAppInfo_decoder `{Env} (name version flags rest : Buffer.t)
        (answers : list (outcome Buffer.t)) :
  (List.length name < 256)%nat -> (List.length version < 256)%nat ->
  (List.length flags < 256)%nat ->
  let response :=
    [x01; Z_to_byte (Z.of_nat (List.length name))] ++ name
      ++ [Z_to_byte (Z.of_nat (List.length version))] ++ version
      ++ [Z_to_byte (Z.of_nat (List.length flags))] ++ flags ++ rest in
  let flagsValue := (flags ++ rest) !! 0%nat in
  run THORChainApp.getAppInfo (Ok response :: answers)
  = ([getAppInfo_command],
     Some (Ok {| AppInfoResponse_base :=
                   {| returnCode := returnCode_of response;
                      errorMessage := errorCodeToString (returnCode_of response) |};
                 appName := BufferText.toString_ascii name;
                 appVersion := BufferText.toString_ascii version;
                 flagLen := Some (Z.of_nat (List.length flags));
                 flagsValue := byte_to_Z <$> flagsValue;
                 flagRecovery := Z.testbit (int_of_element flagsValue) 0;
                 flagSignedMcuCode := Z.testbit (int_of_element flagsValue) 1;
                 flagOnboarded := Z.testbit (int_of_element flagsValue) 2;
                 flagPINValidated := Z.testbit (int_of_element flagsValue) 7 |})).
Proof.
  intros Hname Hversion Hflags response flagsValue.
  set (nn := Z.of_nat (List.length name)).
  set (nv := Z.of_nat (List.length version)).
  set (nf := Z.of_nat (List.length flags)).
  assert (Bn : byte_to_Z (Z_to_byte nn) = nn)
    by (rewrite byte_to_Z_to_byte; apply Z.mod_small; lia).
  assert (Bv : byte_to_Z (Z_to_byte nv) = nv)
    by (rewrite byte_to_Z_to_byte; apply Z.mod_small; lia).
  assert (Bf : byte_to_Z (Z_to_byte nf) = nf)
    by (rewrite byte_to_Z_to_byte; apply Z.mod_small; lia).
  unfold THORChainApp.getAppInfo. cbn [run try_catch bind send].
  change (Buffer.get response 0) with (Some x01).
  change (Buffer.get response 1) with (Some (Z_to_byte nn)).
  change (element_eqb (Some x01) 1) with true.
  cbn [negb to_number number_add]. rewrite Bn.
  rewrite (get_number_at response ([x01; Z_to_byte nn] ++ name) _ (Z_to_byte nv) (2 + nn))
    by layout response.
  cbn [to_number number_add]. rewrite Bv.
  rewrite (get_number_at response
             ([x01; Z_to_byte nn] ++ name ++ [Z_to_byte nv] ++ version) _ (Z_to_byte nf)
             (2 + nn + 1 + nv)) by layout response.
  rewrite (slice_at response [x01; Z_to_byte nn] name _ 2 (2 + nn))
    by (cbn [List.length]; first [lia | reflexivity]).
  rewrite (slice_at response ([x01; Z_to_byte nn] ++ name ++ [Z_to_byte nv]) version _
             (2 + nn + 1) (2 + nn + 1 + nv)) by layout response.
  assert (Efv : Buffer.get_number response (Num (2 + nn + 1 + nv + 1)) = flagsValue).
  { set (pre := [x01; Z_to_byte nn] ++ name ++ [Z_to_byte nv] ++ version ++ [Z_to_byte nf]).
    assert (Er : response = pre ++ flags ++ rest)
      by (subst response pre; now rewrite <- ?app_assoc).
    assert (El : 2 + nn + 1 + nv + 1 = Z.of_nat (List.length pre))
      by (subst pre; rewrite ?length_app; cbn [List.length]; lia).
    rewrite Er, El. cbn [Buffer.get_number]. rewrite Buffer_get_lookup.
    rewrite lookup_app_r by lia. rewrite Nat.sub_diag. reflexivity. }
  rewrite Efv. cbn [bind try_catch run fmap option_fmap option_map]. rewrite Bf.
  pose proof (band_bit flagsValue 0 ltac:(lia)) as B0. change (2 ^ 0) with 1 in B0.
  pose proof (band_bit flagsValue 1 ltac:(lia)) as B1. change (2 ^ 1) with 2 in B1.
  pose proof (band_bit flagsValue 2 ltac:(lia)) as B2. change (2 ^ 2) with 4 in B2.
  pose proof (band_bit flagsValue 7 ltac:(lia)) as B7. change (2 ^ 7) with 128 in B7.
  rewrite B0, B1, B2, B7. reflexivity.
Qed.

Lemma getAppInfo_decoder_witness :
  run (THORChainApp.getAppInfo (H := reference_env))
      [Ok ([x01; x09; x54; x48; x4f; x52; x43; x68; x61; x69; x6e;
            x05; x32; x2e; x30; x2e; x30; x01; x82; x90; x00])]
  = ([getAppInfo_command],
     Some (Ok {| AppInfoResponse_base :=
                   {| returnCode := Num 0x9000; errorMessage := "No errors" |};
                 appName := "THORChain";
                 appVersion := "2.0.0";
                 flagLen := Some 1;
                 flagsValue := Some 0x82;
                 flagRecovery := false;
                 flagSignedMcuCode := true;
                 flagOnboarded := false;
                 flagPINValidated := true |})).
Proof.
  apply (getAppInfo_decoder (H := reference_env)
           [x54; x48; x4f; x52; x43; x68; x61; x69; x6e] [x32; x2e; x30; x2e; x30]
           [x82] [x90; x00] []); cbn [List.length]; lia.
Defined.

(** X2: A response is decoded only when its first byte is the format ID 1; the
    error raised for any other response goes through the [catch] clause like an
    exception of the transport. *)
Theorem getAppInfo_format_id `{Env} (answers : list (outcome Buffer.t)) :
  (forall response : Buffer.t,
      response !! 0%nat = Some x01 ->
      exists info : AppInfoResponse,
        run THORChainApp.getAppInfo (Ok response :: answers)
        = ([getAppInfo_command], Some (Ok info))
        /\ returnCode info = returnCode_of response)
  /\ (forall response : Buffer.t,
         response !! 0%nat <> Some x01 ->
         run THORChainApp.getAppInfo (Ok response :: answers)
         = ([getAppInfo_command],
            Some (Thrown (ledgerErrorFromResponse
                            (LedgerError (Num (LedgerErrorType_value DeviceIsBusy))
                               (Some "response format ID not recognized"))))))
  /\ (forall e : exception,
         run THORChainApp.getAppInfo (Thrown e :: answers)
         = ([getAppInfo_command], Some (Thrown (ledgerErrorFromResponse e)))).
Proof.
  assert (Hid : forall response : Buffer.t,
             element_eqb (Buffer.get response 0) 1 = true <-> response !! 0%nat = Some x01).
  { intros response. change (Buffer.get response 0) with (response !! 0%nat).
    unfold element_eqb. destruct (response !! 0%nat) as [b|]; split; intros E; try discriminate.
    - apply Z.eqb_eq in E. f_equal. apply byte_to_Z_inj. rewrite E. reflexivity.
    - injection E as ->. reflexivity. }
  split; [|split].
  - intros response Hfirst. apply Hid in Hfirst.
    unfold THORChainApp.getAppInfo. cbn [run try_catch bind send].
    rewrite Hfirst. cbn [negb bind try_catch run].
    eexists. split; reflexivity.
  - intros response Hfirst.
    unfold THORChainApp.getAppInfo. cbn [run try_catch bind send].
    destruct (element_eqb (Buffer.get response 0) 1) eqn:E.
    + apply Hid in E. contradiction.
    + reflexivity.
  - intros e. reflexivity.
Qed.

Lemma getAppInfo_format_id_witness :
  run (THORChainApp.getAppInfo (H := reference_env)) [Ok [x02; x90; x00]]
  = ([getAppInfo_command],
     Some (Thrown (LedgerError (Num 0x9001) (Some "response format ID not recognized"))))
  /\ run (THORChainApp.getAppInfo (H := reference_env)) [Ok []]
     = ([getAppInfo_command],
        Some (Thrown (LedgerError (Num 0x9001) (Some "response format ID not recognized")))).
Proof.
  destruct (getAppInfo_format_id (H := reference_env) []) as (_ & Hbad & _).
  split; apply Hbad; discriminate.
Defined.

(** ** The public-key decoders *)

(** [buf.slice(0, n)] is the first [n] bytes, all of a shorter buffer. *)
Lemma slice_head (buf : Buffer.t) (n : Z) :
  0 <= n -> Buffer.slice buf (Num 0) (Num n) = take (Z.to_nat n) buf.
Proof.
  intros Hn. unfold Buffer.slice, Buffer.adjustOffset.
  assert (Hl : Buffer.length buf = Z.of_nat (List.length buf)) by reflexivity.
  change (0 <? 0) with false. cbv iota.
  destruct (Z.ltb_spec n 0); [lia|].
  destruct (Z.ltb_spec 0 (Buffer.length buf)), (Z.ltb_spec n (Buffer.length buf)).
  - rewrite Z.sub_0_r. reflexivity.
  - rewrite Z.sub_0_r, drop_0, !take_ge by lia. reflexivity.
  - lia.
  - assert (List.length buf = 0%nat) as E by lia.
    apply length_zero_iff_nil in E. subst buf. now rewrite drop_nil, !take_nil.
Qed.

(** The public-key decoder of [src/index.ts] against a response. *)
Lemma run_publicKeyv2 `{Env} (data response : Buffer.t) (answers : list (outcome Buffer.t)) :
  run (helper_v2.publicKeyv2 data) (Ok response :: answers)
  = ([publicKey_command data],
     Some (Ok {| helper_v2.pk := "OBSOLETE PROPERTY";
                 helper_v2.compressed_pk := take 33 response;
                 helper_v2.return_code := returnCode_of response;
                 helper_v2.error_message := errorCodeToString (returnCode_of response) |})).
Proof.
  unfold helper_v2.publicKeyv2. cbn [run try_catch bind send].
  rewrite slice_head by lia. reflexivity.
Qed.

(** X3: Both public-key decoders send the same query and return the first 33
    bytes of the response as the key and the value of its last two bytes as the
    return code. With at least 35 bytes the key has 33 bytes and stops before
    the status; a response of at most 33 bytes is returned whole as the key,
    status bytes included. An exception of the transport is translated once. *)
Theorem publicKey_decoders `{Env} (data response : Buffer.t)
        (answers : list (outcome Buffer.t)) :
  let rc := returnCode_of response in
  run (helper.getPublicKey data) (Ok response :: answers)
  = ([publicKey_command data],
     Some (Ok {| helper.compressedPk := take 33 response;
                 helper.PubKeyResponse_base :=
                   {| returnCode := rc; errorMessage := errorCodeToString rc |} |}))
  /\ run (helper_v2.publicKeyv2 data) (Ok response :: answers)
     = ([publicKey_command data],
        Some (Ok {| helper_v2.pk := "OBSOLETE PROPERTY";
                    helper_v2.compressed_pk := take 33 response;
                    helper_v2.return_code := rc;
                    helper_v2.error_message := errorCodeToString rc |}))
  /\ ((35 <= List.length response)%nat ->
      List.length (take 33 response) = 33%nat
      /\ exists rest : Buffer.t,
           response = take 33 response ++ rest ++ drop (List.length response - 2) response)
  /\ ((List.length response <= 33)%nat -> take 33 response = response)
  /\ (forall e : exception,
         run (helper.getPublicKey data) (Thrown e :: answers)
         = ([publicKey_command data], Some (Thrown (ledgerErrorFromResponse e)))
         /\ run (helper_v2.publicKeyv2 data) (Thrown e :: answers)
            = ([publicKey_command data], Some (Thrown (ledgerErrorFromResponse e)))).
Proof.
  intros rc. split; [|split; [|split; [|split]]].
  - unfold helper.getPublicKey. cbn [run try_catch bind send].
    rewrite slice_head by lia. reflexivity.
  - apply run_publicKeyv2.
  - intros Hlen. split; [rewrite length_take; lia|].
    exists (take (List.length response - 35) (drop 33 response)).
    rewrite <- (take_drop 33 response) at 1. f_equal.
    rewrite <- (take_drop (List.length response - 35) (drop 33 response)) at 1. f_equal.
    rewrite drop_drop. f_equal. lia.
  - intros Hlen. apply take_ge. lia.
  - intros e. split; reflexivity.
Qed.

Lemma publicKey_decoders_witness :
  snd (run (helper.getPublicKey (H := reference_env) [x04; x74; x68; x6f; x72])
           [Ok [x02; x03; x90; x00]])
  = Some (Ok {| helper.compressedPk := [x02; x03; x90; x00];
                helper.PubKeyResponse_base :=
                  {| returnCode := Num 0x9000; errorMessage := "No errors" |} |})
  /\ take 33 [x02; x03; x90; x00] = [x02; x03; x90; x00].
Proof.
  destruct (publicKey_decoders (H := reference_env) [x04; x74; x68; x6f; x72]
              [x02; x03; x90; x00] []) as (E & _ & _ & Hshort & _).
  split.
  - rewrite E. reflexivity.
  - apply Hshort. cbn [List.length]. lia.
Defined.

(** ** The device-info decoder on a truncated response *)

(** X20: [deviceInfo] on a response of at most four bytes whose status is not
    0x6E00: no error is raised; the target ID is the hexadecimal text of the
    whole response, status bytes included, and the three other fields are the
    text of empty fields. *)
Theorem deviceInfo_truncated `{Env} (response : Buffer.t) (answers : list (outcome Buffer.t)) :
  (List.length response <= 4)%nat ->
  returnCode_of response <> Num 0x6e00 ->
  run THORChainApp.deviceInfo (Ok response :: answers)
  = ([deviceInfo_command],
     Some (Ok {| THORChainApp.return_code := returnCode_of response;
                 THORChainApp.error_message := errorCodeToString (returnCode_of response);
                 THORChainApp.device :=
                   Some {| THORChainApp.targetId := BufferText.toString_hex response;
                           THORChainApp.seVersion := toString_utf8 [];
                           THORChainApp.flag := "";
                           THORChainApp.mcuVersion := toString_utf8 [] |} |})).
Proof.
  intros Hlen Hrc. apply number_eqb_false in Hrc.
  unfold THORChainApp.deviceInfo. cbn [run try_catch bind send]. rewrite Hrc.
  fold deviceInfo_command.
  rewrite slice_head by lia. rewrite take_ge by (change (Z.to_nat 4) with 4%nat; lia).
  assert (E4 : Buffer.get_number response (Num 4) = None).
  { cbn [Buffer.get_number]. change 4 with (Z.of_nat 4). rewrite Buffer_get_lookup.
    apply lookup_ge_None. lia. }
  rewrite E4. cbn [to_number number_add Buffer.get_number].
  assert (E5 : Buffer.slice response (Num (4 + 1)) NaN = []).
  { unfold Buffer.slice, Buffer.adjustOffset.
    assert (Hl : Buffer.length response = Z.of_nat (List.length response)) by reflexivity.
    destruct (Z.ltb_spec (4 + 1) 0); [lia|].
    destruct (Z.ltb_spec (4 + 1) (Buffer.length response)); [lia|].
    replace (Z.to_nat (0 - Buffer.length response)) with 0%nat by lia. reflexivity. }
  rewrite E5.
  assert (En : Buffer.slice response NaN NaN = []) by reflexivity.
  rewrite En. cbn [element_eqb Buffer.get_number]. reflexivity.
Qed.

Lemma deviceInfo_truncated_witness :
  run (THORChainApp.deviceInfo (H := reference_env)) [Ok [x90; x00]]
  = ([deviceInfo_command (H := reference_env)],
     Some (Ok {| THORChainApp.return_code := Num 0x9000;
                 THORChainApp.error_message := "No errors";
                 THORChainApp.device :=
                   Some {| THORChainApp.targetId := "9000";
                           THORChainApp.seVersion := "";
                           THORChainApp.flag := "";
                           THORChainApp.mcuVersion := "" |} |})).
Proof.
  apply (deviceInfo_truncated (H := reference_env) [x90; x00] []).
  - cbn [List.length]. lia.
  - discriminate.
Defined.

(** ** The public-key operation *)

(** [serializePath] against the version response of a version-2 app that
    reports NoErrors: the version query, then the outcome of the
    serializer. *)
Lemma run_serializePath_v2 `{Env} (path : list Z) (first : Buffer.t)
      (answers : list (outcome Buffer.t)) :
  returnCode_of first = Num (LedgerErrorType_value NoErrors) ->
  first !! 1%nat = Some x02 ->
  run (THORChainApp.serializePath path) (Ok first :: answers)
  = ([GET_VERSION_command], Some (helper_v2.serializePathv2 path)).
Proof.
  intros Hrc Hmaj. rewrite run_serializePath.
  apply number_eqb_true in Hrc. apply major_is_2 in Hmaj. rewrite Hrc, Hmaj. reflexivity.
Qed.

(** [getVersion] against a response whose major version is 2. *)
Lemma run_getVersion_v2 `{Env} (second : Buffer.t) (answers : list (outcome Buffer.t)) :
  second !! 1%nat = Some x02 ->
  exists v : VersionResponse,
    run THORChainApp.getVersion (Ok second :: answers) = ([GET_VERSION_command], Some (Ok v))
    /\ major v = Some 2.
Proof.
  intros Hmaj. destruct (run_getVersion_Ok second answers) as (v & E & _ & _ & Emaj).
  exists v. split; [exact E|]. rewrite Emaj, Hmaj. reflexivity.
Qed.

Lemma serializeHRP_thor `{Env} :
  THORChainApp.serializeHRP (Some "thor") = Ok [x04; x74; x68; x6f; x72].
Proof. reflexivity. Qed.

(** X7: [publicKey] for a version-2 app: two version queries (the second one
    only looks at the major version), then the key query, whose data are the
    serialized prefix "thor" followed by the serialized path, 25 bytes; the key
    is the first 33 bytes of the answer. *)
Theorem publicKey_query `{Env} (path : list Z) (serializedPath first second response : Buffer.t)
        (answers : list (outcome Buffer.t)) :
  returnCode_of first = Num (LedgerErrorType_value NoErrors) ->
  first !! 1%nat = Some x02 ->
  second !! 1%nat = Some x02 ->
  helper_v2.serializePathv2 path = Ok serializedPath ->
  let data := [x04; x74; x68; x6f; x72] ++ serializedPath in
  run (THORChainApp.publicKey path) (Ok first :: Ok second :: Ok response :: answers)
  = ([GET_VERSION_command; GET_VERSION_command; publicKey_command data],
     Some (Ok {| helper_v2.pk := "OBSOLETE PROPERTY";
                 helper_v2.compressed_pk := take 33 response;
                 helper_v2.return_code := returnCode_of response;
                 helper_v2.error_message := errorCodeToString (returnCode_of response) |}))
  /\ List.length data = 25%nat.
Proof.
  intros Hrc Hmaj1 Hmaj2 Hsp data. split.
  - unfold THORChainApp.publicKey.
    rewrite run_bind, run_try_catch, run_bind, (run_serializePath_v2 path first _ Hrc Hmaj1), Hsp.
    cbn [List.length skipn]. rewrite run_bind.
    destruct (run_getVersion_v2 second (Ok response :: answers) Hmaj2) as (v & -> & ->).
    cbn [List.length skipn]. rewrite run_bind, run_lift, serializeHRP_thor.
    cbn [List.length skipn drop run app].
    unfold Buffer.concat. cbn [List.concat]. rewrite app_nil_r. fold data.
    rewrite run_publicKeyv2. reflexivity.
  - subst data. rewrite length_app. cbn [List.length].
    rewrite <- serializePath_same in Hsp.
    rewrite (serializePath_Ok_length path serializedPath Hsp). reflexivity.
Qed.

Lemma publicKey_query_witness :
  run (THORChainApp.publicKey (H := reference_env) [44; 931; 0; 0; 0])
      [Ok [x00; x02; x00; x00; x00; x90; x00]; Ok [x00; x02; x00; x00; x00; x90; x00];
       Ok (replicate 33 x03 ++ [x90; x00])]
  = ([GET_VERSION_command (H := reference_env); GET_VERSION_command (H := reference_env);
      publicKey_command (H := reference_env)
        ([x04; x74; x68; x6f; x72]
           ++ [x2c; x00; x00; x80; xa3; x03; x00; x80; x00; x00; x00; x80;
               x00; x00; x00; x00; x00; x00; x00; x00])],
     Some (Ok {| helper_v2.pk := "OBSOLETE PROPERTY";
                 helper_v2.compressed_pk := replicate 33 x03;
                 helper_v2.return_code := Num 0x9000;
                 helper_v2.error_message := "No errors" |})).
Proof.
  apply (publicKey_query (H := reference_env) [44; 931; 0; 0; 0]
           [x2c; x00; x00; x80; xa3; x03; x00; x80; x00; x00; x00; x80;
            x00; x00; x00; x00; x00; x00; x00; x00]
           [x00; x02; x00; x00; x00; x90; x00] [x00; x02; x00; x00; x00; x90; x00]
           (replicate 33 x03 ++ [x90; x00]) []); reflexivity.
Defined.

(** X8: An exception reaches the caller of [publicKey] translated once when the
    key query raised it, twice when a version query raised it; what the path
    serializer throws is translated once. *)
Theorem publicKey_error_translation `{Env} (path : list Z) :
  (forall (e : exception) (answers : list (outcome Buffer.t)),
      run (THORChainApp.publicKey path) (Thrown e :: answers)
      = ([GET_VERSION_command],
         Some (Thrown (ledgerErrorFromResponse (ledgerErrorFromResponse e)))))
  /\ (forall (first : Buffer.t) (answers : list (outcome Buffer.t)),
         returnCode_of first = Num (LedgerErrorType_value NoErrors) ->
         first !! 1%nat = Some x02 ->
         (forall thrown : exception,
             helper_v2.serializePathv2 path = Thrown thrown ->
             run (THORChainApp.publicKey path) (Ok first :: answers)
             = ([GET_VERSION_command], Some (Thrown (ledgerErrorFromResponse thrown))))
         /\ (forall (serializedPath : Buffer.t) (e : exception),
                helper_v2.serializePathv2 path = Ok serializedPath ->
                run (THORChainApp.publicKey path) (Ok first :: Thrown e :: answers)
                = ([GET_VERSION_command; GET_VERSION_command],
                   Some (Thrown (ledgerErrorFromResponse (ledgerErrorFromResponse e)))))
         /\ (forall (serializedPath second : Buffer.t) (e : exception),
                helper_v2.serializePathv2 path = Ok serializedPath ->
                second !! 1%nat = Some x02 ->
                run (THORChainApp.publicKey path) (Ok first :: Ok second :: Thrown e :: answers)
                = ([GET_VERSION_command; GET_VERSION_command;
                    publicKey_command ([x04; x74; x68; x6f; x72] ++ serializedPath)],
                   Some (Thrown (ledgerErrorFromResponse e))))).
Proof.
  split.
  - intros e answers. unfold THORChainApp.publicKey.
    rewrite run_bind, run_try_catch, run_bind, run_serializePath_Thrown. reflexivity.
  - intros first answers Hrc Hmaj1. split; [|split].
    + intros thrown Hsp. unfold THORChainApp.publicKey.
      rewrite run_bind, run_try_catch, run_bind,
        (run_serializePath_v2 path first _ Hrc Hmaj1), Hsp.
      reflexivity.
    + intros sp e Hsp. unfold THORChainApp.publicKey.
      rewrite run_bind, run_try_catch, run_bind,
        (run_serializePath_v2 path first _ Hrc Hmaj1), Hsp.
      cbn [List.length skipn]. rewrite run_bind, run_getVersion_Thrown. reflexivity.
    + intros sp second e Hsp Hmaj2. unfold THORChainApp.publicKey.
      rewrite run_bind, run_try_catch, run_bind,
        (run_serializePath_v2 path first _ Hrc Hmaj1), Hsp.
      cbn [List.length skipn]. rewrite run_bind.
      destruct (run_getVersion_v2 second (Thrown e :: answers) Hmaj2) as (v & -> & ->).
      cbn [List.length skipn]. rewrite run_bind, run_lift, serializeHRP_thor.
      cbn [List.length skipn drop run app].
      unfold Buffer.concat. cbn [List.concat]. rewrite app_nil_r. reflexivity.
Qed.

Lemma publicKey_error_translation_witness :
  run (THORChainApp.publicKey (H := reference_env) [44; 931; 0])
      [Ok [x00; x02; x00; x00; x00; x90; x00]]
  = ([GET_VERSION_command (H := reference_env)], Some (Thrown (Error "Invalid path.")))
  /\ run (THORChainApp.publicKey (H := reference_env) [44; 931; 0; 0; 0])
         [Ok [x00; x02; x00; x00; x00; x90; x00]; Thrown (TransportStatusError 0x6985)]
     = ([GET_VERSION_command (H := reference_env); GET_VERSION_command (H := reference_env)],
        Some (Thrown (LedgerError (Num 0x6985) (Some "Unknown error code")))).
Proof.
  destruct (publicKey_error_translation (H := reference_env) [44; 931; 0]) as [_ Hshort].
  destruct (publicKey_error_translation (H := reference_env) [44; 931; 0; 0; 0]) as [_ Hfull].
  split.
  - destruct (Hshort [x00; x02; x00; x00; x00; x90; x00] []) as (Hthrown & _);
      [reflexivity|reflexivity|].
    apply (Hthrown (Error "Invalid path.")). reflexivity.
  - destruct (Hfull [x00; x02; x00; x00; x00; x90; x00] []) as (_ & Hsecond & _);
      [reflexivity|reflexivity|].
    apply (Hsecond [x2c; x00; x00; x80; xa3; x03; x00; x80; x00; x00; x00; x80;
                    x00; x00; x00; x00; x00; x00; x00; x00]). reflexivity.
Defined.

(** ** Address queries: errors and payload *)

Lemma serializeHRP_rejects `{Env} (hrp : option string) :
  hrp = None
  \/ (exists s, hrp = Some s /\ (String.length s < 3 \/ 83 < String.length s)%nat) ->
  THORChainApp.serializeHRP hrp
  = Thrown (LedgerError (Num (LedgerErrorType_value HPRInvalid)) None).
Proof.
  intros [->|(s & -> & Hs)]; [reflexivity|].
  unfold THORChainApp.serializeHRP.
  destruct (Z.ltb_spec (Z.of_nat (String.length s)) 3),
           (Z.ltb_spec 83 (Z.of_nat (String.length s)));
    try lia; reflexivity.
Qed.

(** The bytes of an accepted prefix of 7-bit characters. *)
Lemma serializeHRP_ascii `{Env} (s : string) :
  (3 <= String.length s <= 83)%nat -> is_ascii s ->
  THORChainApp.serializeHRP (Some s)
  = Ok (Z_to_byte (Z.of_nat (String.length s)) :: bytes_of_string s).
Proof.
  intros Hl Ha. destruct (serializeHRP_accepts s Hl) as [-> _]. f_equal.
  rewrite list_inserts_cons. cbn [drop]. f_equal.
  rewrite utf8Write_ascii by (auto; lia).
  rewrite <- (app_nil_r (replicate _ _)).
  rewrite list_inserts_0_r, app_nil_r; [reflexivity|].
  unfold bytes_of_string.
  rewrite length_map, String_length_list, length_replicate. reflexivity.
Qed.

(** The run of an address query up to its answer. *)
Lemma run_address_query `{Env} (p : P1_VALUES) (path : list Z) (hrp : option string)
      (first : Buffer.t) (answers : list (outcome Buffer.t)) (query : Async THORChainApp.AddressResponse) :
  query = THORChainApp.getAddressAndPubKey path hrp /\ p = ONLY_RETRIEVE
  \/ query = THORChainApp.showAddressAndPubKey path hrp /\ p = SHOW_ADDRESS_IN_DEVICE ->
  returnCode_of first = Num (LedgerErrorType_value NoErrors) ->
  first !! 1%nat = Some x02 ->
  run query (Ok first :: answers)
  = match helper_v2.serializePathv2 path with
    | Thrown thrown => ([GET_VERSION_command], Some (Thrown thrown))
    | Ok serializedPath =>
        match THORChainApp.serializeHRP hrp with
        | Thrown thrown => ([GET_VERSION_command], Some (Thrown thrown))
        | Ok serializedHRP =>
            let command := address_command p (serializedHRP ++ serializedPath) in
            match answers with
            | [] => ([GET_VERSION_command; command], None)
            | Thrown e :: _ => ([GET_VERSION_command; command], Some (Thrown e))
            | Ok response :: _ =>
                ([GET_VERSION_command; command],
                 Some (Ok {| THORChainApp.bech32_address :=
                               toString_utf8 (Buffer.slice response (Num 33) (Num (-2)));
                             THORChainApp.compressed_pk := Buffer.slice response (Num 0) (Num 33);
                             THORChainApp.AddressResponse_base :=
                               {| returnCode := returnCode_of response;
                                  errorMessage := errorCodeToString (returnCode_of response) |} |}))
            end
        end
    end.
Proof.
  intros Hq Hrc Hmaj.
  destruct Hq as [[-> ->]|[-> ->]];
    unfold THORChainApp.getAddressAndPubKey, THORChainApp.showAddressAndPubKey;
    rewrite run_bind, (run_serializePath_v2 path first _ Hrc Hmaj);
    (destruct (helper_v2.serializePathv2 path) as [sp|thrown]; [|reflexivity]);
    rewrite run_bind, run_lift;
    (destruct (THORChainApp.serializeHRP hrp) as [sh|thrown]; [|reflexivity]);
    cbn [List.length skipn drop app]; unfold Buffer.concat; cbn [List.concat];
    rewrite app_nil_r;
    destruct answers as [|[response|e] answers]; reflexivity.
Qed.

(** X9: An invalid prefix is refused after the version query and before any
    address query is sent; an exception of the transport on the address query
    reaches the caller as it is, without translation. *)
Theorem address_query_errors `{Env} (path : list Z) (hrp : option string)
        (first serializedPath : Buffer.t) (answers : list (outcome Buffer.t)) :
  returnCode_of first = Num (LedgerErrorType_value NoErrors) ->
  first !! 1%nat = Some x02 ->
  helper_v2.serializePathv2 path = Ok serializedPath ->
  (hrp = None
   \/ (exists s, hrp = Some s /\ (String.length s < 3 \/ 83 < String.length s)%nat) ->
   let invalid := LedgerError (Num (LedgerErrorType_value HPRInvalid)) None in
   run (THORChainApp.getAddressAndPubKey path hrp) (Ok first :: answers)
   = ([GET_VERSION_command], Some (Thrown invalid))
   /\ run (THORChainApp.showAddressAndPubKey path hrp) (Ok first :: answers)
      = ([GET_VERSION_command], Some (Thrown invalid)))
  /\ (forall (serializedHRP : Buffer.t) (e : exception),
         THORChainApp.serializeHRP hrp = Ok serializedHRP ->
         run (THORChainApp.getAddressAndPubKey path hrp) (Ok first :: Thrown e :: answers)
         = ([GET_VERSION_command;
             address_command ONLY_RETRIEVE (serializedHRP ++ serializedPath)],
            Some (Thrown e))
         /\ run (THORChainApp.showAddressAndPubKey path hrp) (Ok first :: Thrown e :: answers)
            = ([GET_VERSION_command;
                address_command SHOW_ADDRESS_IN_DEVICE (serializedHRP ++ serializedPath)],
               Some (Thrown e))).
Proof.
  intros Hrc Hmaj Hsp. split.
  - intros Hbad invalid. apply serializeHRP_rejects in Hbad.
    rewrite (run_address_query ONLY_RETRIEVE path hrp first answers _
               (or_introl (conj eq_refl eq_refl)) Hrc Hmaj).
    rewrite (run_address_query SHOW_ADDRESS_IN_DEVICE path hrp first answers _
               (or_intror (conj eq_refl eq_refl)) Hrc Hmaj).
    rewrite Hsp, Hbad. split; reflexivity.
  - intros sh e Hsh.
    rewrite (run_address_query ONLY_RETRIEVE path hrp first (Thrown e :: answers) _
               (or_introl (conj eq_refl eq_refl)) Hrc Hmaj).
    rewrite (run_address_query SHOW_ADDRESS_IN_DEVICE path hrp first (Thrown e :: answers) _
               (or_intror (conj eq_refl eq_refl)) Hrc Hmaj).
    rewrite Hsp, Hsh. split; reflexivity.
Qed.

Lemma address_query_errors_witness :
  run (THORChainApp.getAddressAndPubKey (H := reference_env) [44; 931; 0; 0; 0] (Some "th"))
      [Ok [x00; x02; x00; x00; x00; x90; x00]]
  = ([GET_VERSION_command (H := reference_env)], Some (Thrown (LedgerError (Num 6) None)))
  /\ snd (run (THORChainApp.getAddressAndPubKey (H := reference_env) [44; 931; 0; 0; 0]
                 (Some "thor"))
              [Ok [x00; x02; x00; x00; x00; x90; x00]; Thrown (TransportStatusError 0x6985)])
     = Some (Thrown (TransportStatusError 0x6985)).
Proof.
  split.
  - destruct (address_query_errors (H := reference_env) [44; 931; 0; 0; 0] (Some "th")
                [x00; x02; x00; x00; x00; x90; x00]
                [x2c; x00; x00; x80; xa3; x03; x00; x80; x00; x00; x00; x80;
                 x00; x00; x00; x00; x00; x00; x00; x00] [])
      as [Hbad _]; [reflexivity|reflexivity|reflexivity|].
    apply Hbad. right. exists "th". split; [reflexivity|]. left. cbn. lia.
  - destruct (address_query_errors (H := reference_env) [44; 931; 0; 0; 0] (Some "thor")
                [x00; x02; x00; x00; x00; x90; x00]
                [x2c; x00; x00; x80; xa3; x03; x00; x80; x00; x00; x00; x80;
                 x00; x00; x00; x00; x00; x00; x00; x00] [])
      as [_ Hraw]; [reflexivity|reflexivity|reflexivity|].
    destruct (Hraw [x04; x74; x68; x6f; x72] (TransportStatusError 0x6985)) as [E _];
      [reflexivity|].
    rewrite E. reflexivity.
Defined.

(** X10: The data of an address query: the length of the prefix, its
    characters, and the five words of the path. *)
Theorem address_query_data `{Env} (s : string) (p0 p1 p2 p3 p4 : Z) (first : Buffer.t) :
  (3 <= String.length s <= 83)%nat ->
  is_ascii s ->
  path_accepted p0 p1 p2 p3 p4 ->
  returnCode_of first = Num (LedgerErrorType_value NoErrors) ->
  first !! 1%nat = Some x02 ->
  let data :=
    [Z_to_byte (Z.of_nat (String.length s))] ++ bytes_of_string s
      ++ Buffer.bytes_LE32 (0x80000000 + p0) ++ Buffer.bytes_LE32 (0x80000000 + p1)
      ++ Buffer.bytes_LE32 (0x80000000 + p2) ++ Buffer.bytes_LE32 p3
      ++ Buffer.bytes_LE32 p4 in
  run (THORChainApp.getAddressAndPubKey [p0; p1; p2; p3; p4] (Some s)) [Ok first]
  = ([GET_VERSION_command; address_command ONLY_RETRIEVE data], None)
  /\ run (THORChainApp.showAddressAndPubKey [p0; p1; p2; p3; p4] (Some s)) [Ok first]
     = ([GET_VERSION_command; address_command SHOW_ADDRESS_IN_DEVICE data], None)
  /\ List.length data = (21 + String.length s)%nat.
Proof.
  intros Hl Ha Hacc Hrc Hmaj data.
  destruct (serializePath_writes p0 p1 p2 p3 p4) as [[_ Esp]|[Hn _]]; [|contradiction].
  rewrite serializePath_same in Esp.
  split; [|split].
  - rewrite (run_address_query ONLY_RETRIEVE _ _ first [] _
               (or_introl (conj eq_refl eq_refl)) Hrc Hmaj).
    rewrite Esp, (serializeHRP_ascii s Hl Ha). reflexivity.
  - rewrite (run_address_query SHOW_ADDRESS_IN_DEVICE _ _ first [] _
               (or_intror (conj eq_refl eq_refl)) Hrc Hmaj).
    rewrite Esp, (serializeHRP_ascii s Hl Ha). reflexivity.
  - subst data. rewrite !length_app. unfold bytes_of_string, Buffer.bytes_LE32.
    rewrite length_map, String_length_list. cbn [List.length]. lia.
Qed.

Lemma address_query_data_witness :
  fst (run (THORChainApp.getAddressAndPubKey (H := reference_env) [44; 931; 0; 0; 0]
             (Some "thor"))
          [Ok [x00; x02; x00; x00; x00; x90; x00]])
  = [GET_VERSION_command (H := reference_env);
     address_command (H := reference_env) ONLY_RETRIEVE
       [x04; x74; x68; x6f; x72;
        x2c; x00; x00; x80; xa3; x03; x00; x80; x00; x00; x00; x80;
        x00; x00; x00; x00; x00; x00; x00; x00]].
Proof.
  destruct (address_query_data (H := reference_env) "thor" 44 931 0 0 0
              [x00; x02; x00; x00; x00; x90; x00]) as (E & _ & _).
  - cbn. lia.
  - repeat constructor.
  - unfold path_accepted. lia.
  - reflexivity.
  - reflexivity.
  - rewrite E. reflexivity.
Defined.

(** The bytes of a string determine it. *)
Lemma bytes_of_string_inj (s1 s2 : string) :
  bytes_of_string s1 = bytes_of_string s2 -> s1 = s2.
Proof.
  unfold bytes_of_string. intros E.
  rewrite <- (string_of_list_ascii_of_string s1), <- (string_of_list_ascii_of_string s2).
  f_equal. revert E.
  generalize (list_ascii_of_string s1) (list_ascii_of_string s2).
  induction l as [|c l IH]; intros [|c' l'] E; try discriminate; [reflexivity|].
  cbn [List.map] in E. injection E as Ec El.
  f_equal; [|apply IH, El].
  apply (f_equal byte_to_Z) in Ec. rewrite !byte_to_Z_to_byte in Ec.
  unfold ascii_to_Z in Ec.
  pose proof (N_ascii_bounded c). pose proof (N_ascii_bounded c').
  rewrite !Z.mod_small in Ec by lia.
  rewrite <- (ascii_N_embedding c), <- (ascii_N_embedding c'). f_equal. lia.
Qed.

(** X22: The data of an address query can be read back: the length byte frames
    the prefix, so two queries with the same data carry the same prefix and the
    same 20 path bytes. *)
Theorem address_query_data_unambiguous `{Env} (s1 s2 : string)
        (path1 path2 : list Z) (hrp1 hrp2 bytes1 bytes2 : Buffer.t) :
  (3 <= String.length s1 <= 83)%nat -> is_ascii s1 ->
  (3 <= String.length s2 <= 83)%nat -> is_ascii s2 ->
  THORChainApp.serializeHRP (Some s1) = Ok hrp1 ->
  THORChainApp.serializeHRP (Some s2) = Ok hrp2 ->
  helper_v2.serializePathv2 path1 = Ok bytes1 ->
  helper_v2.serializePathv2 path2 = Ok bytes2 ->
  Buffer.concat [hrp1; bytes1] = Buffer.concat [hrp2; bytes2] ->
  s1 = s2 /\ bytes1 = bytes2.
Proof.
  intros Hl1 Ha1 Hl2 Ha2 Eh1 Eh2 Ep1 Ep2 Edata.
  rewrite (serializeHRP_ascii s1 Hl1 Ha1) in Eh1.
  rewrite (serializeHRP_ascii s2 Hl2 Ha2) in Eh2.
  assert (Einj : forall a b : Buffer.t, Ok a = Ok b -> a = b) by (intros a b E; congruence).
  apply Einj in Eh1, Eh2. subst hrp1 hrp2.
  unfold Buffer.concat in Edata. cbn [List.concat app] in Edata.
  rewrite !app_nil_r in Edata.
  assert (Einj2 : forall (a b : byte) (l m : list byte), a :: l = b :: m -> a = b /\ l = m)
    by (intros a b l m E; split; congruence).
  apply Einj2 in Edata as [Elen Erest].
  assert (Hlen : String.length s1 = String.length s2).
  { apply (f_equal byte_to_Z) in Elen. rewrite !byte_to_Z_to_byte in Elen.
    rewrite !Z.mod_small in Elen by lia. lia. }
  apply app_inj_1 in Erest as [Ebytes Epath].
  - split; [apply bytes_of_string_inj, Ebytes|exact Epath].
  - unfold bytes_of_string. rewrite !length_map, !String_length_list. exact Hlen.
Qed.

Lemma address_query_data_unambiguous_witness :
  "thor" = "thor"
  /\ [x2c; x00; x00; x80; xa3; x03; x00; x80; x00; x00; x00; x80;
      x00; x00; x00; x00; x00; x00; x00; x00]
     = [x2c; x00; x00; x80; xa3; x03; x00; x80; x00; x00; x00; x80;
        x00; x00; x00; x00; x00; x00; x00; x00].
Proof.
  apply (address_query_data_unambiguous (H := reference_env) "thor" "thor"
           [44; 931; 0; 0; 0] [44; 931; 0; 0; 0] [x04; x74; x68; x6f; x72]
           [x04; x74; x68; x6f; x72]);
    first [reflexivity | cbn; lia | repeat constructor].
Defined.

(** ** Errors of the path serializer *)

(** X21: What the path serializer throws reaches the caller of [sign],
    [signGetChunks] and the two address queries as it is, after the version
    query and before anything else is sent. *)
Theorem serializer_error_reaches_caller `{Env} (path : list Z) (message version : Buffer.t)
        (hrp : option string) (thrown : exception) (answers : list (outcome Buffer.t)) :
  returnCode_of version = Num (LedgerErrorType_value NoErrors) ->
  version !! 1%nat = Some x02 ->
  helper_v2.serializePathv2 path = Thrown thrown ->
  run (THORChainApp.signGetChunks path message) (Ok version :: answers)
  = ([GET_VERSION_command], Some (Thrown thrown))
  /\ run (THORChainApp.sign path message) (Ok version :: answers)
     = ([GET_VERSION_command], Some (Thrown thrown))
  /\ run (THORChainApp.getAddressAndPubKey path hrp) (Ok version :: answers)
     = ([GET_VERSION_command], Some (Thrown thrown))
  /\ run (THORChainApp.showAddressAndPubKey path hrp) (Ok version :: answers)
     = ([GET_VERSION_command], Some (Thrown thrown))
  /\ (List.length path <> 5%nat -> thrown = Error "Invalid path.")
  /\ (List.length path = 5%nat -> thrown = RangeError).
Proof.
  intros Hrc Hmaj Hsp.
  assert (Epath : run (THORChainApp.serializePath path) (Ok version :: answers)
                  = ([GET_VERSION_command], Some (Thrown thrown))).
  { rewrite (run_serializePath_v2 path version _ Hrc Hmaj), Hsp. reflexivity. }
  assert (Echunks : run (THORChainApp.signGetChunks path message) (Ok version :: answers)
                    = ([GET_VERSION_command], Some (Thrown thrown))).
  { apply run_after_serializePath_Thrown, Epath. }
  split; [exact Echunks|]. split.
  { unfold THORChainApp.sign. rewrite run_bind, Echunks. reflexivity. }
  split; [apply run_after_serializePath_Thrown, Epath|].
  split; [apply run_after_serializePath_Thrown, Epath|].
  rewrite <- serializePath_same in Hsp. split.
  - intros Hlen. unfold helper.serializePath in Hsp.
    destruct (Z.eqb_spec (Z.of_nat (List.length path)) 5) as [E|E]; [lia|].
    cbn [negb] in Hsp. congruence.
  - intros Hlen.
    destruct path as [|p0 [|p1 [|p2 [|p3 [|p4 [|? ?]]]]]]; try discriminate.
    destruct (serializePath_writes p0 p1 p2 p3 p4) as [[_ E]|[_ E]];
      rewrite E in Hsp; congruence.
Qed.

Lemma serializer_error_reaches_caller_witness :
  run (THORChainApp.sign (H := reference_env) [44; 931; 0] [x41])
      [Ok [x00; x02; x00; x00; x00; x90; x00]; Ok [x00; x02; x00; x00; x00; x90; x00]]
  = ([GET_VERSION_command (H := reference_env)], Some (Thrown (Error "Invalid path.")))
  /\ run (THORChainApp.getAddressAndPubKey (H := reference_env) [44; 931; 0; 0; 4294967296]
            (Some "thor"))
         [Ok [x00; x02; x00; x00; x00; x90; x00]]
     = ([GET_VERSION_command (H := reference_env)], Some (Thrown RangeError)).
Proof.
  split.
  - apply (serializer_error_reaches_caller (H := reference_env) [44; 931; 0] [x41]
             [x00; x02; x00; x00; x00; x90; x00] None (Error "Invalid path.")
             [Ok [x00; x02; x00; x00; x00; x90; x00]]); reflexivity.
  - apply (serializer_error_reaches_caller (H := reference_env) [44; 931; 0; 0; 4294967296] []
             [x00; x02; x00; x00; x00; x90; x00] (Some "thor") RangeError []); reflexivity.
Defined.

(** ** The two chunk senders *)

Lemma helper_signSendChunk_decoder_witness :
  snd (run (helper.signSendChunk (H := reference_env) 2 3 [x41]) [Ok [x42; x6a; x80]])
  = Some (Thrown (LedgerError (Num 0x6a80) (Some "Bad key handle : B")))
  /\ snd (run (helper.signSendChunk (H := reference_env) 2 3 [x41]) [Ok [x42; x6f; x01]])
     = Some (Thrown (LedgerError (Num 0x6f01) (Some "Sign/verify error : B"))).
Proof.
  split.
  - apply (proj1 (helper_signSendChunk_decoder (H := reference_env) 2 3 [x41]
                    [x42; x6a; x80] [])).
    left. reflexivity.
  - apply (proj1 (helper_signSendChunk_decoder (H := reference_env) 2 3 [x41]
                    [x42; x6f; x01] [])).
    right. right. reflexivity.
Defined.

(** X18: The chunk sender of [src/helper.ts] on an answer that is neither a
    recognized failure nor a signature (a bare acknowledgement, or an unlisted
    status): it returns a result without a signature, so a loop over the chunks
    can go on; on a bare status the sender [sign] is wired to raises instead. *)
Theorem helper_signSendChunk_acknowledgement `{Env} (chunkIdx chunkNum : Z)
        (chunk response : Buffer.t) (answers : list (outcome Buffer.t)) :
  let rc := returnCode_of response in
  rc <> Num (LedgerErrorType_value BadKeyHandle) ->
  rc <> Num (LedgerErrorType_value DataIsInvalid) ->
  rc <> Num (LedgerErrorType_value SignVerifyError) ->
  rc <> Num (LedgerErrorType_value NoErrors) \/ Buffer.length response <= 2 ->
  snd (run (helper.signSendChunk chunkIdx chunkNum chunk) (Ok response :: answers))
  = Some (Ok {| SignResponse_base :=
                  {| returnCode := rc; errorMessage := errorCodeToString rc |};
                signature := None |})
  /\ (Buffer.length response <= 2 ->
      exists text : string,
        snd (run (helper_v2.signSendChunkv2 chunkIdx chunkNum chunk) (Ok response :: answers))
        = Some (Thrown (ledgerErrorFromResponse (LedgerError rc (Some text))))).
Proof.
  intros rc Hb Hd Hv Hplain.
  apply number_eqb_false in Hb. apply number_eqb_false in Hd. apply number_eqb_false in Hv.
  split.
  - unfold helper.signSendChunk. cbn [run bind send snd]. fold rc.
    rewrite Hb, Hd, Hv. cbn [orb].
    destruct Hplain as [Hn|Hl].
    + apply number_eqb_false in Hn. rewrite Hn. reflexivity.
    + destruct (Z.ltb_spec 2 (Buffer.length response)); [lia|].
      rewrite andb_false_r. reflexivity.
  - intros Hl. unfold helper_v2.signSendChunkv2, helper_v2.signSendChunkv1.
    cbn [run try_catch bind send snd]. fold rc.
    destruct (Z.ltb_spec 2 (Buffer.length response)); [lia|].
    eexists. reflexivity.
Qed.

Lemma helper_signSendChunk_acknowledgement_witness :
  snd (run (helper.signSendChunk (H := reference_env) 2 3 [x41]) [Ok [x90; x00]])
  = Some (Ok {| SignResponse_base :=
                  {| returnCode := Num 0x9000; errorMessage := "No errors" |};
                signature := None |})
  /\ exists text : string,
       snd (run (helper_v2.signSendChunkv2 (H := reference_env) 2 3 [x41]) [Ok [x90; x00]])
       = Some (Thrown (LedgerError (Num 0x9000) (Some text))).
Proof.
  destruct (helper_signSendChunk_acknowledgement (H := reference_env) 2 3 [x41] [x90; x00] [])
    as [Eplain Hraise].
  - discriminate.
  - discriminate.
  - discriminate.
  - right. vm_compute. discriminate.
  - split; [exact Eplain|]. apply Hraise. vm_compute. discriminate.
Defined.

(** X19: On a response with status NoErrors and a payload the two chunk senders
    return the same result, the payload as signature; the commands they send
    differ in the status list only. *)
Theorem chunk_senders_agree_on_success `{Env} (chunkIdx chunkNum : Z)
        (chunk response : Buffer.t) (answers : list (outcome Buffer.t)) :
  LedgerErrorType_value NoErrors <> LedgerErrorType_value BadKeyHandle ->
  LedgerErrorType_value NoErrors <> LedgerErrorType_value DataIsInvalid ->
  LedgerErrorType_value NoErrors <> LedgerErrorType_value SignVerifyError ->
  returnCode_of response = Num (LedgerErrorType_value NoErrors) ->
  2 < Buffer.length response ->
  let result :=
    {| SignResponse_base :=
         {| returnCode := Num (LedgerErrorType_value NoErrors);
            errorMessage := errorCodeToString (Num (LedgerErrorType_value NoErrors)) |};
       signature := Some (payload_of response) |} in
  snd (run (helper.signSendChunk chunkIdx chunkNum chunk) (Ok response :: answers))
  = Some (Ok result)
  /\ snd (run (helper_v2.signSendChunkv2 chunkIdx chunkNum chunk) (Ok response :: answers))
     = Some (Ok result)
  /\ Forall2 (fun a b => cla a = cla b /\ ins a = ins b /\ p1 a = p1 b /\ p2 a = p2 b
                         /\ data a = data b)
       (fst (run (helper.signSendChunk chunkIdx chunkNum chunk) (Ok response :: answers)))
       (fst (run (helper_v2.signSendChunkv2 chunkIdx chunkNum chunk) (Ok response :: answers))).
Proof.
  intros Hb Hd Hv Hrc Hlen result.
  assert (Eb : number_eqb (Num (LedgerErrorType_value NoErrors))
                 (LedgerErrorType_value BadKeyHandle) = false)
    by (apply number_eqb_false; congruence).
  assert (Ed : number_eqb (Num (LedgerErrorType_value NoErrors))
                 (LedgerErrorType_value DataIsInvalid) = false)
    by (apply number_eqb_false; congruence).
  assert (Ev : number_eqb (Num (LedgerErrorType_value NoErrors))
                 (LedgerErrorType_value SignVerifyError) = false)
    by (apply number_eqb_false; congruence).
  assert (En : number_eqb (Num (LedgerErrorType_value NoErrors))
                 (LedgerErrorType_value NoErrors) = true)
    by (now apply number_eqb_true).
  assert (El : (2 <? Buffer.length response) = true) by (apply Z.ltb_lt, Hlen).
  unfold helper.signSendChunk, helper_v2.signSendChunkv2, helper_v2.signSendChunkv1.
  cbn [run try_catch bind send fst snd].
  rewrite Hrc, Eb, Ed, Ev, En, El. cbn [orb andb run try_catch fst snd].
  split; [reflexivity|]. split; [reflexivity|].
  repeat constructor.
Qed.

Lemma chunk_senders_agree_on_success_witness :
  snd (run (helper.signSendChunk (H := reference_env) 3 3 [x41]) [Ok [x30; x44; x90; x00]])
  = snd (run (helper_v2.signSendChunkv2 (H := reference_env) 3 3 [x41])
             [Ok [x30; x44; x90; x00]]).
Proof.
  destruct (chunk_senders_agree_on_success (H := reference_env) 3 3 [x41]
              [x30; x44; x90; x00] []) as (E1 & E2 & _).
  - discriminate.
  - discriminate.
  - discriminate.
  - reflexivity.
  - reflexivity.
  - rewrite E1, E2. reflexivity.
Defined.

(** ** The sign operation, chunk by chunk *)

Lemma sign_sends_chunks_in_order_witness :
  exists payload : list Buffer.t,
    List.concat payload = replicate 151 x41
    /\ fst (run (THORChainApp.sign (H := reference_env) [44; 931; 0; 0; 0] (replicate 151 x41))
                [Ok [x00; x02; x00; x00; x00; x90; x00];
                 Ok [x00; x02; x00; x00; x00; x90; x00]; Ok [x41; x90; x00];
                 Ok [x00; x03; x00; x00; x00; x90; x00]])
         `prefix_of`
         (GET_VERSION_command (H := reference_env)
            :: sign_schedule (H := reference_env) (Z.of_nat (S (List.length payload))) 0
                 ([x2c; x00; x00; x80; xa3; x03; x00; x80; x00; x00; x00; x80;
                   x00; x00; x00; x00; x00; x00; x00; x00] :: payload)).
Proof.
  apply (sign_sends_chunks_in_order (H := reference_env) [44; 931; 0; 0; 0]
           (replicate 151 x41)).
  reflexivity.
Defined.

(** [signSendChunk] against a version-2 app, by what answers the chunk. *)
Lemma run_signSendChunk_cases `{Env} (chunkIdx chunkNum : Z) (chunk version : Buffer.t)
      (next : outcome Buffer.t) (answers : list (outcome Buffer.t)) :
  version !! 1%nat = Some x02 ->
  let sent := [GET_VERSION_command; sign_command chunkIdx chunkNum chunk] in
  match next with
  | Thrown e =>
      run (THORChainApp.signSendChunk chunkIdx chunkNum chunk) (Ok version :: next :: answers)
      = (sent, Some (Thrown (ledgerErrorFromResponse e)))
  | Ok response =>
      (2 < Buffer.length response ->
       exists result : SignResponse,
         run (THORChainApp.signSendChunk chunkIdx chunkNum chunk)
             (Ok version :: next :: answers)
         = (sent, Some (Ok result))
         /\ returnCode result = returnCode_of response
         /\ signature result = Some (payload_of response))
      /\ (Buffer.length response <= 2 ->
          exists message : string,
            run (THORChainApp.signSendChunk chunkIdx chunkNum chunk)
                (Ok version :: next :: answers)
            = (sent,
               Some (Thrown (ledgerErrorFromResponse
                               (LedgerError (returnCode_of response) (Some message))))))
  end.
Proof.
  intros Hmaj sent. apply major_is_2 in Hmaj.
  destruct next as [response|e]; rewrite run_signSendChunk, Hmaj;
    unfold helper_v2.signSendChunkv2, helper_v2.signSendChunkv1;
    cbn [run try_catch bind send fst snd].
  - split; intros Hlen.
    + destruct (Z.ltb_spec 2 (Buffer.length response)); [|lia].
      eexists. split; [reflexivity|]. split; reflexivity.
    + destruct (Z.ltb_spec 2 (Buffer.length response)); [lia|].
      eexists. reflexivity.
  - reflexivity.
Qed.

Lemma sign_schedule_app `{Env} (chunkNum : Z) (a b : list Buffer.t) :
  forall i : Z,
    sign_schedule chunkNum i (a ++ b)
    = sign_schedule chunkNum i a ++ sign_schedule chunkNum (i + Z.of_nat (List.length a)) b.
Proof.
  induction a as [|chunk a IH]; intros i.
  - cbn [app sign_schedule List.length]. now rewrite Z.add_0_r.
  - cbn [app sign_schedule List.length]. rewrite IH.
    replace (i + 1 + Z.of_nat (List.length a)) with (i + Z.of_nat (S (List.length a))) by lia.
    reflexivity.
Qed.

(** Two commands for each chunk. *)
Lemma sign_schedule_length `{Env} (chunkNum : Z) (rest : list Buffer.t) :
  forall i : Z, List.length (sign_schedule chunkNum i rest) = (2 * List.length rest)%nat.
Proof.
  induction rest as [|chunk rest IH]; intros i; [reflexivity|].
  cbn [sign_schedule List.length]. rewrite IH. lia.
Qed.

Lemma sign_answers_app (version : Buffer.t) (a b : list Buffer.t) :
  sign_answers version (a ++ b) = sign_answers version a ++ sign_answers version b.
Proof. unfold sign_answers. apply flat_map_app. Qed.

(** The loop over chunks that are all answered with a payload and status
    NoErrors: every chunk is sent, and the loop goes on with what follows. *)
Lemma sign_loop_over_accepted `{Env} (chunkNum : Z) (version : Buffer.t)
      (more : list (outcome Buffer.t)) (oks : list Buffer.t) :
  version !! 1%nat = Some x02 ->
  forall (rest : list Buffer.t) (i : Z) (result : SignResponse),
    Forall (fun r => 2 < Buffer.length r) oks ->
    Forall (fun r => returnCode_of r = Num (LedgerErrorType_value NoErrors)) oks ->
    (List.length oks <= List.length rest)%nat ->
    exists result' : SignResponse,
      run (THORChainApp.sign_loop chunkNum i rest result) (sign_answers version oks ++ more)
      = (sign_schedule chunkNum i (take (List.length oks) rest)
           ++ fst (run (THORChainApp.sign_loop chunkNum (i + Z.of_nat (List.length oks))
                          (drop (List.length oks) rest) result') more),
         snd (run (THORChainApp.sign_loop chunkNum (i + Z.of_nat (List.length oks))
                     (drop (List.length oks) rest) result') more))
      /\ (oks = [] -> result' = result)
      /\ (forall r, last oks = Some r ->
                    returnCode result' = returnCode_of r
                    /\ signature result' = Some (payload_of r)).
Proof.
  intros Hmaj. induction oks as [|r oks IH]; intros rest i result Hlen Hok Hfit.
  - exists result. cbn [sign_answers flat_map app List.length take drop sign_schedule].
    rewrite Z.add_0_r. split; [|split; [reflexivity|discriminate]].
    destruct (run _ more). reflexivity.
  - destruct rest as [|chunk rest]; [cbn [List.length] in Hfit; lia|].
    inversion Hlen as [|? ? Hr Hlen']; subst. inversion Hok as [|? ? Hrc Hok']; subst.
    cbn [List.length] in Hfit.
    destruct (proj1 (run_signSendChunk_cases (1 + i) chunkNum chunk version (Ok r)
                       (sign_answers version oks ++ more) Hmaj) Hr)
      as (res & Erun & Eres & Esig).
    destruct (IH rest (i + 1) res Hlen' Hok' ltac:(lia)) as (result' & Eloop & Hnil & Hlast).
    exists result'. split; [|split; [discriminate|]].
    + cbn [sign_answers flat_map]. fold (sign_answers version oks).
      rewrite <- !app_assoc. cbn [app].
      rewrite (sign_loop_step chunkNum i chunk rest result res _ _ Erun).
      rewrite Eres. apply number_eqb_true in Hrc. rewrite Hrc.
      cbn [negb List.length skipn drop].
      rewrite drop_0, Eloop. cbn [fst snd take List.length sign_schedule app].
      replace (i + Z.of_nat (S (List.length oks)))
        with (i + 1 + Z.of_nat (List.length oks)) by lia.
      reflexivity.
    + intros r1 Hr1. destruct oks as [|r' oks'].
      * cbn in Hr1. injection Hr1 as <-. rewrite (Hnil eq_refl). split; assumption.
      * apply Hlast. exact Hr1.
Qed.

Lemma run_bind_Return {A B : Type} (p : Async A) (g : A -> B)
      (answers : list (outcome Buffer.t)) :
  run (bind p (fun a => Return (g a))) answers
  = (fst (run p answers),
     match snd (run p answers) with
     | Some (Ok a) => Some (Ok (g a))
     | Some (Thrown e) => Some (Thrown e)
     | None => None
     end).
Proof.
  rewrite run_bind. destruct (run p answers) as [sent [[a|e]|]]; cbn [run fst snd]; try reflexivity.
  now rewrite app_nil_r.
Qed.

(** The object [sign] builds from the last result is that result. *)
Lemma SignResponse_eta (r : SignResponse) :
  {| SignResponse_base := {| returnCode := returnCode r; errorMessage := errorMessage r |};
     signature := signature r |} = r.
Proof. destruct r as [[rc msg] sig]. reflexivity. Qed.

(** [sign] against a version-2 app that answers the path chunk with [r0] and
    the payload chunks that follow with [oks]: those chunks are sent in order,
    and [sign] goes on with the rest of its loop. *)
Lemma run_sign_over_accepted `{Env} (path : list Z) (message version serializedPath r0 : Buffer.t)
      (oks : list Buffer.t) (tail : list (outcome Buffer.t)) :
  returnCode_of version = Num (LedgerErrorType_value NoErrors) ->
  version !! 1%nat = Some x02 ->
  helper_v2.serializePathv2 path = Ok serializedPath ->
  let payload := THORChainApp.signGetChunks_loop message 0 [] in
  let n := Z.of_nat (S (List.length payload)) in
  2 < Buffer.length r0 ->
  Forall (fun r => 2 < Buffer.length r) oks ->
  Forall (fun r => returnCode_of r = Num (LedgerErrorType_value NoErrors)) oks ->
  (List.length oks <= List.length payload)%nat ->
  exists result : SignResponse,
    let rest := THORChainApp.sign_loop n (1 + Z.of_nat (List.length oks))
                  (drop (List.length oks) payload) result in
    run (THORChainApp.sign path message)
        (Ok version :: sign_answers version (r0 :: oks) ++ tail)
    = (GET_VERSION_command
         :: sign_schedule n 0 (serializedPath :: take (List.length oks) payload)
         ++ fst (run rest tail),
       snd (run rest tail))
    /\ (oks = [] -> returnCode result = returnCode_of r0 /\ signature result = None)
    /\ (forall r, last oks = Some r ->
                  returnCode result = returnCode_of r
                  /\ signature result = Some (payload_of r)).
Proof.
  intros Hrc Hmaj Hsp payload n Hr0 Hlen Hok Hfit.
  destruct (proj1 (run_signSendChunk_cases 1 n serializedPath version (Ok r0)
                     (sign_answers version oks ++ tail) Hmaj) Hr0)
    as (response & Efirst & Eresponse & _).
  set (result0 := {| SignResponse_base :=
                       {| returnCode := returnCode response;
                          errorMessage := errorMessage response |};
                     signature := None |}).
  destruct (sign_loop_over_accepted n version tail oks Hmaj payload 1 result0 Hlen Hok Hfit)
    as (result & Eloop & Hnil & Hlast).
  exists result. split; [|split].
  - unfold THORChainApp.sign.
    rewrite run_bind, run_signGetChunks, (run_serializePath_v2 path version _ Hrc Hmaj), Hsp.
    cbn [fst snd List.length skipn drop lookup list_lookup default from_option id].
    fold payload. fold n.
    cbn [sign_answers flat_map]. fold (sign_answers version oks).
    rewrite <- !app_assoc. cbn [app].
    rewrite run_bind, !drop_0, Efirst. cbn [List.length skipn drop]. fold result0.
    rewrite run_bind_Return, drop_0, Eloop. cbn [fst snd app sign_schedule].
    change (1 + 0) with 1. change (0 + 1) with 1. f_equal.
    destruct (snd (run _ tail)) as [[a|e]|]; try reflexivity.
    now rewrite SignResponse_eta.
  - intros ->. rewrite (Hnil eq_refl). split; [exact Eresponse|reflexivity].
  - exact Hlast.
Qed.

(** The loop at a chunk answered with a payload: it ends there when the
    status is not NoErrors or the chunk is the last one. *)
Lemma sign_loop_ends `{Env} (chunkNum i : Z) (chunk version r : Buffer.t)
      (rest : list Buffer.t) (result : SignResponse) (more : list (outcome Buffer.t)) :
  version !! 1%nat = Some x02 ->
  2 < Buffer.length r ->
  returnCode_of r <> Num (LedgerErrorType_value NoErrors) \/ rest = [] ->
  exists res : SignResponse,
    run (THORChainApp.sign_loop chunkNum i (chunk :: rest) result)
        (Ok version :: Ok r :: more)
    = ([GET_VERSION_command; sign_command (1 + i) chunkNum chunk], Some (Ok res))
    /\ returnCode res = returnCode_of r
    /\ signature res = Some (payload_of r).
Proof.
  intros Hmaj Hr Hend.
  destruct (proj1 (run_signSendChunk_cases (1 + i) chunkNum chunk version (Ok r) more Hmaj) Hr)
    as (res & Erun & Eres & Esig).
  exists res. split; [|split; assumption].
  rewrite (sign_loop_step chunkNum i chunk rest result res _ _ Erun), Eres.
  destruct (number_eqb (returnCode_of r) (LedgerErrorType_value NoErrors)) eqn:Erc;
    cbn [negb]; [|reflexivity].
  destruct Hend as [Hbad| ->].
  - apply number_eqb_true in Erc. contradiction.
  - cbn [THORChainApp.sign_loop run fst snd]. now rewrite app_nil_r.
Qed.

(** The loop at a chunk answered with no more than the status bytes. *)
Lemma sign_loop_raises `{Env} (chunkNum i : Z) (chunk version bare : Buffer.t)
      (rest : list Buffer.t) (result : SignResponse) (more : list (outcome Buffer.t)) :
  version !! 1%nat = Some x02 ->
  Buffer.length bare <= 2 ->
  exists message : string,
    run (THORChainApp.sign_loop chunkNum i (chunk :: rest) result)
        (Ok version :: Ok bare :: more)
    = ([GET_VERSION_command; sign_command (1 + i) chunkNum chunk],
       Some (Thrown (ledgerErrorFromResponse
                       (LedgerError (returnCode_of bare) (Some message))))).
Proof.
  intros Hmaj Hbare.
  destruct (proj2 (run_signSendChunk_cases (1 + i) chunkNum chunk version (Ok bare) more Hmaj)
              Hbare) as (message & Erun).
  exists message. apply sign_loop_throws, Erun.
Qed.

Lemma payload_nonempty (message : Buffer.t) :
  message <> [] -> THORChainApp.signGetChunks_loop message 0 [] <> [].
Proof.
  intros Hm Hp. destruct (signGetChunks_loop_payload message []) as (_ & Hcat & _).
  rewrite Hp in Hcat. cbn in Hcat. congruence.
Qed.

Lemma keeps_going_cons `{Env} (r0 : Buffer.t) (oks : list Buffer.t) :
  keeps_going (r0 :: oks) ->
  2 < Buffer.length r0
  /\ Forall (fun r => 2 < Buffer.length r) oks
  /\ Forall (fun r => returnCode_of r = Num (LedgerErrorType_value NoErrors)) oks.
Proof.
  intros [Hlen Hok]. inversion Hlen; subst. cbn [drop skipn] in Hok. rewrite drop_0 in Hok.
  repeat split; assumption.
Qed.

(** X12: When every chunk but the last is answered with a payload and, after
    the path chunk, with status NoErrors, and the last chunk is answered with a
    payload, [sign] sends the whole schedule, a version query before every
    chunk, and returns what the answer to the last chunk decodes to: its
    status, and its payload as the signature. *)
Theorem sign_returns_last_result `{Env} (path : list Z)
        (message version serializedPath final : Buffer.t) (responses : list Buffer.t)
        (more : list (outcome Buffer.t)) :
  returnCode_of version = Num (LedgerErrorType_value NoErrors) ->
  version !! 1%nat = Some x02 ->
  helper_v2.serializePathv2 path = Ok serializedPath ->
  let payload := THORChainApp.signGetChunks_loop message 0 [] in
  let n := Z.of_nat (S (List.length payload)) in
  keeps_going responses ->
  responses <> [] ->
  List.length responses = List.length payload ->
  2 < Buffer.length final ->
  exists result : SignResponse,
    run (THORChainApp.sign path message)
        (Ok version :: sign_answers version (responses ++ [final]) ++ more)
    = (GET_VERSION_command :: sign_schedule n 0 (serializedPath :: payload),
       Some (Ok result))
    /\ returnCode result = returnCode_of final
    /\ signature result = Some (payload_of final)
    /\ List.concat payload = message
    /\ Z.of_nat (List.length payload) = ceil_div (Buffer.length message) 150
    /\ List.length (sign_schedule n 0 (serializedPath :: payload))
       = (2 * S (List.length payload))%nat.
Proof.
  intros Hrc Hmaj Hsp payload n Hgo Hne Hcount Hfinal.
  destruct responses as [|r0 oks]; [contradiction|].
  destruct (keeps_going_cons r0 oks Hgo) as (Hr0 & Hlen & Hok).
  cbn [List.length] in Hcount.
  destruct (run_sign_over_accepted path message version serializedPath r0 oks
              (sign_answers version [final] ++ more) Hrc Hmaj Hsp Hr0 Hlen Hok)
    as (result & Erun & _ & _); [fold payload; lia|].
  fold payload in Erun. fold n in Erun. cbv zeta in Erun.
  assert (Hlast : exists chunk, drop (List.length oks) payload = [chunk]
                                /\ payload = take (List.length oks) payload ++ [chunk]).
  { pose proof (take_drop (List.length oks) payload) as Htd.
    destruct (drop (List.length oks) payload) as [|chunk [|c' l']] eqn:Ed.
    - apply (f_equal List.length) in Ed. rewrite length_drop in Ed. cbn in Ed. lia.
    - exists chunk. split; [reflexivity|]. now rewrite Htd.
    - apply (f_equal List.length) in Ed. rewrite length_drop in Ed. cbn in Ed. lia. }
  destruct Hlast as (chunk & Edrop & Epayload).
  rewrite Edrop in Erun.
  destruct (sign_loop_ends n (1 + Z.of_nat (List.length oks)) chunk version final []
              result more Hmaj Hfinal (or_intror eq_refl))
    as (res & Eend & Eres & Esig).
  exists res.
  split; [|split; [exact Eres|split; [exact Esig|]]].
  2:{ split; [|split]; [apply (signGetChunks_loop_payload message [])..|].
      apply (sign_schedule_length n (serializedPath :: payload)). }
  rewrite sign_answers_app, <- app_assoc.
  rewrite Erun. cbn [sign_answers flat_map app]. rewrite Eend. cbn [fst snd].
  f_equal. f_equal.
  rewrite Epayload at 2. rewrite app_comm_cons, sign_schedule_app.
  cbn [List.length sign_schedule]. rewrite length_take.
  replace (0 + Z.of_nat (S (List.length oks `min` List.length payload)))
    with (1 + Z.of_nat (List.length oks)) by lia.
  reflexivity.
Qed.

Lemma sign_returns_last_result_witness :
  exists result : SignResponse,
    snd (run (THORChainApp.sign (H := reference_env) [44; 931; 0; 0; 0] (replicate 151 x41))
             [Ok [x00; x02; x00; x00; x00; x90; x00];
              Ok [x00; x02; x00; x00; x00; x90; x00]; Ok [x41; x69; x84];
              Ok [x00; x02; x00; x00; x00; x90; x00]; Ok [x42; x90; x00];
              Ok [x00; x02; x00; x00; x00; x90; x00]; Ok [x30; x44; x90; x00]])
    = Some (Ok result)
    /\ returnCode result = Num 0x9000
    /\ signature result = Some [x30; x44].
Proof.
  destruct (sign_returns_last_result (H := reference_env) [44; 931; 0; 0; 0]
              (replicate 151 x41) [x00; x02; x00; x00; x00; x90; x00]
              [x2c; x00; x00; x80; xa3; x03; x00; x80; x00; x00; x00; x80;
               x00; x00; x00; x00; x00; x00; x00; x00]
              [x30; x44; x90; x00] [[x41; x69; x84]; [x42; x90; x00]] [])
    as (result & E & Erc & Esig & _ & _ & _).
  - reflexivity.
  - reflexivity.
  - reflexivity.
  - split; repeat constructor.
  - discriminate.
  - reflexivity.
  - reflexivity.
  - exists result. split; [exact (f_equal snd E)|]. split; [exact Erc|exact Esig].
Defined.

(** X13: For an empty message the path chunk is the only chunk: it is sent as
    the last one, and whatever it is answered with, the result carries no
    signature. *)
Theorem sign_empty_message `{Env} (path : list Z) (version serializedPath response : Buffer.t)
        (more : list (outcome Buffer.t)) :
  returnCode_of version = Num (LedgerErrorType_value NoErrors) ->
  version !! 1%nat = Some x02 ->
  helper_v2.serializePathv2 path = Ok serializedPath ->
  2 < Buffer.length response ->
  exists result : SignResponse,
    run (THORChainApp.sign path []) (Ok version :: Ok version :: Ok response :: more)
    = ([GET_VERSION_command; GET_VERSION_command; sign_command 1 1 serializedPath],
       Some (Ok result))
    /\ p1 (sign_command 1 1 serializedPath) = PAYLOAD_TYPE_value LAST
    /\ returnCode result = returnCode_of response
    /\ signature result = None.
Proof.
  intros Hrc Hmaj Hsp Hr.
  assert (Epayload : THORChainApp.signGetChunks_loop [] 0 [] = []).
  { rewrite signGetChunks_loop_step. reflexivity. }
  destruct (run_sign_over_accepted path [] version serializedPath response [] more
              Hrc Hmaj Hsp Hr (Forall_nil_2 _) (Forall_nil_2 _))
    as (result & Erun & Hnil & _); [cbn [List.length]; lia|].
  destruct (Hnil eq_refl) as [Eres Esig].
  exists result. split; [|split; [reflexivity|split; assumption]].
  cbv zeta in Erun. rewrite Epayload in Erun.
  cbn [sign_answers flat_map app] in Erun. rewrite Erun. reflexivity.
Qed.

Lemma sign_empty_message_witness :
  exists result : SignResponse,
    run (THORChainApp.sign (H := reference_env) [44; 931; 0; 0; 0] [])
        [Ok [x00; x02; x00; x00; x00; x90; x00]; Ok [x00; x02; x00; x00; x00; x90; x00];
         Ok [x30; x44; x90; x00]]
    = ([GET_VERSION_command (H := reference_env); GET_VERSION_command (H := reference_env);
        sign_command (H := reference_env) 1 1
          [x2c; x00; x00; x80; xa3; x03; x00; x80; x00; x00; x00; x80;
           x00; x00; x00; x00; x00; x00; x00; x00]],
       Some (Ok result))
    /\ signature result = None.
Proof.
  destruct (sign_empty_message (H := reference_env) [44; 931; 0; 0; 0]
              [x00; x02; x00; x00; x00; x90; x00]
              [x2c; x00; x00; x80; xa3; x03; x00; x80; x00; x00; x00; x80;
               x00; x00; x00; x00; x00; x00; x00; x00]
              [x30; x44; x90; x00] [])
    as (result & E & _ & _ & Esig); try reflexivity.
  exists result. split; [exact E|exact Esig].
Defined.

(** X14: [sign] stops at the first payload chunk that is answered with a
    payload and a status other than NoErrors: it returns what that answer
    decodes to and sends nothing more, whatever else the transport would
    answer. The status of the answer to the path chunk is not looked at. *)
Theorem sign_stops_at_first_failure `{Env} (path : list Z)
        (message version serializedPath bad : Buffer.t) (responses : list Buffer.t)
        (more : list (outcome Buffer.t)) :
  returnCode_of version = Num (LedgerErrorType_value NoErrors) ->
  version !! 1%nat = Some x02 ->
  helper_v2.serializePathv2 path = Ok serializedPath ->
  let payload := THORChainApp.signGetChunks_loop message 0 [] in
  let n := Z.of_nat (S (List.length payload)) in
  keeps_going responses ->
  responses <> [] ->
  (List.length responses <= List.length payload)%nat ->
  2 < Buffer.length bad ->
  returnCode_of bad <> Num (LedgerErrorType_value NoErrors) ->
  exists result : SignResponse,
    run (THORChainApp.sign path message)
        (Ok version :: sign_answers version (responses ++ [bad]) ++ more)
    = (GET_VERSION_command
         :: sign_schedule n 0 (serializedPath :: take (List.length responses) payload),
       Some (Ok result))
    /\ returnCode result = returnCode_of bad
    /\ signature result = Some (payload_of bad).
Proof.
  intros Hrc Hmaj Hsp payload n Hgo Hne Hcount Hbad Hstatus.
  destruct responses as [|r0 oks]; [contradiction|].
  destruct (keeps_going_cons r0 oks Hgo) as (Hr0 & Hlen & Hok).
  cbn [List.length] in Hcount.
  destruct (run_sign_over_accepted path message version serializedPath r0 oks
              (sign_answers version [bad] ++ more) Hrc Hmaj Hsp Hr0 Hlen Hok)
    as (result & Erun & _ & _); [fold payload; lia|].
  fold payload in Erun. fold n in Erun. cbv zeta in Erun.
  destruct (drop (List.length oks) payload) as [|chunk rest] eqn:Edrop.
  { apply (f_equal List.length) in Edrop. rewrite length_drop in Edrop. cbn in Edrop. lia. }
  destruct (sign_loop_ends n (1 + Z.of_nat (List.length oks)) chunk version bad rest
              result more Hmaj Hbad (or_introl Hstatus))
    as (res & Eend & Eres & Esig).
  exists res. split; [|split; assumption].
  rewrite sign_answers_app, <- app_assoc.
  rewrite Erun. cbn [sign_answers flat_map app]. rewrite Eend. cbn [fst snd].
  f_equal. f_equal. cbn [List.length].
  rewrite (take_S_r payload (List.length oks) chunk).
  - rewrite app_comm_cons, sign_schedule_app.
    cbn [List.length sign_schedule]. rewrite length_take.
    replace (0 + Z.of_nat (S (List.length oks `min` List.length payload)))
      with (1 + Z.of_nat (List.length oks)) by lia.
    reflexivity.
  - rewrite <- (take_drop (List.length oks) payload), Edrop.
    rewrite lookup_app_r by (rewrite length_take; lia).
    rewrite length_take. replace (List.length oks - _)%nat with 0%nat by lia. reflexivity.
Qed.

Lemma sign_stops_at_first_failure_witness :
  exists result : SignResponse,
    run (THORChainApp.sign (H := reference_env) [44; 931; 0; 0; 0] (replicate 151 x41))
        [Ok [x00; x02; x00; x00; x00; x90; x00];
         Ok [x00; x02; x00; x00; x00; x90; x00]; Ok [x41; x90; x00];
         Ok [x00; x02; x00; x00; x00; x90; x00]; Ok [x42; x6a; x80];
         Ok [x00; x02; x00; x00; x00; x90; x00]; Ok [x43; x90; x00]]
    = ([GET_VERSION_command (H := reference_env);
        GET_VERSION_command (H := reference_env);
        sign_command (H := reference_env) 1 3
          [x2c; x00; x00; x80; xa3; x03; x00; x80; x00; x00; x00; x80;
           x00; x00; x00; x00; x00; x00; x00; x00];
        GET_VERSION_command (H := reference_env);
        sign_command (H := reference_env) 2 3 (replicate 150 x41)],
       Some (Ok result))
    /\ returnCode result = Num 0x6a80
    /\ signature result = Some [x42].
Proof.
  destruct (sign_stops_at_first_failure (H := reference_env) [44; 931; 0; 0; 0]
              (replicate 151 x41) [x00; x02; x00; x00; x00; x90; x00]
              [x2c; x00; x00; x80; xa3; x03; x00; x80; x00; x00; x00; x80;
               x00; x00; x00; x00; x00; x00; x00; x00]
              [x42; x6a; x80] [[x41; x90; x00]]
              [Ok [x00; x02; x00; x00; x00; x90; x00]; Ok [x43; x90; x00]])
    as (result & E & Erc & Esig).
  - reflexivity.
  - reflexivity.
  - reflexivity.
  - split; repeat constructor.
  - discriminate.
  - vm_compute. lia.
  - reflexivity.
  - discriminate.
  - exists result. split; [exact E|]. split; [exact Erc|exact Esig].
Defined.

(** A chunk sender that throws on the path chunk ends [sign]. *)
Lemma run_sign_first_chunk_throws `{Env} (path : list Z) (message version serializedPath : Buffer.t)
      (answers : list (outcome Buffer.t)) (sent : list APDU) (e : exception) :
  returnCode_of version = Num (LedgerErrorType_value NoErrors) ->
  version !! 1%nat = Some x02 ->
  helper_v2.serializePathv2 path = Ok serializedPath ->
  let n := Z.of_nat (S (List.length (THORChainApp.signGetChunks_loop message 0 []))) in
  run (THORChainApp.signSendChunk 1 n serializedPath) answers = (sent, Some (Thrown e)) ->
  run (THORChainApp.sign path message) (Ok version :: answers)
  = (GET_VERSION_command :: sent, Some (Thrown e)).
Proof.
  intros Hrc Hmaj Hsp n Efirst. unfold THORChainApp.sign.
  rewrite run_bind, run_signGetChunks, (run_serializePath_v2 path version _ Hrc Hmaj), Hsp.
  cbn [fst snd List.length skipn drop lookup list_lookup default from_option id].
  fold n. rewrite run_bind, !drop_0, Efirst. reflexivity.
Qed.

(** X15: A chunk answered with no more than the two status bytes makes [sign]
    raise an error, whatever the status, NoErrors included; nothing is sent
    after that chunk. *)
Theorem sign_raises_on_bare_status `{Env} (path : list Z)
        (message version serializedPath bare : Buffer.t) (responses : list Buffer.t)
        (more : list (outcome Buffer.t)) :
  returnCode_of version = Num (LedgerErrorType_value NoErrors) ->
  version !! 1%nat = Some x02 ->
  helper_v2.serializePathv2 path = Ok serializedPath ->
  let payload := THORChainApp.signGetChunks_loop message 0 [] in
  let n := Z.of_nat (S (List.length payload)) in
  keeps_going responses ->
  (List.length responses <= List.length payload)%nat ->
  Buffer.length bare <= 2 ->
  exists text : string,
    run (THORChainApp.sign path message)
        (Ok version :: sign_answers version (responses ++ [bare]) ++ more)
    = (GET_VERSION_command
         :: sign_schedule n 0 (serializedPath :: take (List.length responses) payload),
       Some (Thrown (ledgerErrorFromResponse
                       (LedgerError (returnCode_of bare) (Some text))))).
Proof.
  intros Hrc Hmaj Hsp payload n Hgo Hcount Hbare.
  destruct responses as [|r0 oks].
  - destruct (proj2 (run_signSendChunk_cases 1 n serializedPath version (Ok bare) more Hmaj)
                Hbare) as (text & Efirst).
    exists text. cbn [app sign_answers flat_map List.length take sign_schedule].
    rewrite (run_sign_first_chunk_throws path message version serializedPath _ _ _
               Hrc Hmaj Hsp Efirst).
    reflexivity.
  - destruct (keeps_going_cons r0 oks Hgo) as (Hr0 & Hlen & Hok).
    cbn [List.length] in Hcount.
    destruct (run_sign_over_accepted path message version serializedPath r0 oks
                (sign_answers version [bare] ++ more) Hrc Hmaj Hsp Hr0 Hlen Hok)
      as (result & Erun & _ & _); [fold payload; lia|].
    fold payload in Erun. fold n in Erun. cbv zeta in Erun.
    destruct (drop (List.length oks) payload) as [|chunk rest] eqn:Edrop.
    { apply (f_equal List.length) in Edrop. rewrite length_drop in Edrop. cbn in Edrop. lia. }
    destruct (sign_loop_raises n (1 + Z.of_nat (List.length oks)) chunk version bare rest
                result more Hmaj Hbare) as (text & Eend).
    exists text.
    rewrite sign_answers_app, <- app_assoc.
    rewrite Erun. cbn [sign_answers flat_map app]. rewrite Eend. cbn [fst snd].
    f_equal. f_equal. cbn [List.length].
    rewrite (take_S_r payload (List.length oks) chunk).
    + rewrite app_comm_cons, sign_schedule_app.
      cbn [List.length sign_schedule]. rewrite length_take.
      replace (0 + Z.of_nat (S (List.length oks `min` List.length payload)))
        with (1 + Z.of_nat (List.length oks)) by lia.
      reflexivity.
    + rewrite <- (take_drop (List.length oks) payload), Edrop.
      rewrite lookup_app_r by (rewrite length_take; lia).
      rewrite length_take. replace (List.length oks - _)%nat with 0%nat by lia. reflexivity.
Qed.

Lemma sign_raises_on_bare_status_witness :
  exists text : string,
    run (THORChainApp.sign (H := reference_env) [44; 931; 0; 0; 0] (replicate 151 x41))
        [Ok [x00; x02; x00; x00; x00; x90; x00];
         Ok [x00; x02; x00; x00; x00; x90; x00]; Ok [x41; x90; x00];
         Ok [x00; x02; x00; x00; x00; x90; x00]; Ok [x90; x00];
         Ok [x00; x02; x00; x00; x00; x90; x00]; Ok [x43; x90; x00]]
    = ([GET_VERSION_command (H := reference_env);
        GET_VERSION_command (H := reference_env);
        sign_command (H := reference_env) 1 3
          [x2c; x00; x00; x80; xa3; x03; x00; x80; x00; x00; x00; x80;
           x00; x00; x00; x00; x00; x00; x00; x00];
        GET_VERSION_command (H := reference_env);
        sign_command (H := reference_env) 2 3 (replicate 150 x41)],
       Some (Thrown (LedgerError (Num 0x9000) (Some text)))).
Proof.
  destruct (sign_raises_on_bare_status (H := reference_env) [44; 931; 0; 0; 0]
              (replicate 151 x41) [x00; x02; x00; x00; x00; x90; x00]
              [x2c; x00; x00; x80; xa3; x03; x00; x80; x00; x00; x00; x80;
               x00; x00; x00; x00; x00; x00; x00; x00]
              [x90; x00] [[x41; x90; x00]]
              [Ok [x00; x02; x00; x00; x00; x90; x00]; Ok [x43; x90; x00]])
    as (text & E).
  - reflexivity.
  - reflexivity.
  - reflexivity.
  - split; repeat constructor.
  - vm_compute. lia.
  - vm_compute. discriminate.
  - exists text. exact E.
Defined.

(** With an answer at hand, the chunk sender of a version-2 app sends the
    version query and the chunk. *)
Lemma signSendChunk_sent_both `{Env} (chunkIdx chunkNum : Z) (chunk version : Buffer.t)
      (next : outcome Buffer.t) (more : list (outcome Buffer.t)) :
  version !! 1%nat = Some x02 ->
  fst (run (THORChainApp.signSendChunk chunkIdx chunkNum chunk) (Ok version :: next :: more))
  = [GET_VERSION_command; sign_command chunkIdx chunkNum chunk].
Proof.
  intros Hmaj. apply major_is_2 in Hmaj. rewrite run_signSendChunk, Hmaj.
  cbn [fst]. now rewrite signSendChunkv2_sent.
Qed.

(** X16: [sign] does not test the status of the answer to the path chunk: when
    that answer carries a payload, the first payload chunk is sent next,
    whatever the status was. *)
Theorem sign_ignores_path_chunk_status `{Env} (path : list Z)
        (message version serializedPath r0 : Buffer.t) (next : outcome Buffer.t)
        (more : list (outcome Buffer.t)) :
  returnCode_of version = Num (LedgerErrorType_value NoErrors) ->
  version !! 1%nat = Some x02 ->
  helper_v2.serializePathv2 path = Ok serializedPath ->
  message <> [] ->
  2 < Buffer.length r0 ->
  let payload := THORChainApp.signGetChunks_loop message 0 [] in
  let n := Z.of_nat (S (List.length payload)) in
  exists chunk : Buffer.t,
    payload !! 0%nat = Some chunk
    /\ take 5 (fst (run (THORChainApp.sign path message)
                        (Ok version :: Ok version :: Ok r0 :: Ok version :: next :: more)))
       = [GET_VERSION_command; GET_VERSION_command; sign_command 1 n serializedPath;
          GET_VERSION_command; sign_command 2 n chunk].
Proof.
  intros Hrc Hmaj Hsp Hmessage Hr0 payload n.
  pose proof (payload_nonempty message Hmessage) as Hpayload. fold payload in Hpayload.
  destruct (run_sign_over_accepted path message version serializedPath r0 []
              (Ok version :: next :: more) Hrc Hmaj Hsp Hr0 (Forall_nil_2 _) (Forall_nil_2 _))
    as (result & Erun & _ & _); [cbn [List.length]; lia|].
  fold payload in Erun. fold n in Erun. cbv zeta in Erun.
  cbn [sign_answers flat_map app List.length take drop sign_schedule] in Erun.
  rewrite drop_0 in Erun.
  destruct payload as [|chunk rest] eqn:Epayload; [contradiction|].
  exists chunk. split; [reflexivity|].
  rewrite Erun. change (Z.of_nat 0) with 0. change (1 + 0) with 1. change (0 + 1) with 1.
  cbn [fst THORChainApp.sign_loop take sign_schedule app]. rewrite run_bind.
  change (1 + 1) with 2.
  pose proof (signSendChunk_sent_both 2 n chunk version next more Hmaj) as Esent.
  destruct (run (THORChainApp.signSendChunk 2 n chunk) (Ok version :: next :: more))
    as [sent o].
  cbn [fst] in Esent. subst sent.
  destruct o as [[r|e]|]; [|reflexivity|reflexivity].
  clear Erun.
  match goal with
  | |- context [run ?p ?a] =>
      lazymatch p with
      | (if _ then _ else _) => destruct (run p a) as [sent' o']
      end
  end.
  reflexivity.
Qed.

Lemma sign_ignores_path_chunk_status_witness :
  map p1 (take 5 (fst (run (THORChainApp.sign (H := reference_env) [44; 931; 0; 0; 0]
                              (replicate 151 x41))
                           [Ok [x00; x02; x00; x00; x00; x90; x00];
                            Ok [x00; x02; x00; x00; x00; x90; x00]; Ok [x41; x6a; x80];
                            Ok [x00; x02; x00; x00; x00; x90; x00]; Ok [x42; x90; x00]])))
  = [0; 0; 0; 0; 1].
Proof.
  destruct (sign_ignores_path_chunk_status (H := reference_env) [44; 931; 0; 0; 0]
              (replicate 151 x41) [x00; x02; x00; x00; x00; x90; x00]
              [x2c; x00; x00; x80; xa3; x03; x00; x80; x00; x00; x00; x80;
               x00; x00; x00; x00; x00; x00; x00; x00]
              [x41; x6a; x80] (Ok [x42; x90; x00]) [])
    as (chunk & Echunk & E).
  - reflexivity.
  - reflexivity.
  - reflexivity.
  - discriminate.
  - reflexivity.
  - rewrite E. reflexivity.
Defined.

(** The chunk sender when the version query before the chunk fails, or is
    answered by an app of another major version: the chunk is not sent. *)
Lemma run_signSendChunk_refused `{Env} (chunkIdx chunkNum : Z) (chunk : Buffer.t)
      (next : outcome Buffer.t) (more : list (outcome Buffer.t)) :
  match next with Ok other => other !! 1%nat <> Some x02 | Thrown _ => True end ->
  run (THORChainApp.signSendChunk chunkIdx chunkNum chunk) (next :: more)
  = ([GET_VERSION_command],
     Some (Thrown match next with
                  | Ok _ => unsupported_version
                  | Thrown e => ledgerErrorFromResponse e
                  end)).
Proof.
  destruct next as [other|e]; intros Hnext.
  - rewrite run_signSendChunk. apply major_is_not_2 in Hnext. rewrite Hnext. reflexivity.
  - reflexivity.
Qed.

(** X23: [sign] asks for the version again before every chunk. When that query
    fails, or the app that answers is not of major version 2, [sign] raises an
    error and the chunk is not sent. *)
Theorem sign_rechecks_version `{Env} (path : list Z) (message version serializedPath : Buffer.t)
        (responses : list Buffer.t) (next : outcome Buffer.t)
        (more : list (outcome Buffer.t)) :
  returnCode_of version = Num (LedgerErrorType_value NoErrors) ->
  version !! 1%nat = Some x02 ->
  helper_v2.serializePathv2 path = Ok serializedPath ->
  let payload := THORChainApp.signGetChunks_loop message 0 [] in
  let n := Z.of_nat (S (List.length payload)) in
  keeps_going responses ->
  (List.length responses <= List.length payload)%nat ->
  match next with Ok other => other !! 1%nat <> Some x02 | Thrown _ => True end ->
  run (THORChainApp.sign path message)
      (Ok version :: sign_answers version responses ++ next :: more)
  = (GET_VERSION_command
       :: sign_schedule n 0 (take (List.length responses) (serializedPath :: payload))
       ++ [GET_VERSION_command],
     Some (Thrown match next with
                  | Ok _ => unsupported_version
                  | Thrown e => ledgerErrorFromResponse e
                  end)).
Proof.
  intros Hrc Hmaj Hsp payload n Hgo Hcount Hnext.
  destruct responses as [|r0 oks].
  - cbn [sign_answers flat_map app List.length take sign_schedule].
    apply (run_sign_first_chunk_throws path message version serializedPath _ _ _ Hrc Hmaj Hsp).
    apply run_signSendChunk_refused, Hnext.
  - destruct (keeps_going_cons r0 oks Hgo) as (Hr0 & Hlen & Hok).
    cbn [List.length] in Hcount.
    destruct (run_sign_over_accepted path message version serializedPath r0 oks
                (next :: more) Hrc Hmaj Hsp Hr0 Hlen Hok)
      as (result & Erun & _ & _); [fold payload; lia|].
    fold payload in Erun. fold n in Erun. cbv zeta in Erun.
    destruct (drop (List.length oks) payload) as [|chunk rest] eqn:Edrop.
    { apply (f_equal List.length) in Edrop. rewrite length_drop in Edrop. cbn in Edrop. lia. }
    rewrite Erun.
    rewrite (sign_loop_throws n (1 + Z.of_nat (List.length oks)) chunk rest result _ _ _
               (run_signSendChunk_refused _ n chunk next more Hnext)).
    reflexivity.
Qed.

Lemma sign_rechecks_version_witness :
  run (THORChainApp.sign (H := reference_env) [44; 931; 0; 0; 0] (replicate 151 x41))
      [Ok [x00; x02; x00; x00; x00; x90; x00];
       Ok [x00; x02; x00; x00; x00; x90; x00]; Ok [x41; x90; x00];
       Ok [x00; x03; x00; x00; x00; x90; x00]; Ok [x42; x90; x00]]
  = ([GET_VERSION_command (H := reference_env); GET_VERSION_command (H := reference_env);
      sign_command (H := reference_env) 1 3
        [x2c; x00; x00; x80; xa3; x03; x00; x80; x00; x00; x00; x80;
         x00; x00; x00; x00; x00; x00; x00; x00];
      GET_VERSION_command (H := reference_env)],
     Some (Thrown (unsupported_version (H := reference_env)))).
Proof.
  apply (sign_rechecks_version (H := reference_env) [44; 931; 0; 0; 0] (replicate 151 x41)
           [x00; x02; x00; x00; x00; x90; x00]
           [x2c; x00; x00; x80; xa3; x03; x00; x80; x00; x00; x00; x80;
            x00; x00; x00; x00; x00; x00; x00; x00]
           [[x41; x90; x00]] (Ok [x00; x03; x00; x00; x00; x90; x00]) [Ok [x42; x90; x00]]).
  - reflexivity.
  - reflexivity.
  - reflexivity.
  - split; repeat constructor.
  - vm_compute. lia.
  - discriminate.
Defined.
